(** * csv-plotter-app: the downsampling engine and the file registry

    A shallow embedding of [src/App.tsx]:

    - [largestTriangleThreeBuckets], the point-count reduction;
    - the state of the [App] component and its handlers ([processFiles],
      [handleClearAll], [handleSelectionChange], [handleStyleChange],
      [handleDownloadPlot]);
    - the derived values [tracesToPlot] and [plotLayout], and the
      conditions under which the page shows the plot.

    Modelling conventions.

    - A JavaScript [number] is an IEEE 754 binary64 value, and so is a
      primitive float of Rocq: sums, differences, products, quotients,
      [Math.abs] and the comparisons are those of the source, with their
      rounding, their infinities and their [NaN].
    - Array lengths, loop counters and indices are integers ([Z]), which
      the source keeps in numbers too; they stay far below [2^53], where
      the two agree.  The bucket edges [Math.floor(k * every)] are
      computed on exact rationals: the source rounds the bucket size and
      the product, which can put an edge one lower than the exact one.
    - A [Record<string, T>] is a finite map, a [Set<string>] a finite set.
      Keys that collide with members of [Object.prototype] are not
      represented.
    - A read outside an array followed by a property access throws a
      [TypeError]; functions that can do so return an [option]. *)

From Stdlib Require Import QArith Qround Ascii String Floats.
From stdpp Require Import gmap strings list fin_maps sorting pretty.

Local Open Scope Z_scope.

(** A decimal literal denotes the nearest binary64 value, as in the
    source. *)
#[local] Set Warnings "-inexact-float".

(** ** Numbers *)

Module Num.

Definition num : Type := float.

Definition add : num -> num -> num := PrimFloat.add.
Definition sub : num -> num -> num := PrimFloat.sub.
Definition mul : num -> num -> num := PrimFloat.mul.
Definition div : num -> num -> num := PrimFloat.div.

(** [Math.abs] *)
Definition abs : num -> num := PrimFloat.abs.

(** [a > b]: false as soon as one side is [NaN]. *)
Definition gt (a b : num) : bool := PrimFloat.ltb b a.

(** The number that holds the integer [z]. *)
Definition ofZ (z : Z) : num :=
  match z with
  | Z0 => PrimFloat.zero
  | Zpos _ => PrimFloat.of_uint63 (Uint63Axioms.of_Z z)
  | Zneg p => PrimFloat.opp (PrimFloat.of_uint63 (Uint63Axioms.of_Z (Zpos p)))
  end.

Definition NaN : num := PrimFloat.nan.

Definition isNaN (a : num) : bool := PrimFloat.is_nan a.

(** Neither [NaN] nor an infinity. *)
Definition isFinite (a : num) : bool := PrimFloat.is_finite a.

(** [0] or [-0]. *)
Definition isZero (a : num) : bool := PrimFloat.is_zero a.

End Num.

Import Num.

(** ** Largest-Triangle-Three-Buckets *)

Record Point : Type := mkPoint { pt_x : num; pt_y : num }.

(** [data[i]]: [None] is JavaScript's [undefined]. *)
Definition at_index {A : Type} (data : list A) (i : Z) : option A :=
  if i <? 0 then None else data !! Z.to_nat i.

(** [Math.floor(k * every)] *)
Definition floorMul (k : Z) (every : Q) : Z := Qfloor (inject_Z k * every).

(** The bucket size, line 33. *)
Definition bucketSize (dataLength threshold : Z) : Q :=
  (inject_Z (dataLength - 2) / inject_Z (threshold - 2))%Q.

(** Lines 51-54: sum the [n] points from [avgRangeStart] on. *)
Fixpoint avgLoop (data : list Point) (avgRangeStart : Z) (n : nat)
    (avgX avgY : num) : option (num * num) :=
  match n with
  | O => Some (avgX, avgY)
  | S n' =>
      match at_index data avgRangeStart with
      | None => None
      | Some p =>
          avgLoop data (avgRangeStart + 1) n'
            (add avgX (pt_x p)) (add avgY (pt_y p))
      end
  end.

(** Lines 45-56: the average point of bucket [i + 1]. *)
Definition nextBucketAverage (data : list Point) (dataLength : Z) (every : Q)
    (i : Z) : option (num * num) :=
  let avgRangeStart := floorMul (i + 1) every + 1 in
  let avgRangeEnd := Z.min (floorMul (i + 2) every + 1) dataLength in
  let avgRangeLength := avgRangeEnd - avgRangeStart in
  match avgLoop data avgRangeStart (Z.to_nat (avgRangeEnd - avgRangeStart))
          (ofZ 0) (ofZ 0) with
  | None => None
  | Some (avgX, avgY) =>
      Some (div avgX (ofZ avgRangeLength), div avgY (ofZ avgRangeLength))
  end.

(** Line 70. *)
Definition triangleArea (pointAX pointAY avgX avgY : num) (p : Point) : num :=
  mul (abs (sub (mul (sub pointAX avgX) (sub (pt_y p) pointAY))
                (mul (sub pointAX (pt_x p)) (sub avgY pointAY))))
      0.5%float.

(** [maxAreaPoint] and [nextA] are assigned together (lines 73-74) and are
    declared outside the bucket loop: they are one optional pair that
    survives from one bucket to the next. *)
Definition Selection : Type := option (Point * Z).

(** Lines 68-76: scan the [n] candidates from [rangeOffs] on. *)
Fixpoint bucketLoop (data : list Point) (pointAX pointAY avgX avgY : num)
    (rangeOffs : Z) (n : nat) (maxArea : num) (sel : Selection)
    : option (num * Selection) :=
  match n with
  | O => Some (maxArea, sel)
  | S n' =>
      match at_index data rangeOffs with
      | None => None
      | Some p =>
          let area := triangleArea pointAX pointAY avgX avgY p in
          if gt area maxArea
          then bucketLoop data pointAX pointAY avgX avgY (rangeOffs + 1) n'
                 area (Some (p, rangeOffs))
          else bucketLoop data pointAX pointAY avgX avgY (rangeOffs + 1) n'
                 maxArea sel
      end
  end.

(** Lines 44-81: one turn of the outer loop, for bucket [i]. *)
Definition bucketStep (data : list Point) (dataLength : Z) (every : Q)
    (i : Z) (a : Z) (sel : Selection) (sampled : list Point)
    : option (Z * Selection * list Point) :=
  match nextBucketAverage data dataLength every i with
  | None => None
  | Some (avgX, avgY) =>
      let rangeOffs := floorMul i every + 1 in
      let rangeTo := floorMul (i + 1) every + 1 in
      match at_index data a with
      | None => None
      | Some pa =>
          match bucketLoop data (pt_x pa) (pt_y pa) avgX avgY rangeOffs
                  (Z.to_nat (rangeTo - rangeOffs)) (ofZ (-1)) sel with
          | None => None
          | Some (_, sel') =>
              match sel' with
              | Some (maxAreaPoint, nextA) =>
                  Some (nextA, sel', sampled ++ [maxAreaPoint])
              | None => Some (a, sel', sampled)
              end
          end
      end
  end.

(** Lines 43-82: [n] turns of the outer loop from bucket [i] on. *)
Fixpoint mainLoop (data : list Point) (dataLength : Z) (every : Q)
    (i : Z) (n : nat) (a : Z) (sel : Selection) (sampled : list Point)
    : option (list Point) :=
  match n with
  | O => Some sampled
  | S n' =>
      match bucketStep data dataLength every i a sel sampled with
      | None => None
      | Some (a', sel', sampled') =>
          mainLoop data dataLength every (i + 1) n' a' sel' sampled'
      end
  end.

(** Lines 23-87.  [None]: the run reads outside [data] (a [TypeError], or
    [undefined] entries in the result for an empty [data] and a negative
    [threshold]). *)
Definition largestTriangleThreeBuckets (data : list Point) (threshold : Z)
    : option (list Point) :=
  let dataLength := Z.of_nat (length data) in
  if (threshold >=? dataLength) || (threshold =? 0) then Some data
  else
    let every := bucketSize dataLength threshold in
    match at_index data 0 with
    | None => None
    | Some first =>
        match mainLoop data dataLength every 0 (Z.to_nat (threshold - 2))
                0 None [first] with
        | None => None
        | Some sampled =>
            match at_index data (dataLength - 1) with
            | None => None
            | Some lastPoint => Some (sampled ++ [lastPoint])
            end
        end
    end.

(** The area that the candidate at index [k] of the first bucket gets at
    line 70: measured from [data[0]] to the average point of the second
    bucket.  [None] when [k] is not an index of the first bucket. *)
Definition firstBucketArea (data : list Point) (threshold : Z) (k : Z)
    : option num :=
  let dataLength := Z.of_nat (length data) in
  let every := bucketSize dataLength threshold in
  if (floorMul 0 every + 1 <=? k) && (k <? floorMul 1 every + 1) then
    match nextBucketAverage data dataLength every 0,
          at_index data 0, at_index data k with
    | Some (avgX, avgY), Some pa, Some p =>
        Some (triangleArea (pt_x pa) (pt_y pa) avgX avgY p)
    | _, _, _ => None
    end
  else None.

(** The index kept in a selection is an index of [data]. *)
Definition selInside (data : list Point) (sel : Selection) : Prop :=
  forall p k, sel = Some (p, k) -> 0 <= k < Z.of_nat (length data).

(** Inputs used in the examples. *)
Definition pt (x y : Z) : Point := mkPoint (ofZ x) (ofZ y).

Definition zigzag : list Point :=
  [pt 0 0; pt 1 5; pt 2 1; pt 3 9; pt 4 2; pt 5 0; pt 6 3].

(** Two cells that failed numeric coercion between two proper points. *)
Definition gapped : list Point :=
  [pt 0 0; mkPoint (ofZ 1) NaN; mkPoint (ofZ 2) NaN; pt 3 0].

(** Ordinates so large that their sum is an infinity. *)
Definition huge : list Point :=
  [pt 0 0; pt 0 1; pt 0 2; mkPoint 1%float 1e308%float;
   mkPoint 2%float 1e308%float; pt 3 0].

(** Abscissas so far apart that their difference is an infinity. *)
Definition wide : list Point :=
  [pt 0 0; mkPoint (-0x1p1023)%float 1%float; pt 5 5; pt 0 1; pt 0 1;
   mkPoint 0x1p1023%float 0%float].

(** Neither coordinate is [NaN]. *)
Definition numberPoint (p : Point) : Prop :=
  isNaN (pt_x p) = false /\ isNaN (pt_y p) = false.

(** Neither coordinate is [NaN] or an infinity. *)
Definition finitePoint (p : Point) : Prop :=
  isFinite (pt_x p) = true /\ isFinite (pt_y p) = true.

(** ** Sources of the application state *)

Definition LINE_STYLES : list string :=
  ["solid"; "dash"; "dot"; "dashdot"; "longdash"; "longdashdot"]%string.
Definition DOWNSAMPLING_THRESHOLD : Z := 5000.
Definition DOWNSAMPLED_POINT_COUNT : Z := 1000.

(** A cell of a parsed row ([dynamicTyping: true]); [CUndefined] is a column
    missing from the row. *)
Inductive Cell : Type :=
| CNum (n : num)
| CStr (s : string)
| CBool (b : bool)
| CNull
| CUndefined.

(** [types.ts] *)
Record PlotlyTrace : Type := mkTrace {
  tr_x : list Cell;
  tr_y : list Cell;
  tr_mode : string;
  tr_name : string;
  tr_line_width : Z;
  tr_line_dash : option string;
  tr_headers_x : string;
  tr_headers_y : string
}.

(** What [Papa.parse] hands to [complete]: [res.errors] (their messages),
    [res.data] and [res.meta.fields]. *)
Record ParseResult : Type := mkParseResult {
  res_errors : list string;
  res_data : list (gmap string Cell);
  res_fields : option (list string)
}.

(** A submitted file: its name and what its [FileReader] will do, [onload]
    with the text ([Some]) or [onerror] ([None]). *)
Record File : Type := mkFile {
  file_name : string;
  file_text : option string
}.

(** The [useState] cells of [App], lines 91-100. *)
Record AppState : Type := mkApp {
  parsedFileData : gmap string (list PlotlyTrace);
  fileOrder : list string;
  selectedFiles : gset string;
  xAxisTitle : string;
  yAxisTitle : string;
  error : option string;
  fileStyles : gmap string string;
  downsampledFiles : gset string;
  isLoading : bool
}.

Definition initialState : AppState :=
  mkApp ∅ [] ∅ "" "" None ∅ ∅ false.

Definition setError (e : option string) (st : AppState) : AppState :=
  mkApp (parsedFileData st) (fileOrder st) (selectedFiles st) (xAxisTitle st)
    (yAxisTitle st) e (fileStyles st) (downsampledFiles st) (isLoading st).

Definition setIsLoading (b : bool) (st : AppState) : AppState :=
  mkApp (parsedFileData st) (fileOrder st) (selectedFiles st) (xAxisTitle st)
    (yAxisTitle st) (error st) (fileStyles st) (downsampledFiles st) b.

Definition setSelectedFiles (s : gset string) (st : AppState) : AppState :=
  mkApp (parsedFileData st) (fileOrder st) s (xAxisTitle st)
    (yAxisTitle st) (error st) (fileStyles st) (downsampledFiles st)
    (isLoading st).

Definition setFileStyles (m : gmap string string) (st : AppState) : AppState :=
  mkApp (parsedFileData st) (fileOrder st) (selectedFiles st) (xAxisTitle st)
    (yAxisTitle st) (error st) m (downsampledFiles st) (isLoading st).

Definition setXAxisTitle (t : string) (st : AppState) : AppState :=
  mkApp (parsedFileData st) (fileOrder st) (selectedFiles st) t
    (yAxisTitle st) (error st) (fileStyles st) (downsampledFiles st)
    (isLoading st).

Definition setYAxisTitle (t : string) (st : AppState) : AppState :=
  mkApp (parsedFileData st) (fileOrder st) (selectedFiles st) (xAxisTitle st)
    t (error st) (fileStyles st) (downsampledFiles st) (isLoading st).

(** ** [Promise.all] *)

Inductive Settlement (A : Type) : Type :=
| Resolves (v : A)
| Rejects (msg : string).
Arguments Resolves {A} v.
Arguments Rejects {A} msg.

Inductive AllState (A : Type) : Type :=
| AllPending (slots : list (option A))
| AllFulfilled (values : list A)
| AllRejected (msg : string).
Arguments AllPending {A} slots.
Arguments AllFulfilled {A} values.
Arguments AllRejected {A} msg.

(** All slots filled: the values, in index order. *)
Fixpoint allValues {A : Type} (slots : list (option A)) : option (list A) :=
  match slots with
  | [] => Some []
  | None :: _ => None
  | Some v :: rest =>
      match allValues rest with
      | Some vs => Some (v :: vs)
      | None => None
      end
  end.

(** Promise [i] settles.  The first rejection rejects the whole; a value is
    stored at the index of its promise; once settled, nothing changes. *)
Definition allSettle {A : Type} (promises : list (Settlement A))
    (s : AllState A) (i : nat) : AllState A :=
  match s with
  | AllPending slots =>
      match promises !! i with
      | None => s
      | Some (Rejects msg) => AllRejected msg
      | Some (Resolves v) =>
          let slots' := <[i := Some v]> slots in
          match allValues slots' with
          | Some vs => AllFulfilled vs
          | None => AllPending slots'
          end
      end
  | _ => s
  end.

(** [Promise.all(promises)] after the promises settled in the order
    [completion] (a list of indices into [promises]). *)
Definition allStart {A : Type} (promises : list (Settlement A)) : AllState A :=
  match promises with
  | [] => AllFulfilled []
  | _ :: _ => AllPending (replicate (length promises) None)
  end.

Definition promiseAll {A : Type} (promises : list (Settlement A))
    (completion : list nat) : AllState A :=
  fold_left (allSettle promises) completion (allStart promises).

(** What holds of the state of [Promise.all] whatever has settled so far. *)
Definition allInv {A : Type} (promises : list (Settlement A))
    (s : AllState A) : Prop :=
  match s with
  | AllPending slots =>
      length slots = length promises
      /\ forall i v, slots !! i = Some (Some v) -> promises !! i = Some (Resolves v)
  | AllFulfilled values => promises = Resolves <$> values
  | AllRejected msg => exists i, promises !! i = Some (Rejects msg)
  end.

(** ** [processFiles] *)

(** The accumulators of the [then] callback (lines 127-130) and the value
    last passed to [setError] while it runs. *)
Record Batch : Type := mkBatch {
  newParsedData : gmap string (list PlotlyTrace);
  newFileNames : list string;
  newStyles : gmap string string;
  newDownsampledFiles : gset string;
  batchError : option string
}.

(** A call of [processFiles] whose reads have not all settled: the files
    that passed the filter of line 111, and the [fileOrder] its closure
    captured (read again at line 178). *)
Record Pending : Type := mkPending {
  capturedFileOrder : list string;
  newFiles : list File
}.

(** The message of the [TypeError] of a property read on [undefined]. *)
Definition typeErrorMessage : string :=
  "Cannot read properties of undefined (reading 'x')".

(** [row[header]] *)
Definition rowGet (row : gmap string Cell) (header : string) : Cell :=
  default CUndefined (row !! header).

(** Lines 117-124: the promise of one file's read. *)
Definition readPromise (file : File) : Settlement (File * string) :=
  match file_text file with
  | Some content => Resolves (file, content)
  | None => Rejects ("Error reading " +:+ file_name file)
  end.

Section ProcessFiles.

(** [Papa.parse(content, {header, dynamicTyping, skipEmptyLines})], from
    the PapaParse library, and [Number(s)] on a string. *)
Variable papaParse : string -> ParseResult.
Variable stringToNumber : string -> num.

(** [Number(cell)] *)
Definition Number (c : Cell) : num :=
  match c with
  | CNum n => n
  | CStr s => stringToNumber s
  | CBool true => ofZ 1
  | CBool false => ofZ 0
  | CNull => ofZ 0
  | CUndefined => NaN
  end.

(** Lines 158: [xData.map((x, index) => ({x: Number(x), y: Number(yData[index])}))] *)
Definition combine (xData yData : list Cell) : list Point :=
  imap (fun index x =>
          mkPoint (Number x) (Number (default CUndefined (yData !! index))))
       xData.

(** Lines 153-172: the trace of column [yHeader], and whether it was
    downsampled. *)
Definition columnTrace (fileName xHeader : string)
    (data : list (gmap string Cell)) (initialXData : list Cell)
    (yHeader : string) : option (PlotlyTrace * bool) :=
  let yData := (fun row => rowGet row yHeader) <$> data in
  let xData := initialXData in
  let mk xs ys :=
    mkTrace xs ys "lines" (yHeader +:+ " (" +:+ fileName +:+ ")") 2 None
      xHeader yHeader in
  if Z.of_nat (length xData) >? DOWNSAMPLING_THRESHOLD then
    match largestTriangleThreeBuckets (combine xData yData)
            DOWNSAMPLED_POINT_COUNT with
    | None => None
    | Some sampled =>
        Some (mk ((fun p => CNum (pt_x p)) <$> sampled)
                 ((fun p => CNum (pt_y p)) <$> sampled), true)
    end
  else Some (mk xData yData, false).

(** Lines 152-173: the loop over the columns after the first. *)
Fixpoint columnTraces (fileName xHeader : string)
    (data : list (gmap string Cell)) (initialXData : list Cell)
    (yHeaders : list string) : option (list PlotlyTrace * bool) :=
  match yHeaders with
  | [] => Some ([], false)
  | yHeader :: rest =>
      match columnTrace fileName xHeader data initialXData yHeader with
      | None => None
      | Some (trace, d) =>
          match columnTraces fileName xHeader data initialXData rest with
          | None => None
          | Some (traces, d') => Some (trace :: traces, d || d')
          end
      end
  end.

(** Lines 137-181: the [complete] callback for one file of the batch.
    [None]: an exception escapes. *)
Definition complete (fileOrder0 : list string) (file : File)
    (res : ParseResult) (b : Batch) : option Batch :=
  match res_errors res with
  | msg :: _ =>
      Some (mkBatch (newParsedData b) (newFileNames b) (newStyles b)
              (newDownsampledFiles b)
              (Some ("Parsing error in " +:+ file_name file +:+ ": " +:+ msg)))
  | [] =>
      match res_data res, res_fields res with
      | _ :: _, Some (xHeader :: (_ :: _) as yHeaders) =>
          let initialXData := (fun row => rowGet row xHeader) <$> res_data res in
          match columnTraces (file_name file) xHeader (res_data res)
                  initialXData yHeaders with
          | None => None
          | Some (fileTraces, downsampled) =>
              match fileTraces with
              | [] => Some b
              | _ :: _ =>
                  let names := newFileNames b ++ [file_name file] in
                  let styleIndex :=
                    ((length fileOrder0 + length names - 1)
                       mod length LINE_STYLES)%nat in
                  Some (mkBatch
                          (<[file_name file := fileTraces]> (newParsedData b))
                          names
                          (match LINE_STYLES !! styleIndex with
                           | Some style =>
                               <[file_name file := style]> (newStyles b)
                           | None => newStyles b
                           end)
                          (if downsampled
                           then {[file_name file]} ∪ newDownsampledFiles b
                           else newDownsampledFiles b)
                          (batchError b))
              end
          end
      | _, _ => Some b
      end
  end.

(** Lines 132-183: [results.forEach]. *)
Fixpoint forEachResult (fileOrder0 : list string)
    (results : list (File * string)) (b : Batch) : option Batch :=
  match results with
  | [] => Some b
  | (file, content) :: rest =>
      match complete fileOrder0 file (papaParse content) b with
      | None => None
      | Some b' => forEachResult fileOrder0 rest b'
      end
  end.

(** Lines 185-191: the five functional updates, on the state current when
    the callback runs. *)
Definition mergeBatch (b : Batch) (st : AppState) : AppState :=
  match newFileNames b with
  | [] => setError (batchError b) st
  | _ :: _ =>
      mkApp (newParsedData b ∪ parsedFileData st)
        (fileOrder st ++ newFileNames b)
        (selectedFiles st ∪ list_to_set (newFileNames b))
        (xAxisTitle st) (yAxisTitle st)
        (batchError b)
        (newStyles b ∪ fileStyles st)
        (downsampledFiles st ∪ newDownsampledFiles b)
        (isLoading st)
  end.

(** Lines 105-115: the synchronous part of [processFiles]. *)
Definition processFiles_call (st : AppState) (files : list File)
    : AppState * option Pending :=
  match files with
  | [] => (st, None)
  | _ :: _ =>
      let st1 := setError None (setIsLoading true st) in
      let fresh :=
        filter (fun file => parsedFileData st !! file_name file = None)
          files in
      match fresh with
      | [] => (setIsLoading false st1, None)
      | _ :: _ => (st1, Some (mkPending (fileOrder st) fresh))
      end
  end.

(** Lines 126-197: what the promise chain does once the reads have
    settled in the order [completion]; nothing while some read is still
    outstanding. *)
Definition processFiles_settle (st : AppState) (p : Pending)
    (completion : list nat) : AppState :=
  match promiseAll (readPromise <$> newFiles p) completion with
  | AllPending _ => st
  | AllRejected msg => setIsLoading false (setError (Some msg) st)
  | AllFulfilled results =>
      match forEachResult (capturedFileOrder p) results
              (mkBatch ∅ [] ∅ ∅ (error st)) with
      | None => setIsLoading false (setError (Some typeErrorMessage) st)
      | Some b => setIsLoading false (mergeBatch b st)
      end
  end.

(** The file has at least one row and two columns and parses without
    error: lines 138-146 let it through. *)
Definition producesSeries (res : ParseResult) : bool :=
  match res_errors res, res_data res, res_fields res with
  | [], _ :: _, Some (_ :: _ :: _) => true
  | _, _, _ => false
  end.

Definition readable (file : File) : bool :=
  match file_text file with Some _ => true | None => false end.

Definition fileProducesSeries (file : File) : bool :=
  match file_text file with
  | Some content => producesSeries (papaParse content)
  | None => false
  end.

(** The names a call in flight will register, in the order of submission:
    none when a read fails, else those of the files that produce series. *)
Definition registeredNames (p : Pending) : list string :=
  if forallb readable (newFiles p)
  then file_name <$> List.filter fileProducesSeries (newFiles p)
  else [].

(** The chain of promises of a call has run: [Promise.all] has fulfilled or
    rejected. *)
Definition settled (p : Pending) (completion : list nat) : Prop :=
  match promiseAll (readPromise <$> newFiles p) completion with
  | AllPending _ => False
  | _ => True
  end.

(** A call whose reads settle before anything else happens. *)
Definition processFiles (st : AppState) (files : list File)
    (completion : list nat) : AppState :=
  match processFiles_call st files with
  | (st1, None) => st1
  | (st1, Some p) => processFiles_settle st1 p completion
  end.

End ProcessFiles.

(** ** The other handlers *)

(** Lines 210-222. *)
Definition handleClearAll (st : AppState) : AppState :=
  mkApp ∅ [] ∅ "" "" None ∅ ∅ (isLoading st).

(** Lines 224-234. *)
Definition handleSelectionChange (fileName : string) (st : AppState)
    : AppState :=
  setSelectedFiles
    (if decide (fileName ∈ selectedFiles st)
     then selectedFiles st ∖ {[fileName]}
     else selectedFiles st ∪ {[fileName]})
    st.

(** Lines 236-238. *)
Definition handleStyleChange (fileName style : string) (st : AppState)
    : AppState :=
  setFileStyles (<[fileName := style]> (fileStyles st)) st.

(** ** Derived values: [tracesToPlot] and [plotLayout] *)

(** [a || b] on strings: the empty string is falsy. *)
Definition orElse (a b : string) : string :=
  if decide (a = ""%string) then b else a.

(** [fileStyles[fileName] || 'solid'] *)
Definition styleOf (st : AppState) (fileName : string) : string :=
  match fileStyles st !! fileName with
  | Some style => orElse style "solid"
  | None => "solid"%string
  end.

(** [JSON.parse(JSON.stringify(c))] for an array element: [NaN], the
    infinities and [undefined] come back as [null], [-0] as [0]. *)
Definition jsonCell (c : Cell) : Cell :=
  match c with
  | CNum n =>
      if isFinite n then (if isZero n then CNum (ofZ 0) else CNum n)
      else CNull
  | CUndefined => CNull
  | _ => c
  end.

(** [JSON.parse(JSON.stringify(t))] for a trace. *)
Definition jsonCopy (t : PlotlyTrace) : PlotlyTrace :=
  mkTrace (jsonCell <$> tr_x t) (jsonCell <$> tr_y t) (tr_mode t) (tr_name t)
    (tr_line_width t) (tr_line_dash t) (tr_headers_x t) (tr_headers_y t).

(** [trace.line.dash = style] *)
Definition withDash (style : string) (t : PlotlyTrace) : PlotlyTrace :=
  mkTrace (tr_x t) (tr_y t) (tr_mode t) (tr_name t) (tr_line_width t)
    (Some style) (tr_headers_x t) (tr_headers_y t).

(** Lines 281-284 for one trace: the copy, stamped with [style]. *)
Definition stamp (style : string) (t : PlotlyTrace) : PlotlyTrace :=
  withDash style (jsonCopy t).

(** Lines 280-287: what one entry of [fileOrder] contributes. *)
Definition fileTracesToPlot (st : AppState) (fileName : string)
    : list PlotlyTrace :=
  if decide (fileName ∈ selectedFiles st) then
    match parsedFileData st !! fileName with
    | Some fileTraces => stamp (styleOf st fileName) <$> fileTraces
    | None => []
    end
  else [].

(** Lines 277-290. *)
Definition tracesToPlot (st : AppState) : list PlotlyTrace :=
  concat (fileTracesToPlot st <$> fileOrder st).

(** [fileOrder.filter(name => selectedFiles.has(name))], lines 242, 297. *)
Definition plottedFiles (st : AppState) : list string :=
  filter (fun name => name ∈ selectedFiles st) (fileOrder st).

Record LegendShape : Type := mkShape {
  sh_x0 : num; sh_y0 : num; sh_x1 : num; sh_y1 : num; sh_dash : string
}.

Record Annotation : Type := mkAnnotation {
  an_x : num; an_y : num; an_text : string
}.

(** The fields of the layout object that vary; colours, fonts, margins and
    anchors are constants of the source. *)
Record Layout : Type := mkLayout {
  title_text : string;
  xaxis_title_text : string;
  yaxis_title_text : string;
  legend_x : num;
  legend_y : num;
  shapes : list LegendShape;
  annotations : list Annotation
}.

(** [c.toUpperCase()] on an ASCII letter. *)
Definition upperAscii (c : ascii) : ascii :=
  let n := nat_of_ascii c in
  if (97 <=? n)%nat && (n <=? 122)%nat then ascii_of_nat (n - 32) else c.

(** [style.charAt(0).toUpperCase() + style.slice(1)] *)
Definition capitalize (s : string) : string :=
  match s with
  | EmptyString => EmptyString
  | String c rest => String (upperAscii c) rest
  end.

(** Line 302. *)
Definition truncateFileName (fileName : string) : string :=
  if (20 <? String.length fileName)%nat
  then substring 0 17 fileName +:+ "..."
  else fileName.

(** [list.join(sep)] *)
Fixpoint join (sep : string) (l : list string) : string :=
  match l with
  | [] => ""
  | [s] => s
  | s :: rest => s +:+ sep +:+ join sep rest
  end.

(** Line 301: [1.0 - (index * 0.08)]. *)
Definition slotY (index : nat) : num :=
  sub 1%float (mul (ofZ (Z.of_nat index)) 0.08%float).

(** Lines 300-312. *)
Definition legendShape (st : AppState) (index : nat) (fileName : string)
    : LegendShape :=
  mkShape 1.02%float (slotY index) 1.07%float (slotY index)
    (styleOf st fileName).

(** Lines 300-320. *)
Definition legendAnnotation (st : AppState) (index : nat) (fileName : string)
    : Annotation :=
  let traceCount :=
    match parsedFileData st !! fileName with
    | Some fileTraces => length fileTraces
    | None => O
    end in
  let traceText :=
    if (0 <? traceCount)%nat
    then ", " +:+ pretty traceCount +:+ " trace"
         +:+ (if (1 <? traceCount)%nat then "s" else "")
    else ""%string in
  mkAnnotation 1.08%float (slotY index)
    ("<b>" +:+ truncateFileName fileName +:+ "</b> ("
     +:+ capitalize (styleOf st fileName) +:+ traceText +:+ ")").

(** Lines 332-333: [1.08 - ((count * 0.08) + 0.08)]. *)
Definition defaultLegendTopY (count : nat) : num :=
  sub 1.08%float (add (mul (ofZ (Z.of_nat count)) 0.08%float) 0.08%float).

(** Lines 292-364.  [None] is the empty object of line 293. *)
Definition plotLayout (st : AppState) : option Layout :=
  match tracesToPlot st with
  | [] => None
  | first :: _ =>
      let plotted := plottedFiles st in
      Some (mkLayout
              ("<b>Plot of " +:+ join ", " plotted +:+ "</b>")
              ("<b>" +:+ orElse (xAxisTitle st)
                           (orElse (tr_headers_x first) "X-Axis") +:+ "</b>")
              ("<b>" +:+ orElse (yAxisTitle st) "Value" +:+ "</b>")
              1.02%float
              (defaultLegendTopY (length plotted))
              (imap (legendShape st) plotted)
              (imap (legendAnnotation st) plotted
               ++ match plotted with
                  | [] => []
                  | _ :: _ =>
                      [mkAnnotation 1.02%float 1.08%float "<b>File Styles</b>"]
                  end))
  end.

(** ** The component over time

    A call of [processFiles] returns before its reads settle, so several
    calls can be in flight; each keeps the [fileOrder] of the render that
    created its closure.  The other handlers run in one go. *)

Record World : Type := mkWorld {
  app : AppState;
  inflight : list Pending
}.

Definition initialWorld : World := mkWorld initialState [].

Inductive Event : Type :=
| Submit (files : list File)
| Settle (k : nat) (completion : list nat)
| ClearAll
| Toggle (fileName : string)
| SetStyle (fileName style : string)
| SetXTitle (title : string)
| SetYTitle (title : string).

Section Run.

Variable papaParse : string -> ParseResult.
Variable stringToNumber : string -> num.

(** The effect of an event; [None] when the page offers no way to cause
    it (no such call in flight, no checkbox or style menu for the name,
    no clear button, no title inputs). *)
Definition fire (w : World) (e : Event) : option World :=
  match e with
  | Submit files =>
      match processFiles_call (app w) files with
      | (st, None) => Some (mkWorld st (inflight w))
      | (st, Some p) => Some (mkWorld st (inflight w ++ [p]))
      end
  | Settle k completion =>
      match inflight w !! k with
      | None => None
      | Some p =>
          match promiseAll (readPromise <$> newFiles p) completion with
          | AllPending _ => None
          | _ =>
              Some (mkWorld
                      (processFiles_settle papaParse stringToNumber
                         (app w) p completion)
                      (delete k (inflight w)))
          end
      end
  | ClearAll =>
      if decide (parsedFileData (app w) = ∅) then None
      else Some (mkWorld (handleClearAll (app w)) (inflight w))
  | Toggle fileName =>
      if decide (fileName ∈ fileOrder (app w))
      then Some (mkWorld (handleSelectionChange fileName (app w)) (inflight w))
      else None
  | SetStyle fileName style =>
      if decide (fileName ∈ fileOrder (app w) ∧ style ∈ LINE_STYLES)
      then Some (mkWorld (handleStyleChange fileName style (app w))
                   (inflight w))
      else None
  | SetXTitle title =>
      match tracesToPlot (app w) with
      | [] => None
      | _ :: _ => Some (mkWorld (setXAxisTitle title (app w)) (inflight w))
      end
  | SetYTitle title =>
      match tracesToPlot (app w) with
      | [] => None
      | _ :: _ => Some (mkWorld (setYAxisTitle title (app w)) (inflight w))
      end
  end.

Fixpoint run (w : World) (events : list Event) : option World :=
  match events with
  | [] => Some w
  | e :: rest =>
      match fire w e with
      | None => None
      | Some w' => run w' rest
      end
  end.

Definition reachable (w : World) : Prop :=
  exists events, run initialWorld events = Some w.

End Run.

(** ** Invariants *)

(** Every registered name has traces, and at least one. *)
Definition registryOk (st : AppState) : Prop :=
  (forall name, name ∈ fileOrder st -> is_Some (parsedFileData st !! name))
  /\ (forall name fileTraces,
        parsedFileData st !! name = Some fileTraces -> fileTraces <> []).

(** Only registered names are selected. *)
Definition selectionOk (st : AppState) : Prop :=
  forall name, name ∈ selectedFiles st -> name ∈ fileOrder st.

(** The same of the accumulators of a batch. *)
Definition batchOk (b : Batch) : Prop :=
  (forall name, name ∈ newFileNames b -> is_Some (newParsedData b !! name))
  /\ (forall name fileTraces,
        newParsedData b !! name = Some fileTraces -> fileTraces <> []).

(** While the names of a batch are distinct, the style recorded for the
    [i]-th of them is the palette entry at the captured length plus [i]. *)
Definition batchStyled (fileOrder0 : list string) (b : Batch) : Prop :=
  NoDup (newFileNames b) ->
  forall i name,
    newFileNames b !! i = Some name ->
    newStyles b !! name
    = LINE_STYLES !! ((length fileOrder0 + i) mod length LINE_STYLES)%nat.

(** ** Inputs used in the examples *)

Definition demoRow (t a : Z) : gmap string Cell :=
  {[ "t"%string := CNum (ofZ t); "a"%string := CNum (ofZ a) ]}.

(** A stand-in for PapaParse: the text [broken] has a parse error, the text
    [t] has one column, any other text is a table of two columns and two
    rows. *)
Definition demoParse (content : string) : ParseResult :=
  if decide (content = "broken"%string) then
    mkParseResult ["Quoted field unterminated"%string] [] (Some ["t"; "a"]%string)
  else if decide (content = "t"%string) then
    mkParseResult [] [{[ "t"%string := CNum (ofZ 0) ]}] (Some ["t"%string])
  else
    mkParseResult [] [demoRow 0 1; demoRow 1 2] (Some ["t"; "a"]%string).

Definition demoNumber (s : string) : num := NaN.

Definition fileX : File := mkFile "X.csv" (Some "t,a"%string).
Definition fileY : File := mkFile "Y.csv" (Some "t,a"%string).
Definition unreadableY : File := mkFile "Y.csv" None.
Definition fileA : File := mkFile "A.csv" (Some "t,a"%string).
Definition fileB : File := mkFile "B.csv" (Some "t,a"%string).
Definition otherA : File := mkFile "A.csv" (Some "t,a,b"%string).

(** ** Further definitions *)

(** A selection holds a point of [data] together with its index. *)
Definition selAt (data : list Point) (sel : Selection) : Prop :=
  forall p k, sel = Some (p, k) -> at_index data k = Some p.

(** A selection is present and its index lies in [[lo, hi)]. *)
Definition selIn (data : list Point) (lo hi : Z) (sel : Selection) : Prop :=
  exists p k, sel = Some (p, k) /\ lo <= k < hi /\ at_index data k = Some p.

(** The message that the parse errors of the files leave in the error
    slot: each file with a parse error overwrites it (line 139). *)
Fixpoint lastParseError (papaParse : string -> ParseResult)
    (files : list File) (e : option string) : option string :=
  match files with
  | [] => e
  | file :: rest =>
      match file_text file with
      | Some content =>
          match res_errors (papaParse content) with
          | msg :: _ =>
              lastParseError papaParse rest
                (Some ("Parsing error in " +:+ file_name file +:+ ": " +:+ msg))
          | [] => lastParseError papaParse rest e
          end
      | None => lastParseError papaParse rest e
      end
  end.

(** More rows than the threshold of line 157. *)
Definition manyRows (res : ParseResult) : bool :=
  Z.of_nat (length (res_data res)) >? DOWNSAMPLING_THRESHOLD.

(** The files of a call whose traces get downsampled. *)
Definition fileDownsampled (papaParse : string -> ParseResult) (file : File)
    : bool :=
  match file_text file with
  | Some content =>
      producesSeries (papaParse content) && manyRows (papaParse content)
  | None => false
  end.

(** What a batch records beyond its names stays within its names, and the
    styles it records are palette entries. *)
Definition batchTidy (b : Batch) : Prop :=
  (forall name, is_Some (newParsedData b !! name) -> name ∈ newFileNames b)
  /\ (forall name, name ∈ newDownsampledFiles b -> name ∈ newFileNames b)
  /\ (forall name, name ∈ newFileNames b -> is_Some (newStyles b !! name))
  /\ (forall name style, newStyles b !! name = Some style -> style ∈ LINE_STYLES).

(** The same of the state: traces, flags and styles belong to registered
    names, every registered name has a style, and styles are palette
    entries. *)
Definition stateTidy (st : AppState) : Prop :=
  (forall name, is_Some (parsedFileData st !! name) -> name ∈ fileOrder st)
  /\ (forall name, name ∈ downsampledFiles st -> name ∈ fileOrder st)
  /\ (forall name, name ∈ fileOrder st -> is_Some (fileStyles st !! name))
  /\ (forall name style, fileStyles st !! name = Some style -> style ∈ LINE_STYLES).

(** Every cell of the rows is a number other than [NaN] once coerced. *)
Definition numericRows (stringToNumber : string -> num)
    (data : list (gmap string Cell)) (headers : list string) : Prop :=
  forall row header,
    row ∈ data -> header ∈ headers ->
    isNaN (Number stringToNumber (rowGet row header)) = false.

(** The points of columns [xHeader] and [yHeader] have, in their first
    bucket, a candidate whose triangle area is a number. *)
Definition properFirstBucket (stringToNumber : string -> num)
    (data : list (gmap string Cell)) (xHeader yHeader : string) : Prop :=
  exists k area,
    firstBucketArea
      (combine stringToNumber ((fun row => rowGet row xHeader) <$> data)
         ((fun row => rowGet row yHeader) <$> data))
      DOWNSAMPLED_POINT_COUNT k = Some area
    /\ isNaN area = false.

(** What the outer loop keeps true before bucket [i]: the points pushed
    so far sit at positions that never decrease and do not exceed [a],
    [a] lies before the bucket, and a selection, if any, is the point at
    [a]. *)
Definition orderInv (data : list Point) (threshold : Z) (i a : Z)
    (sel : Selection) (sampled : list Point) (positions : list Z) : Prop :=
  Forall2 (fun k p => at_index data k = Some p) positions sampled
  /\ StronglySorted Z.le positions
  /\ Forall (fun k => k <= a) positions
  /\ 0 <= a <= (i * (Z.of_nat (length data) - 2)) `div` (threshold - 2)
  /\ (forall p k, sel = Some (p, k) -> k = a /\ at_index data k = Some p).

(** ** The download *)

(** [s.replace(/\.csv/g, '')]: every occurrence of [.csv], scanning from the
    left, is dropped. *)
Fixpoint removeCsv (s : string) : string :=
  match s with
  | EmptyString => EmptyString
  | String c1 r1 =>
      match r1 with
      | String c2 (String c3 (String c4 rest)) =>
          if (Ascii.eqb c1 "." && Ascii.eqb c2 "c" && Ascii.eqb c3 "s"
              && Ascii.eqb c4 "v")%bool
          then removeCsv rest
          else String c1 (removeCsv r1)
      | _ => String c1 (removeCsv r1)
      end
  end.

(** The argument of [Plotly.downloadImage], lines 244-249. *)
Record DownloadRequest : Type := mkDownload {
  dl_format : string;
  dl_width : Z;
  dl_height : Z;
  dl_filename : string
}.

(** Line 243. *)
Definition downloadFilename (st : AppState) : string :=
  match plottedFiles st with
  | [] => "plot"%string
  | _ :: _ => removeCsv ("plot_" +:+ join "_" (plottedFiles st))
  end.

(** Lines 240-251; [plotMounted] is [plotRef.current] being set.  [None]:
    nothing is downloaded. *)
Definition handleDownloadPlot (plotMounted : bool) (st : AppState)
    : option DownloadRequest :=
  if plotMounted
  then Some (mkDownload "png" 1200 800 (downloadFilename st))
  else None.

(** Lines 499-512: the plot, and with it the element [plotRef] points at,
    is rendered when nothing is loading and there are traces to plot. *)
Definition plotMounted (st : AppState) : bool :=
  negb (isLoading st) && negb (bool_decide (tracesToPlot st = [])).

(** Appending the extension of a CSV file. *)
Definition csvName (base : string) : string := base +:+ ".csv".

(** No full stop in the string. *)
Fixpoint noDot (s : string) : bool :=
  match s with
  | EmptyString => true
  | String c rest => negb (Ascii.eqb c ".") && noDot rest
  end.

(** ** Further inputs used in the examples *)

(** A stand-in for PapaParse on a long file: 5001 rows of two numeric
    columns, whatever the text. *)
Definition longParse (content : string) : ParseResult :=
  mkParseResult [] (replicate (Z.to_nat 5001) (demoRow 0 1)) (Some ["t"; "a"]%string).

Definition brokenFile : File := mkFile "bad.csv" (Some "broken"%string).
Definition narrowFile : File := mkFile "one.csv" (Some "t"%string).

(** * Properties *)

(** ** Bucket edges *)

Lemma floorMul_div (k a b : Z) :
  floorMul k (inject_Z a / inject_Z b) = (k * a) `div` b.
Proof.
  unfold floorMul. rewrite Zdiv_Qdiv. apply Qfloor_comp.
  rewrite inject_Z_mult. unfold Qdiv. ring.
Qed.

Lemma edge_zero (a b : Z) : (0 * a) `div` b = 0.
Proof. rewrite Z.mul_0_l. apply Zdiv_0_l. Qed.

Lemma edge_mono (a b k k' : Z) :
  0 < b -> 0 <= a -> k <= k' -> (k * a) `div` b <= (k' * a) `div` b.
Proof. intros Hb Ha Hk. apply Z.div_le_mono; nia. Qed.

Lemma edge_step (a b k : Z) :
  0 < b -> b <= a -> (k * a) `div` b + 1 <= ((k + 1) * a) `div` b.
Proof.
  intros Hb Hab.
  replace ((k * a) `div` b + 1) with ((k * a + 1 * b) `div` b)
    by (rewrite Z.div_add by lia; reflexivity).
  apply Z.div_le_mono; nia.
Qed.

Lemma edge_top (a b : Z) : 0 < b -> (b * a) `div` b = a.
Proof. intros Hb. rewrite Z.mul_comm. apply Z.div_mul. lia. Qed.

Lemma edge_nonneg (a b k : Z) :
  0 < b -> 0 <= a -> 0 <= k -> 0 <= (k * a) `div` b.
Proof. intros Hb Ha Hk. apply Z.div_pos; nia. Qed.

Lemma edge_le_top (a b k : Z) :
  0 < b -> 0 <= a -> k <= b -> (k * a) `div` b <= a.
Proof.
  intros Hb Ha Hk. rewrite <- (edge_top a b Hb) at 2.
  apply edge_mono; lia.
Qed.

(** ** The loops of the downsampler stay inside [data] *)

Lemma at_index_is_Some {A : Type} (data : list A) (i : Z) :
  0 <= i < Z.of_nat (length data) -> is_Some (at_index data i).
Proof.
  intros Hi. unfold at_index.
  destruct (Z.ltb_spec i 0) as [Hneg | _]; [lia |].
  apply lookup_lt_is_Some_2. lia.
Qed.

Lemma at_index_bounds {A : Type} (data : list A) (i : Z) (p : A) :
  at_index data i = Some p -> 0 <= i < Z.of_nat (length data).
Proof.
  unfold at_index. destruct (Z.ltb_spec i 0) as [Hneg | Hpos]; [discriminate |].
  intros Hl. apply lookup_lt_Some in Hl. lia.
Qed.

Lemma avgLoop_total (data : list Point) (n : nat) :
  forall (start : Z) (avgX avgY : num),
    0 <= start -> start + Z.of_nat n <= Z.of_nat (length data) ->
    is_Some (avgLoop data start n avgX avgY).
Proof.
  induction n as [| n IH]; intros start avgX avgY Hlo Hhi; simpl.
  - eauto.
  - destruct (at_index_is_Some data start) as [p Hp]; [lia |].
    rewrite Hp. apply IH; lia.
Qed.

Lemma bucketLoop_total (data : list Point) (pointAX pointAY avgX avgY : num)
    (n : nat) :
  forall (rangeOffs : Z) (maxArea : num) (sel : Selection),
    0 <= rangeOffs -> rangeOffs + Z.of_nat n <= Z.of_nat (length data) ->
    selInside data sel ->
    exists maxArea' sel',
      bucketLoop data pointAX pointAY avgX avgY rangeOffs n maxArea sel
      = Some (maxArea', sel')
      /\ selInside data sel'
      /\ (is_Some sel -> is_Some sel').
Proof.
  induction n as [| n IH]; intros rangeOffs maxArea sel Hlo Hhi Hsel; simpl.
  - eauto.
  - destruct (at_index_is_Some data rangeOffs) as [p Hp]; [lia |].
    rewrite Hp.
    destruct (gt (triangleArea pointAX pointAY avgX avgY p) maxArea).
    + destruct (IH (rangeOffs + 1)
                  (triangleArea pointAX pointAY avgX avgY p)
                  (Some (p, rangeOffs))) as (m' & s' & Heq & Hin & Hsome);
        [lia | lia | |].
      * intros q k [= <- <-]. lia.
      * exists m', s'. split; [exact Heq |]. split; [exact Hin |].
        intros _. apply Hsome. eauto.
    + apply IH; [lia | lia | exact Hsel].
Qed.

(** A rounded product carries the sign it was given, unless it is
    [NaN]. *)
Lemma binary_round_aux_sign (sx : bool) (mx ex : Z) :
  match binary_round_aux prec emax sx mx ex loc_Exact with
  | S754_zero s | S754_infinity s | S754_finite s _ _ => s = sx
  | S754_nan => True
  end.
Proof.
  unfold binary_round_aux.
  destruct (shr_fexp prec emax mx ex loc_Exact) as [mrs' e'].
  destruct (shr_fexp prec emax _ e' loc_Exact) as [mrs'' e''].
  destruct (shr_m mrs''); [reflexivity | | exact I].
  destruct (e'' <=? emax - prec); reflexivity.
Qed.

(** Half an absolute value is [NaN] or at least zero (an infinity
    included), so above [-1]. *)
Lemma half_abs_gt (z : num) :
  isNaN (mul (abs z) 0.5%float) = false ->
  gt (mul (abs z) 0.5%float) (ofZ (-1)) = true.
Proof.
  unfold isNaN, gt, mul, abs, is_nan.
  change (ofZ (-1)) with (-1)%float.
  rewrite FloatAxioms.eqb_spec, FloatAxioms.ltb_spec, FloatAxioms.mul_spec,
    FloatAxioms.abs_spec.
  change (Prim2SF 0.5) with (S754_finite false 4503599627370496 (-53)).
  change (Prim2SF (-1)) with (S754_finite true 4503599627370496 (-52)).
  destruct (Prim2SF z) as [s | s | | s m e]; cbn [SFabs];
    try (intros; reflexivity).
  - discriminate.
  - unfold SF64mul, SFmul. cbn [xorb].
    pose proof (binary_round_aux_sign false (Z.pos (m * 4503599627370496))
                  (e + -53)) as Hs.
    destruct (binary_round_aux prec emax false _ _ loc_Exact)
      as [s' | s' | | s' m' e'];
      try subst s'; try reflexivity.
    discriminate.
Qed.

(** A triangle area is [NaN] or at least zero, so above the initial [-1]. *)
Lemma triangleArea_gt (pointAX pointAY avgX avgY : num) (p : Point) :
  isNaN (triangleArea pointAX pointAY avgX avgY p) = false ->
  gt (triangleArea pointAX pointAY avgX avgY p) (ofZ (-1)) = true.
Proof. unfold triangleArea. apply half_abs_gt. Qed.

Lemma bucketLoop_keeps (data : list Point) (pointAX pointAY avgX avgY : num)
    (n : nat) :
  forall (rangeOffs : Z) (maxArea maxArea' : num) (sel sel' : Selection),
    bucketLoop data pointAX pointAY avgX avgY rangeOffs n maxArea sel
    = Some (maxArea', sel') ->
    is_Some sel -> is_Some sel'.
Proof.
  induction n as [| n IH]; intros rangeOffs maxArea maxArea' sel sel' Hrun Hsel;
    simpl in Hrun.
  - injection Hrun as _ <-. exact Hsel.
  - destruct (at_index data rangeOffs) as [q |]; [| discriminate].
    destruct (gt _ maxArea); eapply IH; eauto.
Qed.

(** A bucket that holds a candidate with a proper area leaves a selection
    behind, provided it starts from the initial [-1] or from an earlier
    selection. *)
Lemma bucketLoop_selects (data : list Point)
    (pointAX pointAY avgX avgY : num) (n : nat) :
  forall (rangeOffs : Z) (maxArea maxArea' : num) (sel sel' : Selection),
    bucketLoop data pointAX pointAY avgX avgY rangeOffs n maxArea sel
    = Some (maxArea', sel') ->
    maxArea = ofZ (-1) \/ is_Some sel ->
    (exists j p, rangeOffs <= j < rangeOffs + Z.of_nat n
                 /\ at_index data j = Some p
                 /\ isNaN (triangleArea pointAX pointAY avgX avgY p) = false) ->
    is_Some sel'.
Proof.
  induction n as [| n IH];
    intros rangeOffs maxArea maxArea' sel sel' Hrun Hinit
      (j & p & Hj & Hp & Harea).
  - lia.
  - simpl in Hrun.
    destruct (at_index data rangeOffs) as [q |] eqn:Hq; [| discriminate].
    destruct (gt (triangleArea pointAX pointAY avgX avgY q) maxArea) eqn:Hgt.
    + eapply bucketLoop_keeps; [exact Hrun | eauto].
    + destruct (Z.eq_dec j rangeOffs) as [-> | Hne].
      * rewrite Hp in Hq. injection Hq as <-.
        destruct Hinit as [-> | Hsel].
        -- rewrite (triangleArea_gt _ _ _ _ _ Harea) in Hgt. discriminate.
        -- eapply bucketLoop_keeps; eauto.
      * eapply (IH (rangeOffs + 1)); [exact Hrun | exact Hinit |].
        exists j, p. split; [lia | auto].
Qed.

(** ** The outer loop *)

Section Downsample.

Variable data : list Point.
Variable threshold : Z.
Hypothesis Hrange : 3 <= threshold < Z.of_nat (length data).

Let dataLength : Z := Z.of_nat (length data).
Let every : Q := bucketSize dataLength threshold.

Lemma every_edge (k : Z) :
  floorMul k every = (k * (dataLength - 2)) `div` (threshold - 2).
Proof. apply floorMul_div. Qed.

Lemma nextBucketAverage_total (i : Z) :
  0 <= i <= threshold - 3 ->
  is_Some (nextBucketAverage data dataLength every i).
Proof.
  intros Hi. unfold nextBucketAverage.
  pose proof (edge_nonneg (dataLength - 2) (threshold - 2) (i + 1)) as Hlo.
  pose proof (edge_le_top (dataLength - 2) (threshold - 2) (i + 1)) as Hhi.
  rewrite !every_edge.
  set (s := ((i + 1) * (dataLength - 2)) `div` (threshold - 2)) in *.
  set (e := ((i + 2) * (dataLength - 2)) `div` (threshold - 2)).
  destruct (avgLoop_total data (Z.to_nat (Z.min (e + 1) dataLength - (s + 1)))
              (s + 1) (ofZ 0) (ofZ 0)) as [[avgX avgY] Heq].
  - subst dataLength. lia.
  - subst dataLength. lia.
  - fold dataLength in Heq. rewrite Heq. eauto.
Qed.

Lemma bucketStep_spec (i a : Z) (sel : Selection) (sampled : list Point) :
  0 <= i <= threshold - 3 ->
  0 <= a < dataLength ->
  selInside data sel ->
  exists a' sel' sampled',
    bucketStep data dataLength every i a sel sampled = Some (a', sel', sampled')
    /\ 0 <= a' < dataLength
    /\ selInside data sel'
    /\ (is_Some sel -> is_Some sel')
    /\ match sel' with
       | Some (p, _) => sampled' = sampled ++ [p]
       | None => sampled' = sampled
       end.
Proof.
  intros Hi Ha Hsel. unfold bucketStep.
  destruct (nextBucketAverage_total i Hi) as [[avgX avgY] ->].
  destruct (at_index_is_Some data a Ha) as [pa ->].
  pose proof (edge_nonneg (dataLength - 2) (threshold - 2) i) as Hlo.
  pose proof (edge_le_top (dataLength - 2) (threshold - 2) (i + 1)) as Hhi.
  pose proof (edge_step (dataLength - 2) (threshold - 2) i) as Hst.
  rewrite !every_edge.
  set (s := (i * (dataLength - 2)) `div` (threshold - 2)) in *.
  set (e := ((i + 1) * (dataLength - 2)) `div` (threshold - 2)) in *.
  destruct (bucketLoop_total data (pt_x pa) (pt_y pa) avgX avgY
              (Z.to_nat (e + 1 - (s + 1))) (s + 1) (ofZ (-1)) sel)
    as (m' & sel' & -> & Hin & Hsome); [subst dataLength; lia .. | exact Hsel |].
  destruct sel' as [[p k] |].
  - eexists _, _, _. split; [reflexivity |].
    split; [exact (Hin p k eq_refl) |]. auto.
  - eexists _, _, _. split; [reflexivity |]. auto.
Qed.

Lemma mainLoop_spec (n : nat) :
  forall (i a : Z) (sel : Selection) (sampled : list Point),
    0 <= i -> i + Z.of_nat n <= threshold - 2 ->
    0 <= a < dataLength ->
    selInside data sel ->
    exists ext,
      mainLoop data dataLength every i n a sel sampled = Some (sampled ++ ext)
      /\ (length ext <= n)%nat
      /\ (is_Some sel -> length ext = n).
Proof.
  induction n as [| n IH]; intros i a sel sampled Hi Hn Ha Hsel; simpl.
  - exists []. rewrite app_nil_r. auto.
  - destruct (bucketStep_spec i a sel sampled) as
      (a' & sel' & sampled' & -> & Ha' & Hsel' & Hsome & Hpush);
      [lia | exact Ha | exact Hsel |].
    destruct (IH (i + 1) a' sel' sampled') as (ext & -> & Hlen & Hfull);
      [lia | lia | exact Ha' | exact Hsel' |].
    destruct sel' as [[p k] |].
    + subst sampled'. exists (p :: ext). rewrite <- app_assoc. simpl.
      split; [reflexivity |]. split; [lia |].
      intros _. rewrite Hfull; eauto.
    + subst sampled'. exists ext. split; [reflexivity |]. split; [lia |].
      intros Hs. apply Hsome in Hs. destruct Hs as [? [=]].
  Qed.

End Downsample.

(** ** What [largestTriangleThreeBuckets] returns *)

Lemma at_index_head {A : Type} (data : list A) (p : A) :
  at_index data 0 = Some p -> head data = Some p.
Proof. unfold at_index. simpl. destruct data; [discriminate | auto]. Qed.

Lemma at_index_last {A : Type} (data : list A) (p : A) :
  at_index data (Z.of_nat (length data) - 1) = Some p -> last data = Some p.
Proof.
  unfold at_index.
  destruct (Z.ltb_spec (Z.of_nat (length data) - 1) 0); [discriminate |].
  intros Hp. rewrite last_lookup. rewrite <- Hp. f_equal. lia.
Qed.

(** Above the threshold the function never reads outside [data]: it returns
    first point, at most one point per bucket, last point. *)
Lemma lttb_shape (data : list Point) (threshold : Z) :
  3 <= threshold < Z.of_nat (length data) ->
  exists first lastPoint ext,
    largestTriangleThreeBuckets data threshold
    = Some ([first] ++ ext ++ [lastPoint])
    /\ head data = Some first
    /\ last data = Some lastPoint
    /\ (length ext <= Z.to_nat (threshold - 2))%nat.
Proof.
  intros Hrange. unfold largestTriangleThreeBuckets.
  destruct (Z.geb_spec threshold (Z.of_nat (length data))) as [Hge | _]; [lia |].
  destruct (Z.eqb_spec threshold 0) as [H0 | _]; [lia |]. simpl orb. cbv iota.
  destruct (at_index_is_Some data 0) as [first Hfirst]; [lia |].
  destruct (at_index_is_Some data (Z.of_nat (length data) - 1))
    as [lastPoint Hlast]; [lia |].
  rewrite Hfirst, Hlast.
  destruct (mainLoop_spec data threshold Hrange (Z.to_nat (threshold - 2))
              0 0 None [first]) as (ext & -> & Hlen & _);
    [lia | lia | lia | intros ? ? [=] |].
  exists first, lastPoint, ext. rewrite <- app_assoc.
  split; [reflexivity |].
  split; [apply at_index_head; exact Hfirst |].
  split; [apply at_index_last; exact Hlast | exact Hlen].
Qed.

(** When a candidate of the first bucket has a proper area, every bucket
    contributes a point. *)
Lemma lttb_full (data : list Point) (threshold : Z) (k : Z) (area : num) :
  3 <= threshold < Z.of_nat (length data) ->
  firstBucketArea data threshold k = Some area ->
  isNaN area = false ->
  exists first lastPoint ext,
    largestTriangleThreeBuckets data threshold
    = Some ([first] ++ ext ++ [lastPoint])
    /\ head data = Some first
    /\ last data = Some lastPoint
    /\ length ext = Z.to_nat (threshold - 2).
Proof.
  intros Hrange Hk Harea. unfold largestTriangleThreeBuckets.
  destruct (Z.geb_spec threshold (Z.of_nat (length data))) as [Hge | _]; [lia |].
  destruct (Z.eqb_spec threshold 0) as [H0 | _]; [lia |]. simpl orb. cbv iota.
  destruct (at_index_is_Some data 0) as [first Hfirst]; [lia |].
  destruct (at_index_is_Some data (Z.of_nat (length data) - 1))
    as [lastPoint Hlast]; [lia |].
  rewrite Hfirst, Hlast.
  destruct (Z.to_nat (threshold - 2)) as [| n] eqn:Hn; [lia |].
  simpl mainLoop.
  destruct (bucketStep_spec data threshold Hrange 0 0 None [first])
    as (a' & sel' & sampled' & Hstep & Ha' & Hsel' & _ & Hpush);
    [lia | lia | intros ? ? [=] |].
  rewrite Hstep.
  assert (Hsome : is_Some sel').
  { revert Hstep. unfold bucketStep, firstBucketArea in *.
    destruct ((floorMul 0 _ + 1 <=? k) && (k <? floorMul 1 _ + 1))
      eqn:Hbk; [| discriminate].
    apply andb_true_iff in Hbk. destruct Hbk as [Hk1 Hk2].
    apply Z.leb_le in Hk1. apply Z.ltb_lt in Hk2.
    destruct (nextBucketAverage data _ _ 0) as [[avgX avgY] |];
      [| discriminate].
    rewrite Hfirst in Hk |- *.
    destruct (at_index data k) as [p |] eqn:Hp; [| discriminate].
    injection Hk as <-.
    change (0 + 1) with 1.
    destruct (bucketLoop data (pt_x first) (pt_y first) avgX avgY _ _
                (ofZ (-1)) None) as [[m s] |] eqn:Hloop; [| discriminate].
    intros Hres.
    assert (Hs : is_Some s).
    { eapply bucketLoop_selects; [exact Hloop | left; reflexivity |].
      exists k, p. split; [lia | auto]. }
    destruct s as [[q j] |]; [| destruct Hs as [? [=]]].
    injection Hres as _ <- _. eauto. }
  destruct (mainLoop_spec data threshold Hrange n (0 + 1) a' sel' sampled')
    as (ext' & -> & _ & Hfull); [lia | lia | exact Ha' | exact Hsel' |].
  destruct sel' as [[p j] |]; [| destruct Hsome as [? [=]]].
  subst sampled'.
  exists first, lastPoint, ([p] ++ ext').
  split; [rewrite <- !app_assoc; reflexivity |].
  split; [apply at_index_head; exact Hfirst |].
  split; [apply at_index_last; exact Hlast |].
  rewrite length_app. simpl. rewrite Hfull; eauto.
Qed.

(** ** Examples *)

Example lttb_zigzag :
  largestTriangleThreeBuckets zigzag 4 = Some [pt 0 0; pt 1 5; pt 3 9; pt 6 3].
Proof. vm_compute. reflexivity. Qed.

Example lttb_gapped :
  largestTriangleThreeBuckets gapped 3 = Some [pt 0 0; pt 3 0].
Proof. vm_compute. reflexivity. Qed.

(** No coordinate of [huge] is [NaN], but the ordinates of the second
    bucket add up to an infinity, [0 * Infinity] is [NaN], and the first
    bucket selects nothing. *)
Example lttb_huge :
  Forall finitePoint huge
  /\ firstBucketArea huge 4 1 = Some NaN
  /\ firstBucketArea huge 4 2 = Some NaN
  /\ largestTriangleThreeBuckets huge 4
     = Some [pt 0 0; mkPoint 1%float 1e308%float; pt 3 0].
Proof.
  split; [repeat constructor |]. repeat split; vm_compute; reflexivity.
Qed.

(** Nor is any coordinate of [wide]; the areas of its second bucket are
    [NaN], and the point of the first bucket is pushed again. *)
Example lttb_wide :
  Forall finitePoint wide
  /\ largestTriangleThreeBuckets wide 4
     = Some [pt 0 0; mkPoint (-0x1p1023)%float 1%float;
             mkPoint (-0x1p1023)%float 1%float;
             mkPoint 0x1p1023%float 0%float].
Proof. split; [repeat constructor | vm_compute; reflexivity]. Qed.

(** C1, as the code has it: for every input with more than [threshold]
    points, [threshold >= 3], and at least one candidate of the first bucket
    whose triangle area is a number (not [NaN]),
    [largestTriangleThreeBuckets] returns exactly [threshold] points, the
    first and the last being the first and the last point of the input. *)
Theorem downsample_target_points (data : list Point) (threshold : Z)
    (k : Z) (area : num) :
  3 <= threshold < Z.of_nat (length data) ->
  firstBucketArea data threshold k = Some area ->
  isNaN area = false ->
  exists sampled,
    largestTriangleThreeBuckets data threshold = Some sampled
    /\ Z.of_nat (length sampled) = threshold
    /\ head sampled = head data
    /\ last sampled = last data.
Proof.
  intros Hrange Hk Harea.
  destruct (lttb_full data threshold k area Hrange Hk Harea)
    as (first & lastPoint & ext & -> & Hhd & Hlt & Hlen).
  eexists. split; [reflexivity |].
  split; [rewrite !length_app; simpl; lia |].
  split; [rewrite Hhd; reflexivity |].
  rewrite Hlt, app_assoc. apply last_snoc.
Qed.

Lemma downsample_target_points_witness :
  exists sampled,
    largestTriangleThreeBuckets zigzag 4 = Some sampled
    /\ Z.of_nat (length sampled) = 4
    /\ head sampled = head zigzag
    /\ last sampled = last zigzag.
Proof.
  apply (downsample_target_points zigzag 4 1 8.1666666666666661%float).
  - simpl. lia.
  - vm_compute. reflexivity.
  - reflexivity.
Defined.

(** C1 as stated fails: when every candidate of the first bucket has a
    [NaN] area nothing is selected there, and the result is shorter than
    [threshold]. *)
Lemma downsample_target_points_fails :
  ~ (forall (data : list Point) (threshold : Z),
        3 <= threshold < Z.of_nat (length data) ->
        exists sampled,
          largestTriangleThreeBuckets data threshold = Some sampled
          /\ Z.of_nat (length sampled) = threshold
          /\ head sampled = head data
          /\ last sampled = last data).
Proof.
  intros Hall.
  destruct (Hall gapped 3) as (sampled & Hrun & Hlen & _); [simpl; lia |].
  rewrite lttb_gapped in Hrun. injection Hrun as <-. simpl in Hlen. lia.
Qed.

(** C2: with [length data <= threshold] or [threshold = 0] the input comes
    back unchanged. *)
Theorem downsample_identity (data : list Point) (threshold : Z) :
  Z.of_nat (length data) <= threshold \/ threshold = 0 ->
  largestTriangleThreeBuckets data threshold = Some data.
Proof.
  intros Hcase. unfold largestTriangleThreeBuckets.
  destruct (Z.geb_spec threshold (Z.of_nat (length data))) as [_ | Hlt];
    [reflexivity |].
  destruct (Z.eqb_spec threshold 0) as [_ | Hne]; [reflexivity | lia].
Qed.

Lemma downsample_identity_witness :
  largestTriangleThreeBuckets zigzag 7 = Some zigzag
  /\ largestTriangleThreeBuckets gapped 0 = Some gapped.
Proof.
  split.
  - apply (downsample_identity zigzag 7). left. simpl. lia.
  - apply (downsample_identity gapped 0). right. reflexivity.
Defined.

(** ** [Promise.all] *)

Lemma allValues_lookup {A : Type} (slots : list (option A)) (values : list A) :
  allValues slots = Some values ->
  length values = length slots
  /\ forall i v, values !! i = Some v -> slots !! i = Some (Some v).
Proof.
  revert values. induction slots as [| [w |] slots IH]; intros values Hall;
    simpl in Hall.
  - injection Hall as <-. split; [reflexivity |]. intros i v. rewrite lookup_nil.
    discriminate.
  - destruct (allValues slots) as [vs |]; [| discriminate].
    injection Hall as <-. destruct (IH vs eq_refl) as [Hlen Hget].
    split; [simpl; lia |]. intros [| i] v; simpl; [congruence | apply Hget].
  - discriminate.
Qed.

Lemma allStart_inv {A : Type} (promises : list (Settlement A)) :
  allInv promises (allStart promises).
Proof.
  destruct promises as [| s rest]; [reflexivity |].
  unfold allStart. split; [rewrite length_replicate; reflexivity |].
  intros i v Hi. apply lookup_replicate in Hi. destruct Hi as [[=] _].
Qed.

Lemma allSettle_inv {A : Type} (promises : list (Settlement A))
    (s : AllState A) (i : nat) :
  allInv promises s -> allInv promises (allSettle promises s i).
Proof.
  destruct s as [slots | values | msg]; simpl; [| auto | auto].
  intros [Hlen Hslots].
  destruct (promises !! i) as [[v | msg] |] eqn:Hi; simpl.
  - destruct (allValues (<[i := Some v]> slots)) as [values |] eqn:Hall; simpl.
    + apply allValues_lookup in Hall. destruct Hall as [Hlen' Hget].
      rewrite length_insert in Hlen'.
      apply list_eq. intros j. rewrite list_lookup_fmap.
      destruct (values !! j) as [w |] eqn:Hj; simpl.
      * apply Hget in Hj.
        destruct (decide (i = j)) as [-> | Hne].
        -- rewrite list_lookup_insert_eq in Hj
             by (apply lookup_lt_Some in Hi; lia).
           congruence.
        -- rewrite list_lookup_insert_ne in Hj by exact Hne. auto.
      * apply lookup_ge_None in Hj. apply lookup_ge_None. lia.
    + split; [rewrite length_insert; exact Hlen |].
      intros j w Hj.
      destruct (decide (i = j)) as [-> | Hne].
      * rewrite list_lookup_insert_eq in Hj
          by (apply lookup_lt_Some in Hi; lia).
        congruence.
      * rewrite list_lookup_insert_ne in Hj by exact Hne. auto.
  - eauto.
  - auto.
Qed.

Lemma promiseAll_inv {A : Type} (promises : list (Settlement A))
    (completion : list nat) :
  allInv promises (promiseAll promises completion).
Proof.
  unfold promiseAll. generalize (allStart_inv promises).
  generalize (allStart promises).
  induction completion as [| i rest IH]; intros s Hs; simpl; [exact Hs |].
  apply IH. apply allSettle_inv. exact Hs.
Qed.

(** [Promise.all] fulfils with the values in the order of the promises,
    whatever the order of completion. *)
Lemma promiseAll_fulfilled {A : Type} (promises : list (Settlement A))
    (completion : list nat) (values : list A) :
  promiseAll promises completion = AllFulfilled values ->
  promises = Resolves <$> values.
Proof.
  intros Heq. pose proof (promiseAll_inv promises completion) as Hinv.
  rewrite Heq in Hinv. exact Hinv.
Qed.

Lemma promiseAll_rejected {A : Type} (promises : list (Settlement A))
    (completion : list nat) (msg : string) :
  promiseAll promises completion = AllRejected msg ->
  exists i, promises !! i = Some (Rejects msg).
Proof.
  intros Heq. pose proof (promiseAll_inv promises completion) as Hinv.
  rewrite Heq in Hinv. exact Hinv.
Qed.

Lemma allSettle_rejected_stays {A : Type} (promises : list (Settlement A))
    (completion : list nat) (msg : string) :
  fold_left (allSettle promises) completion (AllRejected msg) = AllRejected msg.
Proof. induction completion as [| i rest IH]; simpl; auto. Qed.

(** Once the rejecting promise has settled, [Promise.all] has rejected. *)
Lemma promiseAll_rejects {A : Type} (promises : list (Settlement A))
    (completion : list nat) (i : nat) (msg : string) :
  promises !! i = Some (Rejects msg) ->
  i ∈ completion ->
  exists msg', promiseAll promises completion = AllRejected msg'.
Proof.
  intros Hi. unfold promiseAll. generalize (allStart_inv promises).
  generalize (allStart promises).
  induction completion as [| j rest IH]; intros s Hs Hin.
  - apply elem_of_nil in Hin. destruct Hin.
  - simpl. destruct s as [slots | values | m].
    + apply elem_of_cons in Hin. destruct Hin as [<- | Hin].
      * simpl. rewrite Hi. eexists. apply allSettle_rejected_stays.
      * apply IH; [| exact Hin]. apply allSettle_inv. exact Hs.
    + simpl in Hs. rewrite Hs, list_lookup_fmap in Hi.
      destruct (values !! i); discriminate.
    + eexists. apply allSettle_rejected_stays.
Qed.

Lemma allSettle_fulfilled_stays {A : Type} (promises : list (Settlement A))
    (completion : list nat) (values : list A) :
  fold_left (allSettle promises) completion (AllFulfilled values)
  = AllFulfilled values.
Proof. induction completion as [| i rest IH]; simpl; auto. Qed.

(** While [Promise.all] is pending some slot is empty, and a slot, once
    filled, stays filled. *)
Lemma allSettle_pending_filled {A : Type} (promises : list (Settlement A))
    (completion : list nat) :
  forall (slots slots' : list (option A)),
    fold_left (allSettle promises) completion (AllPending slots)
    = AllPending slots' ->
    length slots = length promises ->
    allValues slots = None ->
    allValues slots' = None
    /\ (forall j, (j < length promises)%nat ->
                  j ∈ completion \/ is_Some (default None (slots !! j)) ->
                  is_Some (default None (slots' !! j))).
Proof.
  induction completion as [| i rest IH]; intros slots slots' Hrun Hlen Hnone.
  - simpl in Hrun. injection Hrun as <-. split; [exact Hnone |].
    intros j _ [Hin | Hj]; [apply elem_of_nil in Hin; destruct Hin | exact Hj].
  - simpl in Hrun.
    destruct (promises !! i) as [[v | msg] |] eqn:Hi.
    + destruct (allValues (<[i := Some v]> slots)) as [vs |] eqn:Hall.
      * rewrite allSettle_fulfilled_stays in Hrun. discriminate.
      * destruct (IH _ _ Hrun) as [Hnone' Hfill];
          [rewrite length_insert; exact Hlen | exact Hall |].
        split; [exact Hnone' |].
        intros j Hj Hcase. apply Hfill; [exact Hj |].
        destruct (decide (i = j)) as [-> | Hne].
        -- right. rewrite list_lookup_insert_eq by lia. simpl. eauto.
        -- rewrite list_lookup_insert_ne by exact Hne.
           destruct Hcase as [Hin | Hs]; [| auto].
           apply elem_of_cons in Hin. destruct Hin as [-> | Hin];
             [congruence | auto].
    + rewrite allSettle_rejected_stays in Hrun. discriminate.
    + destruct (IH _ _ Hrun Hlen Hnone) as [Hnone' Hfill].
      split; [exact Hnone' |].
      intros j Hj Hcase. apply Hfill; [exact Hj |].
      destruct Hcase as [Hin | Hs]; [| auto].
      apply elem_of_cons in Hin. destruct Hin as [-> | Hin]; [| auto].
      apply lookup_ge_None in Hi. lia.
Qed.

Lemma allValues_filled {A : Type} (slots : list (option A)) :
  (forall j, (j < length slots)%nat -> is_Some (default None (slots !! j))) ->
  is_Some (allValues slots).
Proof.
  induction slots as [| o slots IH]; intros Hall; simpl; [eauto |].
  destruct (Hall O) as [v Hv]; [simpl; lia |]. simpl in Hv. subst o.
  destruct IH as [vs ->]; [| eauto].
  intros j Hj. apply (Hall (S j)). simpl. lia.
Qed.

(** When every promise resolves and every one of them has settled,
    [Promise.all] has fulfilled, with the values in the order of the
    promises. *)
Lemma promiseAll_fulfils {A : Type} (values : list A) (completion : list nat) :
  (forall j, (j < length values)%nat -> j ∈ completion) ->
  promiseAll (Resolves <$> values) completion = AllFulfilled values.
Proof.
  intros Hcover.
  pose proof (promiseAll_inv (Resolves <$> values) completion) as Hinv.
  destruct (promiseAll (Resolves <$> values) completion)
    as [slots | vs | msg] eqn:Hrun; simpl in Hinv.
  - exfalso. destruct Hinv as [Hlen _]. unfold promiseAll in Hrun.
    destruct values as [| v values];
      [simpl in Hrun; rewrite allSettle_fulfilled_stays in Hrun; discriminate |].
    change (allStart (Resolves <$> v :: values))
      with (AllPending (replicate (length (Resolves <$> v :: values)) (@None A)))
      in Hrun.
    apply allSettle_pending_filled in Hrun;
      [| apply length_replicate | reflexivity].
    destruct Hrun as [Hnone Hfill].
    destruct (allValues_filled slots) as [vs Hvs]; [| congruence].
    intros j Hj. apply Hfill; [lia |]. left. apply Hcover.
    rewrite Hlen, length_fmap in Hj. exact Hj.
  - f_equal. apply list_eq. intros j.
    apply (f_equal (fun l => l !! j)) in Hinv.
    rewrite !list_lookup_fmap in Hinv.
    destruct (values !! j), (vs !! j); simpl in Hinv; congruence.
  - destruct Hinv as [i Hi]. rewrite list_lookup_fmap in Hi.
    destruct (values !! i); discriminate.
Qed.

(** ** The [then] callback of [processFiles] *)

Section Merge.

Variable papaParse : string -> ParseResult.
Variable stringToNumber : string -> num.

Lemma combine_length (xData yData : list Cell) :
  length (combine stringToNumber xData yData) = length xData.
Proof. unfold combine. apply length_imap. Qed.

(** Downsampling is only asked for above the threshold, where it cannot
    read outside its input: no exception escapes [complete]. *)
Lemma columnTrace_total (fileName xHeader : string)
    (data : list (gmap string Cell)) (initialXData : list Cell)
    (yHeader : string) :
  is_Some (columnTrace stringToNumber fileName xHeader data initialXData yHeader).
Proof.
  unfold columnTrace.
  destruct (Z.gtb_spec (Z.of_nat (length initialXData)) DOWNSAMPLING_THRESHOLD)
    as [Hgt | _]; [| eauto].
  destruct (lttb_shape
              (combine stringToNumber initialXData
                 ((fun row => rowGet row yHeader) <$> data))
              DOWNSAMPLED_POINT_COUNT) as (first & lastPoint & ext & -> & _).
  - rewrite combine_length. unfold DOWNSAMPLING_THRESHOLD in Hgt.
    unfold DOWNSAMPLED_POINT_COUNT. lia.
  - eauto.
Qed.

Lemma columnTraces_total (fileName xHeader : string)
    (data : list (gmap string Cell)) (initialXData : list Cell)
    (yHeaders : list string) :
  exists traces downsampled,
    columnTraces stringToNumber fileName xHeader data initialXData yHeaders
    = Some (traces, downsampled)
    /\ length traces = length yHeaders.
Proof.
  induction yHeaders as [| yHeader rest IH]; simpl; [eauto |].
  destruct (columnTrace_total fileName xHeader data initialXData yHeader)
    as [[trace d] ->].
  destruct IH as (traces & d' & -> & Hlen).
  eexists _, _. split; [reflexivity |]. simpl. lia.
Qed.

(** [complete] adds the file's name exactly when the file produces series,
    and then records its traces and the style at the index computed from
    the captured [fileOrder]. *)
Lemma complete_spec (fileOrder0 : list string) (file : File)
    (res : ParseResult) (b : Batch) :
  exists b',
    complete stringToNumber fileOrder0 file res b = Some b'
    /\ if producesSeries res then
         newFileNames b' = newFileNames b ++ [file_name file]
         /\ (exists fileTraces,
               fileTraces <> []
               /\ newParsedData b'
                  = <[file_name file := fileTraces]> (newParsedData b))
         /\ (exists style,
               LINE_STYLES !! ((length fileOrder0 + length (newFileNames b))
                               mod length LINE_STYLES)%nat = Some style
               /\ newStyles b' = <[file_name file := style]> (newStyles b))
         /\ batchError b' = batchError b
       else
         newFileNames b' = newFileNames b
         /\ newParsedData b' = newParsedData b
         /\ newStyles b' = newStyles b
         /\ newDownsampledFiles b' = newDownsampledFiles b.
Proof.
  unfold complete, producesSeries.
  destruct (res_errors res) as [| msg errs].
  2: { eexists. split; [reflexivity |]. simpl. auto. }
  destruct (res_data res) as [| row rows] eqn:Hdata.
  { eexists. split; [reflexivity |]. auto. }
  destruct (res_fields res) as [[| xHeader [| yHeader yHeaders]] |].
  1, 2, 4: (eexists; split; [reflexivity |]; auto).
  destruct (columnTraces_total (file_name file) xHeader (row :: rows)
              ((fun r => rowGet r xHeader) <$> row :: rows)
              (yHeader :: yHeaders)) as (traces & d & -> & Hlen).
  destruct traces as [| trace traces]; [simpl in Hlen; lia |].
  set (idx := ((length fileOrder0 + length (newFileNames b ++ [file_name file]) - 1)
                 mod length LINE_STYLES)%nat).
  assert (Hidx : idx = ((length fileOrder0 + length (newFileNames b))
                          mod length LINE_STYLES)%nat).
  { subst idx. rewrite length_app. f_equal. simpl. lia. }
  destruct (lookup_lt_is_Some_2 LINE_STYLES idx) as [style Hstyle].
  { subst idx. apply Nat.mod_upper_bound. discriminate. }
  rewrite Hstyle. rewrite Hidx in Hstyle. clearbody idx.
  eexists. split; [reflexivity |].
  cbn [newFileNames newParsedData newStyles batchError].
  split; [reflexivity |].
  split; [exists (trace :: traces); split; [discriminate | reflexivity] |].
  split; [| reflexivity].
  exists style. split; [exact Hstyle | reflexivity].
Qed.

Lemma forEachResult_names (fileOrder0 : list string)
    (results : list (File * string)) :
  forall b : Batch,
    exists b',
      forEachResult papaParse stringToNumber fileOrder0 results b = Some b'
      /\ newFileNames b'
         = newFileNames b
           ++ ((fun r => file_name r.1)
                 <$> List.filter (fun r => producesSeries (papaParse r.2)) results).
Proof.
  induction results as [| [file content] rest IH]; intros b; simpl.
  - exists b. rewrite app_nil_r. auto.
  - destruct (complete_spec fileOrder0 file (papaParse content) b)
      as (b1 & -> & Hb1).
    destruct (IH b1) as (b' & -> & Hnames).
    exists b'. split; [reflexivity |]. rewrite Hnames.
    destruct (producesSeries (papaParse content)).
    + destruct Hb1 as (-> & _). rewrite <- app_assoc. reflexivity.
    + destruct Hb1 as (-> & _). reflexivity.
Qed.

(** The values [Promise.all] fulfils with are the files of the call, each
    with its text, in the order of submission. *)
Lemma results_of_files (files : list File) :
  forall results : list (File * string),
    readPromise <$> files = Resolves <$> results ->
    forallb readable files = true
    /\ (fun r => file_name r.1)
         <$> List.filter (fun r => producesSeries (papaParse r.2)) results
       = file_name <$> List.filter (fileProducesSeries papaParse) files.
Proof.
  induction files as [| file files IH]; intros [| [f content] results] Heq;
    simpl in Heq; try discriminate.
  - auto.
  - injection Heq as Hhd Htl. destruct (IH results Htl) as [Hall Hnames].
    unfold readPromise in Hhd.
    destruct (file_text file) as [c |] eqn:Htext; [| discriminate].
    injection Hhd as <- <-.
    split; [simpl; unfold readable; rewrite Htext; exact Hall |].
    cbn [List.filter snd]. unfold fileProducesSeries at 1. rewrite Htext.
    destruct (producesSeries (papaParse c));
      rewrite ?fmap_cons, Hnames; reflexivity.
Qed.

Lemma rejection_names_file (files : list File) (i : nat) (msg : string) :
  (readPromise <$> files) !! i = Some (Rejects msg) ->
  exists file,
    files !! i = Some file /\ file_text file = None
    /\ msg = "Error reading " +:+ file_name file.
Proof.
  rewrite list_lookup_fmap. destruct (files !! i) as [file |]; [| discriminate].
  simpl. unfold readPromise. destruct (file_text file) eqn:Htext; [discriminate |].
  intros [= <-]. eauto.
Qed.

Lemma unreadable_forallb (files : list File) (i : nat) (file : File) :
  files !! i = Some file -> file_text file = None ->
  forallb readable files = false.
Proof.
  intros Hi Htext. apply not_true_is_false. intros Hall.
  rewrite forallb_forall in Hall.
  assert (Hin : In file files)
    by (apply list_elem_of_In, list_elem_of_lookup; eauto).
  apply Hall in Hin. unfold readable in Hin. rewrite Htext in Hin. discriminate.
Qed.

(** What the promise chain of a call does to the state once it has run:
    it merges the batch built from all the files, or, when a read failed,
    only reports that read. *)
Lemma settle_cases (st : AppState) (p : Pending) (completion : list nat) :
  settled p completion ->
  (exists b,
      forallb readable (newFiles p) = true
      /\ newFileNames b = registeredNames papaParse p
      /\ (exists results,
            forEachResult papaParse stringToNumber (capturedFileOrder p) results
              (mkBatch ∅ [] ∅ ∅ (error st)) = Some b)
      /\ processFiles_settle papaParse stringToNumber st p completion
         = setIsLoading false (mergeBatch b st))
  \/ (exists i file,
        newFiles p !! i = Some file /\ file_text file = None
        /\ registeredNames papaParse p = []
        /\ processFiles_settle papaParse stringToNumber st p completion
           = setIsLoading false
               (setError (Some ("Error reading " +:+ file_name file)) st)).
Proof.
  unfold settled, processFiles_settle, registeredNames.
  destruct (promiseAll (readPromise <$> newFiles p) completion)
    as [slots | results | msg] eqn:Hall; intros Hset; [destruct Hset | |].
  - left. apply promiseAll_fulfilled in Hall.
    destruct (results_of_files _ _ Hall) as [Hread Hnames].
    destruct (forEachResult_names (capturedFileOrder p) results
                (mkBatch ∅ [] ∅ ∅ (error st))) as (b & Hrun & Hb).
    exists b. rewrite Hread, Hrun. split; [reflexivity |].
    split; [rewrite Hb; simpl; exact Hnames |].
    split; [exists results; exact Hrun | reflexivity].
  - right. apply promiseAll_rejected in Hall. destruct Hall as [i Hi].
    apply rejection_names_file in Hi. destruct Hi as (file & Hi & Htext & ->).
    exists i, file. rewrite (unreadable_forallb _ _ _ Hi Htext). auto.
Qed.

End Merge.

(** ** Batches *)

Section Batches.

Variable papaParse : string -> ParseResult.
Variable stringToNumber : string -> num.

Lemma readable_results (files : list File) :
  forallb readable files = true ->
  exists results : list (File * string),
    readPromise <$> files = Resolves <$> results
    /\ length results = length files.
Proof.
  induction files as [| file files IH]; cbn [forallb]; intros Hall.
  - exists []. auto.
  - apply andb_prop in Hall. destruct Hall as [Hfile Hrest].
    destruct (IH Hrest) as (results & Heq & Hlen).
    unfold readable in Hfile.
    destruct (file_text file) as [content |] eqn:Htext; [| discriminate].
    exists ((file, content) :: results). rewrite !fmap_cons, Heq.
    unfold readPromise. rewrite Htext.
    split; [reflexivity | simpl; lia].
Qed.

Lemma unreadable_index (files : list File) :
  forallb readable files = false ->
  exists i file, files !! i = Some file /\ file_text file = None.
Proof.
  induction files as [| file files IH]; simpl; intros Hall; [discriminate |].
  apply andb_false_iff in Hall. destruct Hall as [Hfile | Hrest].
  - exists O, file. split; [reflexivity |]. unfold readable in Hfile.
    destruct (file_text file); [discriminate | reflexivity].
  - destruct (IH Hrest) as (i & f & Hi & Htext). exists (S i), f. auto.
Qed.

(** When every read of a call has completed, in whatever order, the chain
    of promises has run. *)
Lemma all_reads_done_settled (p : Pending) (completion : list nat) :
  (forall i, (i < length (newFiles p))%nat -> i ∈ completion) ->
  settled p completion.
Proof.
  intros Hcover. unfold settled.
  destruct (forallb readable (newFiles p)) eqn:Hall.
  - destruct (readable_results _ Hall) as (results & Heq & Hlen).
    rewrite Heq, promiseAll_fulfils; [exact I |].
    intros j Hj. apply Hcover. lia.
  - destruct (unreadable_index _ Hall) as (i & file & Hi & Htext).
    destruct (promiseAll_rejects (readPromise <$> newFiles p) completion i
                ("Error reading " +:+ file_name file)) as [msg ->]; [| | exact I].
    + rewrite list_lookup_fmap, Hi. simpl. unfold readPromise.
      rewrite Htext. reflexivity.
    + apply Hcover. apply lookup_lt_Some in Hi. exact Hi.
Qed.

Lemma settle_fileOrder (st : AppState) (p : Pending) (completion : list nat) :
  settled p completion ->
  fileOrder (processFiles_settle papaParse stringToNumber st p completion)
  = fileOrder st ++ registeredNames papaParse p.
Proof.
  intros Hset.
  destruct (settle_cases papaParse stringToNumber st p completion Hset)
    as [(b & _ & Hnames & _ & ->) | (i & file & _ & _ & -> & ->)].
  - rewrite <- Hnames. unfold mergeBatch.
    destruct (newFileNames b); simpl; [rewrite app_nil_r |]; reflexivity.
  - simpl. rewrite app_nil_r. reflexivity.
Qed.

Lemma settle_selected (st : AppState) (p : Pending) (completion : list nat) :
  settled p completion ->
  selectedFiles (processFiles_settle papaParse stringToNumber st p completion)
  = selectedFiles st ∪ list_to_set (registeredNames papaParse p).
Proof.
  intros Hset.
  destruct (settle_cases papaParse stringToNumber st p completion Hset)
    as [(b & _ & Hnames & _ & ->) | (i & file & _ & _ & -> & ->)].
  - rewrite <- Hnames. unfold mergeBatch.
    destruct (newFileNames b); simpl; [| reflexivity].
    rewrite right_id_L; [reflexivity | apply _].
  - simpl. rewrite right_id_L; [reflexivity | apply _].
Qed.

End Batches.

(** Every index below the length of a concrete batch is in a concrete
    order of completion. *)
Ltac all_completed :=
  let i := fresh "i" in
  let Hi := fresh "Hi" in
  intros i Hi; simpl in Hi;
  repeat (destruct i as [| i]; [set_solver |]);
  lia.

Example batch_alone :
  fileOrder (processFiles demoParse demoNumber initialState [fileX] [0%nat])
  = ["X.csv"%string].
Proof. vm_compute. reflexivity. Qed.

Example batch_with_failed_read :
  let st := processFiles demoParse demoNumber initialState
              [fileX; unreadableY] [0%nat; 1%nat] in
  fileOrder st = [] /\ error st = Some "Error reading Y.csv"%string.
Proof. vm_compute. auto. Qed.

Example batch_late_first_file :
  fileOrder (processFiles demoParse demoNumber initialState [fileX; fileY]
               [1%nat; 0%nat])
  = ["X.csv"; "Y.csv"]%string.
Proof. vm_compute. reflexivity. Qed.

(** C3, as the code has it: a read failure of one file of a batch rejects
    [Promise.all], so no file of that batch is registered (registry, order,
    selection, styles and downsampled flags stay as they were); the error
    slot gets the message naming a file whose read failed. *)
Theorem read_failure_rejects_batch (papaParse : string -> ParseResult)
    (stringToNumber : string -> num) (st : AppState) (p : Pending)
    (completion : list nat) (i : nat) (file : File) :
  newFiles p !! i = Some file ->
  file_text file = None ->
  i ∈ completion ->
  let st' := processFiles_settle papaParse stringToNumber st p completion in
  parsedFileData st' = parsedFileData st
  /\ fileOrder st' = fileOrder st
  /\ selectedFiles st' = selectedFiles st
  /\ fileStyles st' = fileStyles st
  /\ downsampledFiles st' = downsampledFiles st
  /\ isLoading st' = false
  /\ exists failed,
       failed ∈ newFiles p /\ file_text failed = None
       /\ error st' = Some ("Error reading " +:+ file_name failed).
Proof.
  intros Hi Htext Hin st'. subst st'.
  assert (Hset : settled p completion).
  { unfold settled.
    destruct (promiseAll_rejects (readPromise <$> newFiles p) completion i
                ("Error reading " +:+ file_name file)) as [msg ->];
      [| exact Hin | exact I].
    rewrite list_lookup_fmap, Hi. simpl. unfold readPromise.
    rewrite Htext. reflexivity. }
  destruct (settle_cases papaParse stringToNumber st p completion Hset)
    as [(b & Hread & _) | (j & failed & Hj & Hfailed & _ & ->)].
  - rewrite (unreadable_forallb _ _ _ Hi Htext) in Hread. discriminate.
  - simpl. repeat (split; [reflexivity |]).
    exists failed. split; [apply list_elem_of_lookup; eauto | auto].
Qed.

Lemma read_failure_rejects_batch_witness :
  let st' := processFiles_settle demoParse demoNumber initialState
               (mkPending [] [fileX; unreadableY]) [0%nat; 1%nat] in
  parsedFileData st' = parsedFileData initialState
  /\ fileOrder st' = fileOrder initialState
  /\ selectedFiles st' = selectedFiles initialState
  /\ fileStyles st' = fileStyles initialState
  /\ downsampledFiles st' = downsampledFiles initialState
  /\ isLoading st' = false
  /\ exists failed,
       failed ∈ [fileX; unreadableY] /\ file_text failed = None
       /\ error st' = Some ("Error reading " +:+ file_name failed).
Proof.
  apply (read_failure_rejects_batch demoParse demoNumber initialState
           (mkPending [] [fileX; unreadableY]) [0%nat; 1%nat] 1%nat unreadableY).
  - reflexivity.
  - reflexivity.
  - set_solver.
Defined.

(** C3 as stated fails: in a batch of a good file and an unreadable one,
    the good file is not registered. *)
Lemma read_failure_local_fails :
  ~ (forall (papaParse : string -> ParseResult)
            (stringToNumber : string -> num) (st : AppState)
            (files : list File) (completion : list nat) (file : File),
        (forall i, (i < length files)%nat -> i ∈ completion) ->
        file ∈ files ->
        parsedFileData st !! file_name file = None ->
        fileProducesSeries papaParse file = true ->
        file_name file
          ∈ fileOrder (processFiles papaParse stringToNumber st files completion)).
Proof.
  intros Hall.
  specialize (Hall demoParse demoNumber initialState [fileX; unreadableY]
                [0%nat; 1%nat] fileX).
  assert (Hin : file_name fileX ∈ @nil string).
  { destruct batch_with_failed_read as [<- _]. apply Hall.
    - all_completed.
    - set_solver.
    - reflexivity.
    - reflexivity. }
  apply elem_of_nil in Hin. exact Hin.
Qed.

(** C4: once the reads of a batch have completed, in whatever order, the
    names of its files that produce series are appended to [fileOrder] in
    the order of submission. *)
Theorem batch_registers_in_submission_order
    (papaParse : string -> ParseResult) (stringToNumber : string -> num)
    (st : AppState) (p : Pending) (completion : list nat) :
  (forall i, (i < length (newFiles p))%nat -> i ∈ completion) ->
  Forall (fun file => is_Some (file_text file)) (newFiles p) ->
  fileOrder (processFiles_settle papaParse stringToNumber st p completion)
  = fileOrder st
    ++ (file_name <$> List.filter (fileProducesSeries papaParse) (newFiles p)).
Proof.
  intros Hcover Hread.
  rewrite settle_fileOrder by (apply all_reads_done_settled; exact Hcover).
  unfold registeredNames.
  replace (forallb readable (newFiles p)) with true; [reflexivity |].
  symmetry. apply forallb_forall. intros file Hin.
  rewrite Forall_forall in Hread. apply list_elem_of_In in Hin.
  destruct (Hread file Hin) as [content Hc]. unfold readable. rewrite Hc.
  reflexivity.
Qed.

Lemma batch_registers_in_submission_order_witness :
  fileOrder (processFiles_settle demoParse demoNumber initialState
               (mkPending [] [fileX; fileY]) [1%nat; 0%nat])
  = fileOrder initialState
    ++ (file_name <$> List.filter (fileProducesSeries demoParse) [fileX; fileY]).
Proof.
  apply (batch_registers_in_submission_order demoParse demoNumber initialState
           (mkPending [] [fileX; fileY]) [1%nat; 0%nat]).
  - all_completed.
  - repeat constructor; simpl; eauto.
Defined.

(** C10: once the reads of a batch have completed, the names the batch
    registers are appended to [fileOrder], and every one of them is in the
    selection, without any toggle. *)
Theorem registered_files_selected
    (papaParse : string -> ParseResult) (stringToNumber : string -> num)
    (st : AppState) (p : Pending) (completion : list nat) :
  (forall i, (i < length (newFiles p))%nat -> i ∈ completion) ->
  let st' := processFiles_settle papaParse stringToNumber st p completion in
  fileOrder st' = fileOrder st ++ registeredNames papaParse p
  /\ forall fileName,
       fileName ∈ registeredNames papaParse p -> fileName ∈ selectedFiles st'.
Proof.
  intros Hcover st'. subst st'.
  pose proof (all_reads_done_settled p completion Hcover) as Hset.
  split; [apply settle_fileOrder; exact Hset |].
  intros fileName Hin.
  rewrite (settle_selected papaParse stringToNumber st p completion Hset).
  apply elem_of_union_r, elem_of_list_to_set. exact Hin.
Qed.

Lemma registered_files_selected_witness :
  let st' := processFiles_settle demoParse demoNumber initialState
               (mkPending [] [fileX; fileY]) [1%nat; 0%nat] in
  fileOrder st'
  = fileOrder initialState
    ++ registeredNames demoParse (mkPending [] [fileX; fileY])
  /\ forall fileName,
       fileName ∈ registeredNames demoParse (mkPending [] [fileX; fileY]) ->
       fileName ∈ selectedFiles st'.
Proof.
  apply (registered_files_selected demoParse demoNumber initialState
           (mkPending [] [fileX; fileY]) [1%nat; 0%nat]).
  all_completed.
Defined.

Example registered_names_demo :
  registeredNames demoParse (mkPending [] [fileX; fileY])
  = ["X.csv"; "Y.csv"]%string.
Proof. vm_compute. reflexivity. Qed.

(** ** Clearing and restyling *)

(** C8: whatever the state, [handleClearAll] empties the registry, the
    order, the selection, the styles and the downsampled flags and resets
    both axis titles; nothing is left to plot. *)
Theorem clear_all_resets (st : AppState) :
  let st' := handleClearAll st in
  parsedFileData st' = ∅
  /\ fileOrder st' = []
  /\ selectedFiles st' = ∅
  /\ fileStyles st' = ∅
  /\ downsampledFiles st' = ∅
  /\ xAxisTitle st' = ""%string
  /\ yAxisTitle st' = ""%string
  /\ error st' = None
  /\ tracesToPlot st' = []
  /\ plotLayout st' = None.
Proof. repeat split. Qed.

(** Two files loaded, one of them deselected, then the clear button. *)
Example clear_all_after_two_files :
  exists w w',
    run demoParse demoNumber initialWorld
      [Submit [fileA; fileB]; Settle 0 [0%nat; 1%nat]; Toggle "B.csv"] = Some w
    /\ fileOrder (app w) = ["A.csv"; "B.csv"]%string
    /\ elements (selectedFiles (app w)) = ["A.csv"%string]
    /\ fire demoParse demoNumber w ClearAll = Some w'
    /\ size (parsedFileData (app w')) = O
    /\ size (selectedFiles (app w')) = O
    /\ tracesToPlot (app w') = []
    /\ plotLayout (app w') = None.
Proof.
  eexists _, _. split; [vm_compute; reflexivity |].
  split; [vm_compute; reflexivity |].
  split; [vm_compute; reflexivity |].
  split; [vm_compute; reflexivity |].
  repeat split.
Qed.






Example restyled_traces :
  tr_line_dash
    <$> tracesToPlot
          (handleStyleChange "A.csv" "dot"
             (processFiles demoParse demoNumber initialState [fileA; fileB]
                [0%nat; 1%nat]))
  = [Some "dot"; Some "dash"]%string.
Proof. vm_compute. reflexivity. Qed.

(** ** Every registered file has traces *)

Section Reachable.

Variable papaParse : string -> ParseResult.
Variable stringToNumber : string -> num.

Lemma complete_ok (fileOrder0 : list string) (file : File) (res : ParseResult)
    (b b' : Batch) :
  complete stringToNumber fileOrder0 file res b = Some b' ->
  batchOk b -> batchOk b'.
Proof.
  intros Hrun [Hnames Htraces].
  destruct (complete_spec stringToNumber fileOrder0 file res b) as (b1 & Hb1 & Hspec).
  rewrite Hrun in Hb1. injection Hb1 as <-.
  destruct (producesSeries res).
  - destruct Hspec as (Hn & (fileTraces & Hne & Hp) & _).
    split.
    + intros name Hin. rewrite Hn in Hin. rewrite Hp.
      destruct (decide (name = file_name file)) as [-> | Hdiff].
      * rewrite lookup_insert_eq. eauto.
      * rewrite lookup_insert_ne by congruence. apply Hnames.
        apply elem_of_app in Hin. destruct Hin as [Hin | Hin]; [exact Hin |].
        apply list_elem_of_singleton in Hin. contradiction.
    + intros name ts. rewrite Hp.
      destruct (decide (name = file_name file)) as [-> | Hdiff].
      * rewrite lookup_insert_eq. intros [= <-]. exact Hne.
      * rewrite lookup_insert_ne by congruence. apply Htraces.
  - destruct Hspec as (Hn & Hp & _). split.
    + intros name. rewrite Hn, Hp. apply Hnames.
    + intros name ts. rewrite Hp. apply Htraces.
Qed.

Lemma forEachResult_ok (fileOrder0 : list string)
    (results : list (File * string)) :
  forall b b' : Batch,
    forEachResult papaParse stringToNumber fileOrder0 results b = Some b' ->
    batchOk b -> batchOk b'.
Proof.
  induction results as [| [file content] rest IH]; intros b b' Hrun Hok;
    simpl in Hrun.
  - injection Hrun as <-. exact Hok.
  - destruct (complete stringToNumber fileOrder0 file (papaParse content) b)
      as [b1 |] eqn:Hc; [| discriminate].
    eapply IH; [exact Hrun |]. eapply complete_ok; eauto.
Qed.

Lemma mergeBatch_ok (b : Batch) (st : AppState) :
  batchOk b -> registryOk st -> registryOk (mergeBatch b st).
Proof.
  intros [Hnames Htraces] [Hreg Hne]. unfold mergeBatch.
  destruct (newFileNames b) as [| name0 names] eqn:Hb; [split; assumption |].
  split; simpl.
  - intros name Hin. apply elem_of_app in Hin.
    destruct Hin as [Hin | Hin].
    + destruct (Hreg name Hin) as [ts Hts].
      destruct (newParsedData b !! name) as [ts' |] eqn:Hnew.
      * exists ts'. apply lookup_union_Some_l. exact Hnew.
      * exists ts. rewrite lookup_union_r by exact Hnew. exact Hts.
    + destruct (Hnames name Hin) as [ts Hts].
      exists ts. apply lookup_union_Some_l. exact Hts.
  - intros name ts Hl. apply lookup_union_Some_raw in Hl.
    destruct Hl as [Hl | [_ Hl]]; eauto.
Qed.

Lemma settle_ok (st : AppState) (p : Pending) (completion : list nat) :
  registryOk st ->
  registryOk (processFiles_settle papaParse stringToNumber st p completion).
Proof.
  intros Hok. unfold processFiles_settle.
  destruct (promiseAll (readPromise <$> newFiles p) completion)
    as [slots | results | msg]; [exact Hok | | exact Hok].
  destruct (forEachResult papaParse stringToNumber (capturedFileOrder p) results
              (mkBatch ∅ [] ∅ ∅ (error st))) as [b |] eqn:Hrun; [| exact Hok].
  apply forEachResult_ok in Hrun.
  - destruct (mergeBatch_ok b st Hrun Hok) as [H1 H2]. split; assumption.
  - split; simpl.
    + intros name Hin. apply elem_of_nil in Hin. destruct Hin.
    + intros name ts. rewrite lookup_empty. discriminate.
Qed.

Lemma call_ok (st : AppState) (files : list File) :
  registryOk st -> registryOk (processFiles_call st files).1.
Proof.
  intros Hok. unfold processFiles_call.
  destruct files as [| file files]; [exact Hok |].
  destruct (filter _ (file :: files)); exact Hok.
Qed.

Lemma fire_ok (w w' : World) (e : Event) :
  fire papaParse stringToNumber w e = Some w' ->
  registryOk (app w) -> registryOk (app w').
Proof.
  intros Hfire Hok. destruct e as [files | k completion | | name | name style | t | t];
    simpl in Hfire.
  - pose proof (call_ok (app w) files Hok) as Hcall.
    destruct (processFiles_call (app w) files) as [st [p |]];
      injection Hfire as <-; exact Hcall.
  - destruct (inflight w !! k) as [p |]; [| discriminate].
    pose proof (settle_ok (app w) p completion Hok) as Hs.
    destruct (promiseAll (readPromise <$> newFiles p) completion);
      [discriminate | |]; injection Hfire as <-; exact Hs.
  - destruct (decide (parsedFileData (app w) = ∅)); [discriminate |].
    injection Hfire as <-. split; simpl.
    + intros name Hin. apply elem_of_nil in Hin. destruct Hin.
    + intros name ts. rewrite lookup_empty. discriminate.
  - destruct (decide (name ∈ fileOrder (app w))); [| discriminate].
    injection Hfire as <-. exact Hok.
  - destruct (decide (name ∈ fileOrder (app w) ∧ style ∈ LINE_STYLES));
      [| discriminate].
    injection Hfire as <-. exact Hok.
  - destruct (tracesToPlot (app w)); [discriminate |].
    injection Hfire as <-. exact Hok.
  - destruct (tracesToPlot (app w)); [discriminate |].
    injection Hfire as <-. exact Hok.
Qed.

Lemma run_ok (events : list Event) :
  forall w w' : World,
    run papaParse stringToNumber w events = Some w' ->
    registryOk (app w) -> registryOk (app w').
Proof.
  induction events as [| e rest IH]; intros w w' Hrun Hok; simpl in Hrun.
  - injection Hrun as <-. exact Hok.
  - destruct (fire papaParse stringToNumber w e) as [w1 |] eqn:Hfire;
      [| discriminate].
    eapply IH; [exact Hrun |]. eapply fire_ok; eauto.
Qed.

Lemma reachable_ok (w : World) :
  reachable papaParse stringToNumber w -> registryOk (app w).
Proof.
  intros [events Hrun]. eapply run_ok; [exact Hrun |].
  split; simpl.
  - intros name Hin. apply elem_of_nil in Hin. destruct Hin.
  - intros name ts. rewrite lookup_empty. discriminate.
Qed.

Lemma mergeBatch_selection (b : Batch) (st : AppState) :
  selectionOk st -> selectionOk (mergeBatch b st).
Proof.
  intros Hok. unfold mergeBatch.
  destruct (newFileNames b) as [| name0 names] eqn:Hb; [exact Hok |].
  intros name. cbn [selectedFiles fileOrder].
  rewrite elem_of_union, elem_of_list_to_set, elem_of_app.
  intros [Hin | Hin]; [left; apply Hok; exact Hin | right; exact Hin].
Qed.

Lemma settle_selection (st : AppState) (p : Pending) (completion : list nat) :
  selectionOk st ->
  selectionOk (processFiles_settle papaParse stringToNumber st p completion).
Proof.
  intros Hok. unfold processFiles_settle.
  destruct (promiseAll (readPromise <$> newFiles p) completion)
    as [slots | results | msg]; [exact Hok | | exact Hok].
  destruct (forEachResult papaParse stringToNumber (capturedFileOrder p) results
              (mkBatch ∅ [] ∅ ∅ (error st))) as [b |]; [| exact Hok].
  exact (mergeBatch_selection b st Hok).
Qed.

Lemma fire_selection (w w' : World) (e : Event) :
  fire papaParse stringToNumber w e = Some w' ->
  selectionOk (app w) -> selectionOk (app w').
Proof.
  intros Hfire Hok.
  destruct e as [files | k completion | | name | name style | t | t];
    simpl in Hfire.
  - unfold processFiles_call in Hfire.
    destruct files as [| file files]; [injection Hfire as <-; exact Hok |].
    destruct (filter _ (file :: files)); injection Hfire as <-; exact Hok.
  - destruct (inflight w !! k) as [p |]; [| discriminate].
    pose proof (settle_selection (app w) p completion Hok) as Hs.
    destruct (promiseAll (readPromise <$> newFiles p) completion);
      [discriminate | |]; injection Hfire as <-; exact Hs.
  - destruct (decide (parsedFileData (app w) = ∅)); [discriminate |].
    injection Hfire as <-. intros name Hin. simpl in Hin.
    apply not_elem_of_empty in Hin. destruct Hin.
  - destruct (decide (name ∈ fileOrder (app w))) as [Hreg |]; [| discriminate].
    injection Hfire as <-. intros other. unfold handleSelectionChange. simpl.
    destruct (decide (name ∈ selectedFiles (app w))).
    + rewrite elem_of_difference. intros [Hin _]. apply Hok. exact Hin.
    + rewrite elem_of_union, elem_of_singleton.
      intros [Hin | ->]; [apply Hok; exact Hin | exact Hreg].
  - destruct (decide (name ∈ fileOrder (app w) ∧ style ∈ LINE_STYLES));
      [| discriminate].
    injection Hfire as <-. exact Hok.
  - destruct (tracesToPlot (app w)); [discriminate |].
    injection Hfire as <-. exact Hok.
  - destruct (tracesToPlot (app w)); [discriminate |].
    injection Hfire as <-. exact Hok.
Qed.

Lemma reachable_selection (w : World) :
  reachable papaParse stringToNumber w -> selectionOk (app w).
Proof.
  intros [events Hrun].
  assert (Hinit : selectionOk (app initialWorld)).
  { intros name Hin. simpl in Hin. apply not_elem_of_empty in Hin. destruct Hin. }
  revert Hrun Hinit. generalize initialWorld.
  induction events as [| e rest IH]; intros w0 Hrun Hok; simpl in Hrun.
  - injection Hrun as <-. exact Hok.
  - destruct (fire papaParse stringToNumber w0 e) as [w1 |] eqn:Hfire;
      [| discriminate].
    eapply IH; [exact Hrun |]. eapply fire_selection; eauto.
Qed.

End Reachable.

(** ** The legend *)

Lemma plotted_has_traces (st : AppState) :
  registryOk st -> plottedFiles st <> [] -> tracesToPlot st <> [].
Proof.
  intros [Hreg Hne] Hplotted.
  destruct (plottedFiles st) as [| name rest] eqn:Hp; [contradiction |].
  assert (Hin : name ∈ plottedFiles st) by (rewrite Hp; apply list_elem_of_here).
  unfold plottedFiles in Hin. apply list_elem_of_filter in Hin.
  destruct Hin as [Hsel Hord].
  destruct (Hreg name Hord) as [fileTraces Hts].
  pose proof (Hne name fileTraces Hts) as Hnonempty.
  unfold tracesToPlot. intros Hnil.
  apply list_elem_of_lookup in Hord. destruct Hord as [i Hi].
  assert (Hsome : fileTracesToPlot st name = []).
  { assert (Hall : Forall (fun l => l = []) (fileTracesToPlot st <$> fileOrder st)).
    { clear -Hnil. revert Hnil.
      induction (fileTracesToPlot st <$> fileOrder st) as [| l ls IH]; simpl;
        intros Hnil; [constructor |].
      apply app_eq_nil in Hnil. destruct Hnil as [-> Hrest].
      constructor; auto. }
    rewrite Forall_forall in Hall. apply Hall.
    apply list_elem_of_fmap. exists name.
    split; [reflexivity |]. apply list_elem_of_lookup. eauto. }
  unfold fileTracesToPlot in Hsome.
  destruct (decide (name ∈ selectedFiles st)); [| contradiction].
  rewrite Hts in Hsome. destruct fileTraces; [contradiction | discriminate].
Qed.

(** While the registered names are distinct, the registry entries whose
    name is selected are as many as the selected files. *)
Lemma plotted_count (st : AppState) :
  NoDup (fileOrder st) -> selectionOk st ->
  length (plottedFiles st) = size (selectedFiles st).
Proof.
  intros Hnodup Hsel.
  assert (Hset : selectedFiles st = list_to_set (plottedFiles st)).
  { apply set_eq. intros name.
    rewrite elem_of_list_to_set. unfold plottedFiles.
    rewrite list_elem_of_filter. split; [| tauto].
    intros Hin. split; [exact Hin | apply Hsel; exact Hin]. }
  rewrite Hset at 1. symmetry. apply size_list_to_set.
  apply NoDup_filter. exact Hnodup.
Qed.

(** In every reachable state with distinct registered names and a
    non-empty selection the layout is built, with one slot per selected
    file; the slot of the [i]-th selected file, in the order of the
    registry, is at [1.0 - i * 0.08], and the default legend starts at
    [1.08 - (count * 0.08 + 0.08)], where [count] is the number of selected
    files. *)
Lemma legend_slots (papaParse : string -> ParseResult)
    (stringToNumber : string -> num) (w : World) :
  reachable papaParse stringToNumber w ->
  NoDup (fileOrder (app w)) ->
  selectedFiles (app w) <> ∅ ->
  let st := app w in
  let selected := filter (fun name => name ∈ selectedFiles st) (fileOrder st) in
  let count := size (selectedFiles st) in
  exists layout,
    plotLayout st = Some layout
    /\ length selected = count
    /\ length (shapes layout) = count
    /\ (forall i name,
          selected !! i = Some name ->
          exists shape note,
            shapes layout !! i = Some shape
            /\ annotations layout !! i = Some note
            /\ sh_y0 shape = sub 1%float (mul (ofZ (Z.of_nat i)) 0.08%float)
            /\ sh_y1 shape = sub 1%float (mul (ofZ (Z.of_nat i)) 0.08%float)
            /\ an_y note = sub 1%float (mul (ofZ (Z.of_nat i)) 0.08%float)
            /\ sh_dash shape = styleOf st name)
    /\ legend_y layout
       = sub 1.08%float
           (add (mul (ofZ (Z.of_nat count)) 0.08%float) 0.08%float).
Proof.
  intros Hreach Hnodup Hsel st selected count.
  pose proof (reachable_selection papaParse stringToNumber w Hreach) as Hok.
  pose proof (plotted_count st Hnodup Hok) as Hcount.
  assert (Hplotted : plottedFiles st <> []).
  { intros Hnil. apply Hsel. apply leibniz_equiv, size_empty_inv. fold st.
    rewrite <- Hcount, Hnil. reflexivity. }
  pose proof (plotted_has_traces st
                (reachable_ok papaParse stringToNumber w Hreach) Hplotted)
    as Htraces.
  unfold plotLayout. destruct (tracesToPlot st) as [| first rest];
    [contradiction |].
  eexists. split; [reflexivity |]. cbn [shapes annotations legend_y].
  split; [exact Hcount |].
  split; [rewrite length_imap; exact Hcount |].
  split.
  - intros i name Hi.
    exists (legendShape st i name), (legendAnnotation st i name).
    change (plottedFiles st) with selected.
    split; [rewrite list_lookup_imap, Hi; reflexivity |].
    split; [| repeat split].
    rewrite lookup_app_l by (rewrite length_imap; eapply lookup_lt_Some; eauto).
    rewrite list_lookup_imap, Hi. reflexivity.
  - unfold defaultLegendTopY. rewrite Hcount. reflexivity.
Qed.

Example legend_demo :
  let st := processFiles demoParse demoNumber initialState [fileA; fileB]
              [0%nat; 1%nat] in
  (fun l => (sh_y0 <$> shapes l, an_text <$> annotations l, legend_y l))
    <$> plotLayout st
  = Some ([1; 0.92]%float,
          ["<b>A.csv</b> (Solid, 1 trace)"; "<b>B.csv</b> (Dash, 1 trace)";
           "<b>File Styles</b>"]%string,
          0.84000000000000008%float).
Proof. vm_compute. reflexivity. Qed.

(** For up to a hundred slots the default legend starts below every
    slot. *)
Example legend_below_slots :
  forallb (fun count =>
             forallb (fun i => gt (slotY i) (defaultLegendTopY count))
               (seq 0 count))
    (seq 1 100)
  = true.
Proof. vm_compute. reflexivity. Qed.


(** ** Names and default styles when calls do not overlap *)

Section Sequential.

Variable papaParse : string -> ParseResult.
Variable stringToNumber : string -> num.

Lemma List_filter_sublist {A : Type} (f : A -> bool) (l : list A) :
  List.filter f l `sublist_of` l.
Proof.
  induction l as [| x l IH]; simpl; [constructor |].
  destruct (f x); [apply sublist_skip | apply sublist_cons]; exact IH.
Qed.

Lemma registeredNames_sublist (p : Pending) :
  registeredNames papaParse p `sublist_of` (file_name <$> newFiles p).
Proof.
  unfold registeredNames. destruct (forallb readable (newFiles p)).
  - apply fmap_sublist, List_filter_sublist.
  - apply sublist_nil_l.
Qed.

Lemma settle_unsettled (st : AppState) (p : Pending) (completion : list nat) :
  ~ settled p completion ->
  processFiles_settle papaParse stringToNumber st p completion = st.
Proof.
  unfold settled, processFiles_settle.
  destruct (promiseAll (readPromise <$> newFiles p) completion);
    [reflexivity | |]; intros Hn; destruct Hn; exact I.
Qed.

Lemma settled_dec (p : Pending) (completion : list nat) :
  settled p completion \/ ~ settled p completion.
Proof.
  unfold settled.
  destruct (promiseAll (readPromise <$> newFiles p) completion); auto.
Qed.

Lemma complete_styled (fileOrder0 : list string) (file : File)
    (res : ParseResult) (b b' : Batch) :
  complete stringToNumber fileOrder0 file res b = Some b' ->
  batchStyled fileOrder0 b -> batchStyled fileOrder0 b'.
Proof.
  intros Hrun Hb.
  destruct (complete_spec stringToNumber fileOrder0 file res b)
    as (b1 & Hb1 & Hspec).
  rewrite Hrun in Hb1. injection Hb1 as <-.
  destruct (producesSeries res).
  - destruct Hspec as (Hn & _ & (style & Hstyle & Hs) & _).
    intros Hnodup i name Hi. rewrite Hn in Hnodup, Hi. rewrite Hs.
    apply NoDup_app in Hnodup. destruct Hnodup as (Hnd & Hfresh & _).
    destruct (decide (i < length (newFileNames b))%nat) as [Hlt | Hge].
    + rewrite lookup_app_l in Hi by exact Hlt.
      assert (Hne : name <> file_name file).
      { intros ->. apply (Hfresh (file_name file)).
        - apply list_elem_of_lookup. eauto.
        - apply list_elem_of_here. }
      rewrite lookup_insert_ne by congruence. apply Hb; assumption.
    + rewrite lookup_app_r in Hi by lia.
      destruct (i - length (newFileNames b))%nat as [| k] eqn:Hk;
        [| rewrite lookup_cons, lookup_nil in Hi; discriminate].
      injection Hi as <-. rewrite lookup_insert_eq.
      replace i with (length (newFileNames b)) by lia. symmetry. exact Hstyle.
  - destruct Hspec as (Hn & _ & Hs & _).
    intros Hnodup i name Hi. rewrite Hn in Hnodup, Hi. rewrite Hs.
    apply Hb; assumption.
Qed.

Lemma forEachResult_styled (fileOrder0 : list string)
    (results : list (File * string)) :
  forall b b' : Batch,
    forEachResult papaParse stringToNumber fileOrder0 results b = Some b' ->
    batchStyled fileOrder0 b -> batchStyled fileOrder0 b'.
Proof.
  induction results as [| [file content] rest IH]; intros b b' Hrun Hb;
    simpl in Hrun.
  - injection Hrun as <-. exact Hb.
  - destruct (complete stringToNumber fileOrder0 file (papaParse content) b)
      as [b1 |] eqn:Hc; [| discriminate].
    eapply IH; [exact Hrun |]. eapply complete_styled; eauto.
Qed.

(** A settled call extends [fileOrder] by names that are distinct and new,
    when those of its files are. *)
Lemma settle_unique (st : AppState) (p : Pending) (completion : list nat) :
  NoDup (fileOrder st) ->
  NoDup (file_name <$> newFiles p) ->
  (forall file, file ∈ newFiles p -> file_name file ∉ fileOrder st) ->
  NoDup (fileOrder (processFiles_settle papaParse stringToNumber st p completion)).
Proof.
  intros Hnd Hfiles Hfresh.
  destruct (settled_dec p completion) as [Hset | Hset];
    [| rewrite settle_unsettled by exact Hset; exact Hnd].
  rewrite settle_fileOrder by exact Hset.
  pose proof (registeredNames_sublist p) as Hsub.
  apply NoDup_app. split; [exact Hnd |]. split.
  - intros name Hold Hnew.
    apply (fun H => elem_of_sublist _ _ _ H Hsub) in Hnew.
    apply list_elem_of_fmap in Hnew. destruct Hnew as (file & -> & Hin).
    exact (Hfresh file Hin Hold).
  - eapply sublist_NoDup; eauto.
Qed.

(** When a call is settled before the next one is made and the names of
    its files are distinct, the names in [fileOrder] stay distinct. *)
Lemma processFiles_unique (st : AppState) (files : list File)
    (completion : list nat) :
  registryOk st ->
  NoDup (fileOrder st) ->
  NoDup (file_name <$> files) ->
  NoDup (fileOrder (processFiles papaParse stringToNumber st files completion)).
Proof.
  intros [Hreg _] Hnd Hfiles. unfold processFiles, processFiles_call.
  destruct files as [| file files]; [exact Hnd |].
  destruct (filter _ (file :: files)) as [| f fresh] eqn:Hfilter; [exact Hnd |].
  apply settle_unique; cbn [newFiles].
  - exact Hnd.
  - rewrite <- Hfilter. eapply sublist_NoDup; [exact Hfiles |].
    apply fmap_sublist, sublist_filter.
  - intros g Hin Hold. rewrite <- Hfilter in Hin.
    apply list_elem_of_filter in Hin. destruct Hin as [Hnone _].
    destruct (Hreg (file_name g) Hold) as [ts Hts]. congruence.
Qed.

(** Submitting only names that are registered changes nothing but the
    error slot and the loading flag. *)
Lemma resubmit_noop (st : AppState) (files : list File) (completion : list nat) :
  files <> [] ->
  (forall file, file ∈ files -> is_Some (parsedFileData st !! file_name file)) ->
  processFiles papaParse stringToNumber st files completion
  = setIsLoading false (setError None st).
Proof.
  intros Hne Hall. unfold processFiles, processFiles_call.
  destruct files as [| file files]; [contradiction |].
  destruct (filter _ (file :: files)) as [| f fresh] eqn:Hfilter; [reflexivity |].
  assert (Hin : f ∈ filter (fun g => parsedFileData st !! file_name g = None)
                     (file :: files))
    by (rewrite Hfilter; apply list_elem_of_here).
  apply list_elem_of_filter in Hin. destruct Hin as [Hnone Hin].
  destruct (Hall f Hin) as [ts Hts]. congruence.
Qed.

(** When a call is settled before the next one is made and the names of
    its files are distinct, each file it registers gets the palette entry
    at its position in [fileOrder], modulo the length of the palette. *)
Lemma default_style_sequential (st : AppState) (files : list File)
    (completion : list nat) (i : nat) (name : string) :
  NoDup (file_name <$> files) ->
  let st' := processFiles papaParse stringToNumber st files completion in
  (length (fileOrder st) <= i)%nat ->
  fileOrder st' !! i = Some name ->
  fileStyles st' !! name = LINE_STYLES !! (i mod length LINE_STYLES)%nat.
Proof.
  intros Hfiles st' Hi Hname. subst st'. revert Hname.
  unfold processFiles, processFiles_call.
  assert (Hold : forall s : AppState,
             fileOrder s = fileOrder st -> fileOrder s !! i = Some name -> False).
  { intros s Hs Hl. rewrite Hs in Hl. apply lookup_lt_Some in Hl. lia. }
  destruct files as [| file files]; [intros Hl; destruct (Hold st eq_refl Hl) |].
  destruct (filter _ (file :: files)) as [| f fresh] eqn:Hfilter;
    [intros Hl; destruct (Hold _ eq_refl Hl) |].
  set (st1 := setError None (setIsLoading true st)).
  set (p := mkPending (fileOrder st) (f :: fresh)).
  destruct (settled_dec p completion) as [Hset | Hset];
    [| rewrite settle_unsettled by exact Hset;
       intros Hl; destruct (Hold _ eq_refl Hl)].
  destruct (settle_cases papaParse stringToNumber st1 p completion Hset)
    as [(b & _ & Hnames & (results & Hrun) & ->) | (j & g & _ & _ & _ & ->)];
    [| intros Hl; destruct (Hold _ eq_refl Hl)].
  apply forEachResult_styled in Hrun;
    [| intros _ k nm Hk; cbn [newFileNames] in Hk;
       rewrite lookup_nil in Hk; discriminate].
  unfold mergeBatch.
  destruct (newFileNames b) as [| name0 names] eqn:Hb;
    [intros Hl; destruct (Hold _ eq_refl Hl) |].
  subst st1. unfold setIsLoading, setError. cbn [fileOrder fileStyles].
  rewrite <- Hb. intros Hl.
  rewrite lookup_app_r in Hl by exact Hi.
  assert (Hnd : NoDup (newFileNames b)).
  { rewrite Hb, Hnames. eapply sublist_NoDup; [| apply registeredNames_sublist].
    subst p. cbn [newFiles]. rewrite <- Hfilter.
    eapply sublist_NoDup; [exact Hfiles |].
    apply fmap_sublist, sublist_filter. }
  pose proof (Hrun Hnd _ _ Hl) as Hstyle. subst p.
  cbn [capturedFileOrder] in Hstyle.
  replace (length (fileOrder st) + (i - length (fileOrder st)))%nat with i
    in Hstyle by lia.
  destruct (lookup_lt_is_Some_2 LINE_STYLES (i mod length LINE_STYLES))
    as [style Hs]; [apply Nat.mod_upper_bound; discriminate |].
  rewrite Hs in Hstyle |- *. apply lookup_union_Some_l. exact Hstyle.
Qed.

End Sequential.

(** ** Selection toggles *)

Lemma toggle_frame (fileName : string) (st : AppState) :
  let st' := handleSelectionChange fileName st in
  fileStyles st' = fileStyles st
  /\ parsedFileData st' = parsedFileData st
  /\ fileOrder st' = fileOrder st
  /\ downsampledFiles st' = downsampledFiles st.
Proof. repeat split. Qed.

(** No sequence of toggles changes a style. *)
Lemma toggles_keep_styles (names : list string) (st : AppState) :
  fileStyles (foldr handleSelectionChange st names) = fileStyles st.
Proof.
  induction names as [| name names IH]; simpl; [reflexivity | exact IH].
Qed.

(** Deselecting and reselecting (or the reverse) gives the selection back. *)
Lemma toggle_twice (fileName : string) (st : AppState) :
  selectedFiles (handleSelectionChange fileName
                   (handleSelectionChange fileName st))
  = selectedFiles st.
Proof.
  unfold handleSelectionChange. simpl.
  destruct (decide (fileName ∈ selectedFiles st)) as [Hin | Hout].
  - destruct (decide (fileName ∈ selectedFiles st ∖ {[fileName]}))
      as [Hbad | _].
    + apply elem_of_difference in Hbad. destruct Hbad as [_ Hbad].
      destruct Hbad. apply elem_of_singleton. reflexivity.
    + apply set_eq. intros name.
      rewrite elem_of_union, elem_of_difference, elem_of_singleton.
      destruct (decide (name = fileName)) as [-> | Hne]; tauto.
  - destruct (decide (fileName ∈ selectedFiles st ∪ {[fileName]}))
      as [_ | Hbad].
    + apply set_eq. intros name.
      rewrite elem_of_difference, elem_of_union, elem_of_singleton.
      destruct (decide (name = fileName)) as [-> | Hne]; tauto.
    + destruct Hbad. apply elem_of_union_r, elem_of_singleton. reflexivity.
Qed.

(** ** Where names repeat and styles collide *)

Example register_A_B_A :
  let st2 := processFiles demoParse demoNumber
               (processFiles demoParse demoNumber initialState [fileA] [0%nat])
               [fileB] [0%nat] in
  let st3 := processFiles demoParse demoNumber st2 [otherA] [0%nat] in
  fileOrder st3 = ["A.csv"; "B.csv"]%string
  /\ parsedFileData st3 = parsedFileData st2
  /\ fileStyles st3 = fileStyles st2
  /\ fileStyles st3 !! "A.csv"%string = Some "solid"%string.
Proof.
  cbv zeta.
  split; [vm_compute; reflexivity |].
  split; [vm_compute; reflexivity |].
  split; vm_compute; reflexivity.
Qed.

(** C5 fails on the code: the filter of line 111 only looks at the files
    registered when the call is made.  Two files of one batch that carry
    the same name both pass it, and so does a name submitted again while
    its first read is outstanding; either way the name is appended twice. *)
Theorem duplicate_name_registered_twice :
  let st := processFiles demoParse demoNumber initialState [fileA; otherA]
              [0%nat; 1%nat] in
  fileOrder st = ["A.csv"; "A.csv"]%string
  /\ ~ NoDup (fileOrder st)
  /\ fileOrder <$> (app <$> run demoParse demoNumber initialWorld
                             [Submit [fileA]; Submit [otherA];
                              Settle 0 [0%nat]; Settle 0 [0%nat]])
     = Some ["A.csv"; "A.csv"]%string.
Proof.
  cbv zeta.
  assert (Heq : fileOrder (processFiles demoParse demoNumber initialState
                             [fileA; otherA] [0%nat; 1%nat])
                = ["A.csv"; "A.csv"]%string) by (vm_compute; reflexivity).
  split; [exact Heq |]. split; [| vm_compute; reflexivity].
  rewrite Heq. intros Hnd.
  apply NoDup_cons in Hnd. destruct Hnd as [Hnotin _].
  apply Hnotin. apply list_elem_of_here.
Qed.

(** C6 fails on the code: a call made while another one is in flight
    computes its style index from the [fileOrder] captured when it was made
    (line 178), not from the order at the merge; the file registered second
    gets the first palette entry again. *)
Theorem overlapping_calls_repeat_style :
  exists w,
    run demoParse demoNumber initialWorld
      [Submit [fileA]; Submit [fileB]; Settle 0 [0%nat]; Settle 0 [0%nat]]
    = Some w
    /\ fileOrder (app w) = ["A.csv"; "B.csv"]%string
    /\ fileStyles (app w) !! "A.csv"%string = Some "solid"%string
    /\ fileStyles (app w) !! "B.csv"%string = Some "solid"%string
    /\ LINE_STYLES !! (1 mod length LINE_STYLES)%nat = Some "dash"%string.
Proof.
  eexists. split; [vm_compute; reflexivity |].
  repeat split; vm_compute; reflexivity.
Qed.

Example sequential_calls_styles :
  exists w,
    run demoParse demoNumber initialWorld
      [Submit [fileA]; Settle 0 [0%nat]; Submit [fileB]; Settle 0 [0%nat]]
    = Some w
    /\ fileOrder (app w) = ["A.csv"; "B.csv"]%string
    /\ fileStyles (app w) !! "A.csv"%string = Some "solid"%string
    /\ fileStyles (app w) !! "B.csv"%string = Some "dash"%string.
Proof.
  eexists. split; [vm_compute; reflexivity |].
  repeat split; vm_compute; reflexivity.
Qed.


(** * Further properties *)

(** ** The downsampler: bounds, membership, order *)

(** X1: above the threshold ([3 <= threshold < length]) the downsampler
    never reads outside its input, whatever the coordinates are: it
    returns at least the two end points and at most [threshold] points,
    starting with the first and ending with the last point of the input. *)
Theorem downsample_bounds (data : list Point) (threshold : Z) :
  3 <= threshold < Z.of_nat (length data) ->
  exists sampled,
    largestTriangleThreeBuckets data threshold = Some sampled
    /\ 2 <= Z.of_nat (length sampled) <= threshold
    /\ head sampled = head data
    /\ last sampled = last data.
Proof.
  intros Hrange.
  destruct (lttb_shape data threshold Hrange)
    as (first & lastPoint & ext & -> & Hhd & Hlt & Hlen).
  eexists. split; [reflexivity |].
  split; [rewrite !length_app; simpl; lia |].
  split; [rewrite Hhd; reflexivity |].
  rewrite Hlt, app_assoc. apply last_snoc.
Qed.

Lemma downsample_bounds_witness :
  exists sampled,
    largestTriangleThreeBuckets gapped 3 = Some sampled
    /\ 2 <= Z.of_nat (length sampled) <= 3
    /\ head sampled = head gapped
    /\ last sampled = last gapped.
Proof. apply (downsample_bounds gapped 3). simpl. lia. Defined.

Lemma at_index_elem {A : Type} (data : list A) (k : Z) (p : A) :
  at_index data k = Some p -> p ∈ data.
Proof.
  unfold at_index. destruct (k <? 0); [discriminate |].
  intros Hp. apply list_elem_of_lookup. eauto.
Qed.

Lemma bucketLoop_selAt (data : list Point) (pointAX pointAY avgX avgY : num)
    (n : nat) :
  forall (rangeOffs : Z) (maxArea maxArea' : num) (sel sel' : Selection),
    bucketLoop data pointAX pointAY avgX avgY rangeOffs n maxArea sel
    = Some (maxArea', sel') ->
    selAt data sel -> selAt data sel'.
Proof.
  induction n as [| n IH]; intros rangeOffs maxArea maxArea' sel sel' Hrun Hsel;
    simpl in Hrun.
  - injection Hrun as _ <-. exact Hsel.
  - destruct (at_index data rangeOffs) as [q |] eqn:Hq; [| discriminate].
    destruct (gt _ maxArea); eapply IH; try exact Hrun; [| exact Hsel].
    intros p k [= <- <-]. exact Hq.
Qed.

Lemma bucketStep_members (data : list Point) (dataLength : Z) (every : Q)
    (i a a' : Z) (sel sel' : Selection) (sampled sampled' : list Point) :
  bucketStep data dataLength every i a sel sampled = Some (a', sel', sampled') ->
  selAt data sel ->
  selAt data sel'
  /\ forall p, p ∈ sampled' -> p ∈ sampled \/ p ∈ data.
Proof.
  unfold bucketStep. intros Hstep Hsel.
  destruct (nextBucketAverage data dataLength every i) as [[avgX avgY] |];
    [| discriminate].
  destruct (at_index data a) as [pa |]; [| discriminate].
  destruct (bucketLoop data (pt_x pa) (pt_y pa) avgX avgY _ _ (ofZ (-1)) sel)
    as [[m s1] |] eqn:Hloop; [| discriminate].
  pose proof (bucketLoop_selAt _ _ _ _ _ _ _ _ _ _ _ Hloop Hsel) as Hs1.
  destruct s1 as [[q k] |]; injection Hstep as <- <- <-.
  - split; [exact Hs1 |]. intros p Hp. apply elem_of_app in Hp.
    destruct Hp as [Hp | Hp]; [left; exact Hp | right].
    apply list_elem_of_singleton in Hp. subst p.
    eapply at_index_elem. apply Hs1. reflexivity.
  - split; [exact Hs1 |]. auto.
Qed.

Lemma mainLoop_members (data : list Point) (dataLength : Z) (every : Q)
    (n : nat) :
  forall (i a : Z) (sel : Selection) (sampled out : list Point),
    mainLoop data dataLength every i n a sel sampled = Some out ->
    selAt data sel ->
    (forall p, p ∈ sampled -> p ∈ data) ->
    forall p, p ∈ out -> p ∈ data.
Proof.
  induction n as [| n IH]; intros i a sel sampled out Hrun Hsel Hin;
    simpl in Hrun.
  - injection Hrun as <-. exact Hin.
  - destruct (bucketStep data dataLength every i a sel sampled)
      as [[[a' sel'] sampled'] |] eqn:Hstep; [| discriminate].
    destruct (bucketStep_members _ _ _ _ _ _ _ _ _ _ Hstep Hsel) as [Hsel' Hmem].
    eapply IH; [exact Hrun | exact Hsel' |].
    intros p Hp. destruct (Hmem p Hp) as [Hold | Hnew]; auto.
Qed.

Lemma lttb_members (data sampled : list Point) (threshold : Z) (p : Point) :
  largestTriangleThreeBuckets data threshold = Some sampled ->
  p ∈ sampled ->
  p ∈ data.
Proof.
  unfold largestTriangleThreeBuckets.
  destruct ((threshold >=? Z.of_nat (length data)) || (threshold =? 0));
    [intros [= <-]; auto |].
  destruct (at_index data 0) as [first |] eqn:Hfirst; [| discriminate].
  destruct (mainLoop data _ _ 0 _ 0 None [first]) as [out |] eqn:Hmain;
    [| discriminate].
  destruct (at_index data (Z.of_nat (length data) - 1)) as [lastPoint |] eqn:Hlast;
    [| discriminate].
  intros [= <-] Hp. apply elem_of_app in Hp. destruct Hp as [Hp | Hp].
  - eapply mainLoop_members; [exact Hmain | intros ? ? [=] | | exact Hp].
    intros q Hq. apply list_elem_of_singleton in Hq. subst q.
    eapply at_index_elem; eauto.
  - apply list_elem_of_singleton in Hp. subst p. eapply at_index_elem; eauto.
Qed.

(** X2: whatever the threshold, every point the downsampler returns is a
    point of its input: it selects, it never computes a point. *)
Theorem downsample_members (data sampled : list Point) (threshold : Z)
    (p : Point) :
  largestTriangleThreeBuckets data threshold = Some sampled ->
  p ∈ sampled ->
  p ∈ data.
Proof. apply lttb_members. Qed.

Lemma downsample_members_witness : pt 3 9 ∈ zigzag.
Proof.
  apply (downsample_members zigzag [pt 0 0; pt 1 5; pt 3 9; pt 6 3] 4 (pt 3 9)).
  - vm_compute. reflexivity.
  - set_solver.
Defined.

(** X3: a threshold below 3 (other than 0) that is smaller than the number
    of points gives the first and the last point and nothing else: two
    points, also for a threshold of 1. *)
Theorem downsample_small_threshold (data : list Point) (threshold : Z)
    (first lastPoint : Point) :
  threshold < 3 -> threshold <> 0 ->
  threshold < Z.of_nat (length data) ->
  head data = Some first -> last data = Some lastPoint ->
  largestTriangleThreeBuckets data threshold = Some [first; lastPoint].
Proof.
  intros Hsmall Hne Hlt Hhd Hla. unfold largestTriangleThreeBuckets.
  destruct (Z.geb_spec threshold (Z.of_nat (length data))) as [Hge | _]; [lia |].
  destruct (Z.eqb_spec threshold 0) as [H0 | _]; [lia |]. simpl orb. cbv iota.
  assert (Hlen : 0 < Z.of_nat (length data)).
  { destruct data; [discriminate | simpl; lia]. }
  destruct (at_index_is_Some data 0) as [f Hf]; [lia |].
  destruct (at_index_is_Some data (Z.of_nat (length data) - 1)) as [l Hl]; [lia |].
  rewrite Hf, Hl.
  apply at_index_head in Hf. apply at_index_last in Hl.
  replace (Z.to_nat (threshold - 2)) with O by lia. simpl.
  congruence.
Qed.

Lemma downsample_small_threshold_witness :
  largestTriangleThreeBuckets zigzag 1 = Some [pt 0 0; pt 6 3].
Proof.
  apply (downsample_small_threshold zigzag 1 (pt 0 0) (pt 6 3));
    [lia | lia | simpl; lia | reflexivity | reflexivity].
Defined.

(** ** The order of the points returned *)

Lemma selIn_widen (data : list Point) (lo lo' hi hi' : Z) (sel : Selection) :
  lo' <= lo -> hi <= hi' -> selIn data lo hi sel -> selIn data lo' hi' sel.
Proof.
  intros Hlo Hhi (p & k & -> & Hk & Hp).
  exists p, k. split; [reflexivity |]. split; [lia | exact Hp].
Qed.

(** A bucket leaves the selection it found, or selects one of its own
    points. *)
Lemma bucketLoop_stale_or_own (data : list Point)
    (pointAX pointAY avgX avgY : num) (n : nat) :
  forall (rangeOffs : Z) (maxArea maxArea' : num) (sel sel' : Selection),
    bucketLoop data pointAX pointAY avgX avgY rangeOffs n maxArea sel
    = Some (maxArea', sel') ->
    sel' = sel \/ selIn data rangeOffs (rangeOffs + Z.of_nat n) sel'.
Proof.
  induction n as [| n IH];
    intros rangeOffs maxArea maxArea' sel sel' Hrun; simpl in Hrun.
  - injection Hrun as _ <-. left. reflexivity.
  - destruct (at_index data rangeOffs) as [q |] eqn:Hq; [| discriminate].
    replace (rangeOffs + Z.of_nat (S n)) with (rangeOffs + 1 + Z.of_nat n) by lia.
    destruct (gt _ maxArea).
    + destruct (IH _ _ _ _ _ Hrun) as [-> | Hown]; right.
      * exists q, rangeOffs. split; [reflexivity |]. split; [lia | exact Hq].
      * eapply selIn_widen; [| | exact Hown]; lia.
    + destruct (IH _ _ _ _ _ Hrun) as [-> | Hown]; [left; reflexivity | right].
      eapply selIn_widen; [| | exact Hown]; lia.
Qed.

Lemma StronglySorted_snoc (positions : list Z) (k : Z) :
  StronglySorted Z.le positions ->
  Forall (fun j => j <= k) positions ->
  StronglySorted Z.le (positions ++ [k]).
Proof.
  intros Hsorted Hle. apply StronglySorted_app_2.
  - intros j k' Hj Hk. apply list_elem_of_singleton in Hk. subst k'.
    rewrite Forall_forall in Hle. apply Hle. exact Hj.
  - exact Hsorted.
  - repeat constructor.
Qed.

Section InputOrder.

Variable data : list Point.
Variable threshold : Z.
Hypothesis Hrange : 3 <= threshold < Z.of_nat (length data).

Lemma bucketStep_order (i a a' : Z) (sel sel' : Selection)
    (sampled sampled' : list Point) (positions : list Z) :
  0 <= i <= threshold - 3 ->
  orderInv data threshold i a sel sampled positions ->
  bucketStep data (Z.of_nat (length data))
    (bucketSize (Z.of_nat (length data)) threshold) i a sel sampled
  = Some (a', sel', sampled') ->
  exists positions',
    orderInv data threshold (i + 1) a' sel' sampled' positions'
    /\ exists added, positions' = positions ++ added.
Proof.
  intros Hi (Hat & Hsorted & Hle & Ha & Hsel) Hstep. unfold bucketStep in Hstep.
  destruct (nextBucketAverage data _ _ i) as [[avgX avgY] |]; [| discriminate].
  destruct (at_index data a) as [pa |] eqn:Hpa; [| discriminate].
  pose proof (edge_step (Z.of_nat (length data) - 2) (threshold - 2) i) as Hst.
  rewrite !(every_edge data threshold) in Hstep.
  set (e0 := (i * (Z.of_nat (length data) - 2)) `div` (threshold - 2)) in *.
  set (e1 := ((i + 1) * (Z.of_nat (length data) - 2)) `div` (threshold - 2)) in *.
  destruct (bucketLoop data (pt_x pa) (pt_y pa) avgX avgY (e0 + 1) _
              (ofZ (-1)) sel) as [[mx s1] |] eqn:Hloop; [| discriminate].
  apply bucketLoop_stale_or_own in Hloop.
  replace (e0 + 1 + Z.of_nat (Z.to_nat (e1 + 1 - (e0 + 1)))) with (e1 + 1)
    in Hloop by lia.
  destruct s1 as [[q k] |]; injection Hstep as <- <- <-.
  - assert (Hk : at_index data k = Some q /\ a <= k <= e1).
    { destruct Hloop as [<- | (p' & k' & [= <- <-] & Hk' & Hp')].
      - destruct (Hsel q k eq_refl) as [-> Hq]. split; [exact Hq | lia].
      - split; [exact Hp' | lia]. }
    destruct Hk as [Hq Hk].
    exists (positions ++ [k]). split; [| eauto].
    split; [apply Forall2_app; [exact Hat | repeat constructor; exact Hq] |].
    split.
    { apply StronglySorted_snoc; [exact Hsorted |].
      eapply Forall_impl; [exact Hle |]. simpl. intros j Hj. lia. }
    split.
    { apply Forall_app. split; [| repeat constructor; lia].
      eapply Forall_impl; [exact Hle |]. simpl. intros j Hj. lia. }
    split; [lia |]. intros p' k' [= <- <-]. auto.
  - exists positions. split; [| exists []; rewrite app_nil_r; reflexivity].
    split; [exact Hat |]. split; [exact Hsorted |]. split; [exact Hle |].
    split; [lia |]. intros p k [=].
Qed.

Lemma mainLoop_order (n : nat) :
  forall (i a : Z) (sel : Selection) (sampled out : list Point)
         (positions : list Z),
    0 <= i -> i + Z.of_nat n <= threshold - 2 ->
    orderInv data threshold i a sel sampled positions ->
    mainLoop data (Z.of_nat (length data))
      (bucketSize (Z.of_nat (length data)) threshold) i n a sel sampled
    = Some out ->
    exists a' sel' positions',
      orderInv data threshold (i + Z.of_nat n) a' sel' out positions'
      /\ exists added, positions' = positions ++ added.
Proof.
  induction n as [| n IH];
    intros i a sel sampled out positions Hi Hn Hinv Hrun; simpl in Hrun.
  - injection Hrun as <-. exists a, sel, positions.
    replace (i + Z.of_nat 0) with i by lia.
    split; [exact Hinv | exists []; rewrite app_nil_r; reflexivity].
  - destruct (bucketStep data _ _ i a sel sampled)
      as [[[a1 sel1] sampled1] |] eqn:Hstep; [| discriminate].
    destruct (bucketStep_order i a a1 sel sel1 sampled sampled1 positions)
      as (positions1 & Hinv1 & added1 & ->); [lia | exact Hinv | exact Hstep |].
    destruct (IH (i + 1) a1 sel1 sampled1 out (positions ++ added1))
      as (a' & sel' & positions' & Hinv' & added & ->);
      [lia | lia | exact Hinv1 | exact Hrun |].
    exists a', sel', (positions ++ added1 ++ added).
    replace (i + Z.of_nat (S n)) with (i + 1 + Z.of_nat n) by lia.
    split; [rewrite app_assoc; exact Hinv' | eauto].
Qed.

Lemma lttb_order :
  exists sampled positions,
    largestTriangleThreeBuckets data threshold = Some sampled
    /\ Forall2 (fun k p => at_index data k = Some p) positions sampled
    /\ StronglySorted Z.le positions
    /\ head positions = Some 0
    /\ last positions = Some (Z.of_nat (length data) - 1).
Proof.
  destruct (lttb_shape data threshold Hrange)
    as (first & lastPoint & ext & Heq & _).
  exists ([first] ++ ext ++ [lastPoint]).
  revert Heq. generalize ([first] ++ ext ++ [lastPoint]). intros sampled.
  unfold largestTriangleThreeBuckets.
  destruct (Z.geb_spec threshold (Z.of_nat (length data))) as [Hge | _]; [lia |].
  destruct (Z.eqb_spec threshold 0) as [H0 | _]; [lia |]. simpl orb. cbv iota.
  destruct (at_index data 0) as [f |] eqn:Hfirst; [| discriminate].
  destruct (mainLoop data _ _ 0 _ 0 None [f]) as [out |] eqn:Hmain;
    [| discriminate].
  destruct (at_index data (Z.of_nat (length data) - 1)) as [l |] eqn:Hlast;
    [| discriminate].
  intros [= <-].
  destruct (mainLoop_order (Z.to_nat (threshold - 2)) 0 0 None [f] out [0])
    as (a' & sel' & positions' & (Hat & Hsorted & Hle & Ha' & _) & added & ->);
    [lia | lia | | exact Hmain |].
  { split; [repeat constructor; exact Hfirst |].
    split; [repeat constructor |]. split; [repeat constructor; lia |].
    split; [rewrite edge_zero; lia | intros p k [=]]. }
  replace (0 + Z.of_nat (Z.to_nat (threshold - 2))) with (threshold - 2)
    in Ha' by lia.
  rewrite edge_top in Ha' by lia.
  exists (([0] ++ added) ++ [Z.of_nat (length data) - 1]).
  split; [reflexivity |].
  split; [apply Forall2_app; [exact Hat | repeat constructor; exact Hlast] |].
  split.
  { apply StronglySorted_snoc; [exact Hsorted |].
    eapply Forall_impl; [exact Hle |]. simpl. intros j Hj. lia. }
  split; [reflexivity | apply last_snoc].
Qed.

End InputOrder.

(** X4: above the threshold, whatever the coordinates, the points returned
    are points of the input in their original order: they sit at positions
    that never decrease, from the first position to the last.  (A position
    comes twice when a bucket has no candidate with a proper area and the
    point of an earlier bucket is pushed again.) *)
Theorem downsample_keeps_order (data : list Point) (threshold : Z) :
  3 <= threshold < Z.of_nat (length data) ->
  exists sampled positions,
    largestTriangleThreeBuckets data threshold = Some sampled
    /\ Forall2 (fun k p => at_index data k = Some p) positions sampled
    /\ StronglySorted Z.le positions
    /\ head positions = Some 0
    /\ last positions = Some (Z.of_nat (length data) - 1).
Proof. exact (lttb_order data threshold). Qed.

Lemma downsample_keeps_order_witness :
  exists sampled positions,
    largestTriangleThreeBuckets wide 4 = Some sampled
    /\ Forall2 (fun k p => at_index wide k = Some p) positions sampled
    /\ StronglySorted Z.le positions
    /\ head positions = Some 0
    /\ last positions = Some (Z.of_nat (length wide) - 1).
Proof.
  apply (downsample_keeps_order wide 4). simpl. lia.
Defined.

(** ** What a batch leaves in the error slot and in the flags *)

Section BatchEffects.

Variable papaParse : string -> ParseResult.
Variable stringToNumber : string -> num.

Lemma columnTrace_flag (fileName xHeader : string)
    (data : list (gmap string Cell)) (initialXData : list Cell)
    (yHeader : string) (trace : PlotlyTrace) (d : bool) :
  columnTrace stringToNumber fileName xHeader data initialXData yHeader
  = Some (trace, d) ->
  d = (Z.of_nat (length initialXData) >? DOWNSAMPLING_THRESHOLD).
Proof.
  unfold columnTrace.
  destruct (Z.of_nat (length initialXData) >? DOWNSAMPLING_THRESHOLD).
  - destruct (largestTriangleThreeBuckets _ _); [| discriminate].
    intros [= _ <-]. reflexivity.
  - intros [= _ <-]. reflexivity.
Qed.

Lemma columnTraces_flag (fileName xHeader : string)
    (data : list (gmap string Cell)) (initialXData : list Cell)
    (yHeaders : list string) :
  forall (traces : list PlotlyTrace) (d : bool),
    columnTraces stringToNumber fileName xHeader data initialXData yHeaders
    = Some (traces, d) ->
    d = match yHeaders with
        | [] => false
        | _ :: _ => Z.of_nat (length initialXData) >? DOWNSAMPLING_THRESHOLD
        end.
Proof.
  induction yHeaders as [| yHeader rest IH]; intros traces d Hrun; simpl in Hrun.
  - injection Hrun as _ <-. reflexivity.
  - destruct (columnTrace stringToNumber fileName xHeader data initialXData yHeader)
      as [[trace d1] |] eqn:Hone; [| discriminate].
    destruct (columnTraces stringToNumber fileName xHeader data initialXData rest)
      as [[traces' d2] |] eqn:Hrest; [| discriminate].
    injection Hrun as _ <-.
    apply columnTrace_flag in Hone. specialize (IH traces' d2 eq_refl).
    subst d1 d2.
    destruct rest; [apply orb_false_r | apply orb_diag].
Qed.

(** What [complete] does to the error slot and to the flags. *)
Lemma complete_effects (fileOrder0 : list string) (file : File)
    (res : ParseResult) (b b' : Batch) :
  complete stringToNumber fileOrder0 file res b = Some b' ->
  batchError b'
  = match res_errors res with
    | msg :: _ =>
        Some ("Parsing error in " +:+ file_name file +:+ ": " +:+ msg)
    | [] => batchError b
    end
  /\ newDownsampledFiles b'
     = if producesSeries res && manyRows res
       then {[file_name file]} ∪ newDownsampledFiles b
       else newDownsampledFiles b.
Proof.
  unfold complete, producesSeries, manyRows.
  destruct (res_errors res) as [| msg errs]; [| intros [= <-]; auto].
  destruct (res_data res) as [| row rows] eqn:Hdata; [intros [= <-]; auto |].
  destruct (res_fields res) as [[| xHeader [| yHeader yHeaders]] |];
    try (intros [= <-]; auto).
  destruct (columnTraces_total stringToNumber (file_name file) xHeader
              (row :: rows) ((fun r => rowGet r xHeader) <$> row :: rows)
              (yHeader :: yHeaders)) as (traces & d & Hcols & Hlen).
  rewrite Hcols.
  apply columnTraces_flag in Hcols. rewrite length_fmap in Hcols.
  destruct traces as [| trace traces]; [simpl in Hlen; lia |].
  intros [= <-]. split; [reflexivity |].
  cbn [newDownsampledFiles andb]. rewrite Hcols. reflexivity.
Qed.

Lemma forEachResult_effects (fileOrder0 : list string) (files : list File) :
  forall (results : list (File * string)) (b b' : Batch),
    readPromise <$> files = Resolves <$> results ->
    forEachResult papaParse stringToNumber fileOrder0 results b = Some b' ->
    batchError b' = lastParseError papaParse files (batchError b)
    /\ newDownsampledFiles b'
       = newDownsampledFiles b
         ∪ list_to_set (file_name <$> List.filter (fileDownsampled papaParse) files).
Proof.
  induction files as [| file files IH]; intros [| [f content] results] b b' Heq Hrun;
    try discriminate.
  - simpl in Hrun. injection Hrun as <-. split; [reflexivity |].
    simpl. rewrite right_id_L; [reflexivity | apply _].
  - rewrite !fmap_cons in Heq. injection Heq as Hhd Htl.
    unfold readPromise in Hhd.
    destruct (file_text file) as [c |] eqn:Htext; [| discriminate].
    injection Hhd as <- <-.
    simpl in Hrun.
    destruct (complete stringToNumber fileOrder0 file (papaParse c) b)
      as [b1 |] eqn:Hc; [| discriminate].
    destruct (complete_effects _ _ _ _ _ Hc) as [Herr Hflag].
    destruct (IH results b1 b' Htl Hrun) as [Herr' Hflag'].
    split.
    + rewrite Herr', Herr. cbn [lastParseError]. rewrite Htext.
      destruct (res_errors (papaParse c)); reflexivity.
    + rewrite Hflag', Hflag. cbn [List.filter]. unfold fileDownsampled at 2.
      rewrite Htext.
      destruct (producesSeries (papaParse c) && manyRows (papaParse c)).
      * rewrite fmap_cons, list_to_set_cons. apply set_eq. intros x.
        rewrite !elem_of_union. tauto.
      * reflexivity.
Qed.

(** When every file of a call is readable and the reads are done, the
    callback has run on all the files, in the order of submission. *)
Lemma settle_readable (st : AppState) (p : Pending) (completion : list nat) :
  (forall i, (i < length (newFiles p))%nat -> i ∈ completion) ->
  Forall (fun file => is_Some (file_text file)) (newFiles p) ->
  exists results b,
    readPromise <$> newFiles p = Resolves <$> results
    /\ forEachResult papaParse stringToNumber (capturedFileOrder p) results
         (mkBatch ∅ [] ∅ ∅ (error st)) = Some b
    /\ newFileNames b = registeredNames papaParse p
    /\ processFiles_settle papaParse stringToNumber st p completion
       = setIsLoading false (mergeBatch b st).
Proof.
  intros Hcover Hread.
  assert (Hall : forallb readable (newFiles p) = true).
  { apply forallb_forall. intros file Hin. rewrite Forall_forall in Hread.
    apply list_elem_of_In in Hin. destruct (Hread file Hin) as [c Hc].
    unfold readable. rewrite Hc. reflexivity. }
  destruct (readable_results _ Hall) as (results & Heq & Hlen).
  destruct (forEachResult_names papaParse stringToNumber (capturedFileOrder p)
              results (mkBatch ∅ [] ∅ ∅ (error st))) as (b & Hrun & Hb).
  exists results, b.
  split; [exact Heq |]. split; [exact Hrun |]. split.
  - rewrite Hb. unfold registeredNames. rewrite Hall. simpl.
    apply (results_of_files papaParse _ _ Heq).
  - unfold processFiles_settle.
    rewrite Heq, promiseAll_fulfils by (intros j Hj; apply Hcover; lia).
    rewrite Hrun. reflexivity.
Qed.

Lemma mergeBatch_error (b : Batch) (st : AppState) :
  error (mergeBatch b st) = batchError b.
Proof. unfold mergeBatch. destruct (newFileNames b); reflexivity. Qed.

Lemma downsampled_produces (file : File) :
  fileDownsampled papaParse file = true ->
  fileProducesSeries papaParse file = true.
Proof.
  unfold fileDownsampled, fileProducesSeries.
  destruct (file_text file); [| discriminate].
  intros H. apply andb_prop in H. tauto.
Qed.

Lemma settle_error (st : AppState) (p : Pending) (completion : list nat) :
  (forall i, (i < length (newFiles p))%nat -> i ∈ completion) ->
  Forall (fun file => is_Some (file_text file)) (newFiles p) ->
  error (processFiles_settle papaParse stringToNumber st p completion)
  = lastParseError papaParse (newFiles p) (error st).
Proof.
  intros Hcover Hread.
  destruct (settle_readable st p completion Hcover Hread)
    as (results & b & Heq & Hrun & _ & ->).
  destruct (forEachResult_effects _ _ _ _ _ Heq Hrun) as [Herr _].
  cbn [error setIsLoading]. rewrite mergeBatch_error. exact Herr.
Qed.

Lemma settle_downsampled (st : AppState) (p : Pending) (completion : list nat) :
  (forall i, (i < length (newFiles p))%nat -> i ∈ completion) ->
  Forall (fun file => is_Some (file_text file)) (newFiles p) ->
  downsampledFiles (processFiles_settle papaParse stringToNumber st p completion)
  = downsampledFiles st
    ∪ list_to_set (file_name <$> List.filter (fileDownsampled papaParse) (newFiles p)).
Proof.
  intros Hcover Hread.
  destruct (settle_readable st p completion Hcover Hread)
    as (results & b & Heq & Hrun & Hnames & ->).
  destruct (forEachResult_effects _ _ _ _ _ Heq Hrun) as [_ Hflag].
  cbn [newDownsampledFiles] in Hflag. rewrite left_id_L in Hflag by apply _.
  unfold mergeBatch.
  destruct (newFileNames b) as [| name0 names] eqn:Hb; simpl.
  - (* no file produces series, so none is flagged *)
    assert (Hnone : List.filter (fileDownsampled papaParse) (newFiles p) = []).
    { unfold registeredNames in Hnames.
      replace (forallb readable (newFiles p)) with true in Hnames.
      - symmetry in Hnames. apply fmap_nil_inv in Hnames.
        revert Hnames. generalize (newFiles p). intros fs.
        induction fs as [| f fs IH]; [reflexivity |].
        cbn [List.filter]. destruct (fileProducesSeries papaParse f) eqn:Hf;
          [discriminate |].
        intros Hfs. destruct (fileDownsampled papaParse f) eqn:Hd.
        + apply downsampled_produces in Hd. congruence.
        + apply IH. exact Hfs.
      - symmetry. apply forallb_forall. intros file Hin.
        rewrite Forall_forall in Hread. apply list_elem_of_In in Hin.
        destruct (Hread file Hin) as [c Hc]. unfold readable. rewrite Hc.
        reflexivity. }
    rewrite Hnone. simpl. rewrite right_id_L; [reflexivity | apply _].
  - rewrite Hflag. reflexivity.
Qed.

End BatchEffects.

(** X5: when every file of a batch is readable and the reads are done, the
    error slot holds the parse error of the last file (in the order of
    submission) that has one, named by file; when no file has a parse
    error the slot is as it was.  A file with fewer than two columns or
    without rows leaves no message. *)
Theorem parse_errors_last_wins (papaParse : string -> ParseResult)
    (stringToNumber : string -> num) (st : AppState) (p : Pending)
    (completion : list nat) :
  (forall i, (i < length (newFiles p))%nat -> i ∈ completion) ->
  Forall (fun file => is_Some (file_text file)) (newFiles p) ->
  error (processFiles_settle papaParse stringToNumber st p completion)
  = lastParseError papaParse (newFiles p) (error st).
Proof. apply settle_error. Qed.

Lemma parse_errors_last_wins_witness :
  error (processFiles_settle demoParse demoNumber initialState
           (mkPending [] [brokenFile; fileA; narrowFile]) [2%nat; 0%nat; 1%nat])
  = lastParseError demoParse [brokenFile; fileA; narrowFile]
      (error initialState).
Proof.
  apply (parse_errors_last_wins demoParse demoNumber initialState
           (mkPending [] [brokenFile; fileA; narrowFile]) [2%nat; 0%nat; 1%nat]).
  - all_completed.
  - repeat constructor; simpl; eauto.
Defined.

Example parse_error_demo :
  let st := processFiles demoParse demoNumber initialState
              [brokenFile; fileA; narrowFile] [2%nat; 0%nat; 1%nat] in
  fileOrder st = ["A.csv"%string]
  /\ error st
     = Some "Parsing error in bad.csv: Quoted field unterminated"%string.
Proof. vm_compute. auto. Qed.

(** X6: when every file of a batch is readable and the reads are done, the
    files flagged as downsampled are, besides those flagged before, the
    files of the batch that produce series and have more than 5000 rows. *)
Theorem downsampled_flags (papaParse : string -> ParseResult)
    (stringToNumber : string -> num) (st : AppState) (p : Pending)
    (completion : list nat) :
  (forall i, (i < length (newFiles p))%nat -> i ∈ completion) ->
  Forall (fun file => is_Some (file_text file)) (newFiles p) ->
  downsampledFiles (processFiles_settle papaParse stringToNumber st p completion)
  = downsampledFiles st
    ∪ list_to_set (file_name <$> List.filter (fileDownsampled papaParse) (newFiles p)).
Proof. apply settle_downsampled. Qed.

Lemma downsampled_flags_witness :
  downsampledFiles (processFiles_settle longParse demoNumber initialState
                      (mkPending [] [fileA; fileB]) [1%nat; 0%nat])
  = downsampledFiles initialState
    ∪ list_to_set (file_name <$> List.filter (fileDownsampled longParse)
                                   [fileA; fileB]).
Proof.
  apply (downsampled_flags longParse demoNumber initialState
           (mkPending [] [fileA; fileB]) [1%nat; 0%nat]).
  - all_completed.
  - repeat constructor; simpl; eauto.
Defined.

Example long_file_demo :
  let st := processFiles longParse demoNumber initialState [fileA] [0%nat] in
  elements (downsampledFiles st) = ["A.csv"%string]
  /\ (fun t => (length (tr_x t), length (tr_y t))) <$> tracesToPlot st
     = [(1000%nat, 1000%nat)].
Proof. vm_compute. auto. Qed.

(** ** The traces stored for a file *)

Section TraceShapes.

Variable stringToNumber : string -> num.

Lemma columnTraces_small (fileName xHeader : string)
    (data : list (gmap string Cell)) (initialXData : list Cell)
    (yHeaders : list string) :
  (Z.of_nat (length initialXData) >? DOWNSAMPLING_THRESHOLD) = false ->
  columnTraces stringToNumber fileName xHeader data initialXData yHeaders
  = Some ((fun yHeader =>
             mkTrace initialXData ((fun row => rowGet row yHeader) <$> data)
               "lines" (yHeader +:+ " (" +:+ fileName +:+ ")") 2 None
               xHeader yHeader) <$> yHeaders,
          false).
Proof.
  intros Hsmall. induction yHeaders as [| yHeader rest IH]; [reflexivity |].
  cbn [columnTraces]. unfold columnTrace at 1. rewrite Hsmall, IH. reflexivity.
Qed.

Lemma columnTraces_lookup (fileName xHeader : string)
    (data : list (gmap string Cell)) (initialXData : list Cell)
    (yHeaders : list string) :
  forall (traces : list PlotlyTrace) (d : bool) (i : nat) (yHeader : string),
    columnTraces stringToNumber fileName xHeader data initialXData yHeaders
    = Some (traces, d) ->
    yHeaders !! i = Some yHeader ->
    exists trace d1,
      traces !! i = Some trace
      /\ columnTrace stringToNumber fileName xHeader data initialXData yHeader
         = Some (trace, d1).
Proof.
  induction yHeaders as [| yh rest IH]; intros traces d i yHeader Hrun Hi;
    [rewrite lookup_nil in Hi; discriminate |].
  cbn [columnTraces] in Hrun.
  destruct (columnTrace stringToNumber fileName xHeader data initialXData yh)
    as [[trace d1] |] eqn:Hone; [| discriminate].
  destruct (columnTraces stringToNumber fileName xHeader data initialXData rest)
    as [[traces' d2] |] eqn:Hrest; [| discriminate].
  injection Hrun as <- _.
  destruct i as [| i]; simpl in Hi.
  - injection Hi as <-. exists trace, d1. auto.
  - destruct (IH traces' d2 i yHeader eq_refl Hi) as (t & d3 & Ht & Hc).
    exists t, d3. auto.
Qed.

(** A column of a long file: the trace holds what the downsampler returns
    on the coerced points. *)
Lemma columnTrace_large (fileName xHeader : string)
    (data : list (gmap string Cell)) (initialXData : list Cell)
    (yHeader : string) (trace : PlotlyTrace) (d : bool) :
  (Z.of_nat (length initialXData) >? DOWNSAMPLING_THRESHOLD) = true ->
  columnTrace stringToNumber fileName xHeader data initialXData yHeader
  = Some (trace, d) ->
  exists sampled,
    largestTriangleThreeBuckets
      (combine stringToNumber initialXData
         ((fun row => rowGet row yHeader) <$> data))
      DOWNSAMPLED_POINT_COUNT = Some sampled
    /\ trace
       = mkTrace ((fun p => CNum (pt_x p)) <$> sampled)
           ((fun p => CNum (pt_y p)) <$> sampled)
           "lines" (yHeader +:+ " (" +:+ fileName +:+ ")") 2 None
           xHeader yHeader.
Proof.
  intros Hlarge. unfold columnTrace. rewrite Hlarge.
  destruct (largestTriangleThreeBuckets _ _) as [sampled |]; [| discriminate].
  intros [= <- _]. exists sampled. auto.
Qed.

Lemma combine_numbers (data : list (gmap string Cell)) (xHeader yHeader : string)
    (headers : list string) :
  numericRows stringToNumber data headers ->
  xHeader ∈ headers -> yHeader ∈ headers ->
  Forall numberPoint
    (combine stringToNumber ((fun row => rowGet row xHeader) <$> data)
       ((fun row => rowGet row yHeader) <$> data)).
Proof.
  intros Hnum Hx Hy. apply Forall_lookup. intros i p Hp.
  unfold combine in Hp. rewrite list_lookup_imap, !list_lookup_fmap in Hp.
  destruct (data !! i) as [row |] eqn:Hrow; simpl in Hp; [| discriminate].
  injection Hp as <-.
  assert (Hin : row ∈ data) by (apply list_elem_of_lookup; eauto).
  split; simpl; apply Hnum; assumption.
Qed.

End TraceShapes.

(** X7: a file that produces series and has at most 5000 rows is stored
    with one trace per column after the first, in the order of the
    header; each trace holds the cells of the first column as [x] and
    those of its own column as [y], as parsed (no coercion, no row
    dropped), and is named [<column> (<file>)]. *)
Theorem small_file_traces (stringToNumber : string -> num)
    (fileOrder0 : list string) (file : File) (res : ParseResult) (b : Batch)
    (xHeader : string) (yHeaders : list string) :
  producesSeries res = true ->
  manyRows res = false ->
  res_fields res = Some (xHeader :: yHeaders) ->
  exists b',
    complete stringToNumber fileOrder0 file res b = Some b'
    /\ newParsedData b' !! file_name file
       = Some ((fun yHeader =>
                  mkTrace ((fun row => rowGet row xHeader) <$> res_data res)
                    ((fun row => rowGet row yHeader) <$> res_data res)
                    "lines" (yHeader +:+ " (" +:+ file_name file +:+ ")") 2 None
                    xHeader yHeader) <$> yHeaders)
    /\ newDownsampledFiles b' = newDownsampledFiles b.
Proof.
  intros Hprod Hsmall Hfields.
  destruct (complete_spec stringToNumber fileOrder0 file res b)
    as (b' & Hrun & Hspec).
  exists b'. split; [exact Hrun |].
  destruct (complete_effects stringToNumber _ _ _ _ _ Hrun) as [_ Hflag].
  rewrite Hprod, Hsmall in Hflag. cbn [andb] in Hflag.
  split.
  - revert Hrun. unfold complete. unfold producesSeries in Hprod.
    unfold manyRows in Hsmall.
    destruct (res_errors res); [| discriminate].
    destruct (res_data res) as [| row rows] eqn:Hdata; [discriminate |].
    rewrite Hfields in Hprod |- *.
    destruct yHeaders as [| yHeader rest]; [simpl in Hprod; discriminate |].
    rewrite columnTraces_small by (rewrite length_fmap; exact Hsmall).
    cbn [fmap list_fmap]. intros [= <-]. cbn [newParsedData].
    apply lookup_insert_eq.
  - exact Hflag.
Qed.

Lemma small_file_traces_witness :
  exists b',
    complete demoNumber [] fileA (demoParse "t,a") (mkBatch ∅ [] ∅ ∅ None)
    = Some b'
    /\ newParsedData b' !! file_name fileA
       = Some ((fun yHeader =>
                  mkTrace ((fun row => rowGet row "t")
                             <$> res_data (demoParse "t,a"))
                    ((fun row => rowGet row yHeader)
                       <$> res_data (demoParse "t,a"))
                    "lines" (yHeader +:+ " (" +:+ file_name fileA +:+ ")") 2 None
                    "t" yHeader) <$> ["a"%string])
    /\ newDownsampledFiles b' = newDownsampledFiles (mkBatch ∅ [] ∅ ∅ None).
Proof.
  apply (small_file_traces demoNumber [] fileA (demoParse "t,a")
           (mkBatch ∅ [] ∅ ∅ None) "t" ["a"%string]);
    vm_compute; reflexivity.
Defined.

Section LongFiles.

Variable stringToNumber : string -> num.

(** The trace of one column of a long file. *)
Lemma long_column (fileName xHeader yHeader : string)
    (data : list (gmap string Cell)) (trace : PlotlyTrace) (d : bool) :
  (Z.of_nat (length data) >? DOWNSAMPLING_THRESHOLD) = true ->
  columnTrace stringToNumber fileName xHeader data
    ((fun row => rowGet row xHeader) <$> data) yHeader = Some (trace, d) ->
  tr_name trace = yHeader +:+ " (" +:+ fileName +:+ ")"
  /\ tr_headers_x trace = xHeader
  /\ tr_headers_y trace = yHeader
  /\ (2 <= length (tr_x trace) <= 1000)%nat
  /\ length (tr_y trace) = length (tr_x trace)
  /\ (forall c, c ∈ tr_x trace ++ tr_y trace -> exists n, c = CNum n)
  /\ (forall headers,
        numericRows stringToNumber data headers ->
        xHeader ∈ headers -> yHeader ∈ headers ->
        properFirstBucket stringToNumber data xHeader yHeader ->
        length (tr_x trace) = 1000%nat
        /\ forall c, c ∈ tr_x trace ++ tr_y trace ->
                     exists n, c = CNum n /\ isNaN n = false).
Proof.
  intros Hlarge Hcol.
  destruct (columnTrace_large stringToNumber fileName xHeader data
              ((fun row => rowGet row xHeader) <$> data) yHeader
              trace d) as (sampled & Hrun & ->);
    [rewrite length_fmap; exact Hlarge | exact Hcol |].
  assert (Hrange : 3 <= DOWNSAMPLED_POINT_COUNT
                   < Z.of_nat (length (combine stringToNumber
                                         ((fun row => rowGet row xHeader) <$> data)
                                         ((fun row => rowGet row yHeader) <$> data)))).
  { rewrite combine_length, length_fmap.
    apply Z.gtb_lt in Hlarge. unfold DOWNSAMPLING_THRESHOLD in Hlarge.
    unfold DOWNSAMPLED_POINT_COUNT. lia. }
  cbn [tr_name tr_headers_x tr_headers_y tr_x tr_y].
  do 3 (split; [reflexivity |]).
  destruct (lttb_shape _ _ Hrange) as (first & lastPoint & ext & Heq & _ & _ & Hlen).
  assert (Hsize : length sampled = (2 + length ext)%nat).
  { rewrite Hrun in Heq. injection Heq as ->. simpl. rewrite length_app.
    simpl. lia. }
  unfold DOWNSAMPLED_POINT_COUNT in Hlen.
  split; [rewrite length_fmap; lia |].
  split; [rewrite !length_fmap; reflexivity |].
  split.
  - intros c Hc. apply elem_of_app in Hc.
    destruct Hc as [Hc | Hc]; apply list_elem_of_fmap in Hc;
      destruct Hc as (pnt & -> & _); eauto.
  - intros headers Hnum Hx Hy (k & area & Hk & Harea).
    pose proof (combine_numbers stringToNumber data xHeader yHeader headers
                  Hnum Hx Hy) as Hfin.
    destruct (lttb_full _ _ k area Hrange Hk Harea)
      as (first' & lastPoint' & ext' & Hrun' & _ & _ & Hlen').
    rewrite Hrun in Hrun'. injection Hrun' as Hs.
    unfold DOWNSAMPLED_POINT_COUNT in Hlen'.
    assert (Hthousand : length sampled = 1000%nat).
    { rewrite Hs. cbn [app length]. rewrite length_app. cbn [length]. lia. }
    split; [rewrite length_fmap; exact Hthousand |].
    intros c Hc.
    assert (Hpt : exists pnt,
               pnt ∈ sampled
               /\ (c = CNum (pt_x pnt) \/ c = CNum (pt_y pnt))).
    { apply elem_of_app in Hc.
      destruct Hc as [Hc | Hc]; apply list_elem_of_fmap in Hc;
        destruct Hc as (pnt & -> & Hin); eauto. }
    destruct Hpt as (pnt & Hin & Hc').
    apply (lttb_members _ _ _ _ Hrun) in Hin.
    rewrite Forall_forall in Hfin. destruct (Hfin pnt Hin) as [Hpx Hpy].
    destruct Hc' as [-> | ->]; eauto.
Qed.

(** What [complete] stores for a long file. *)
Lemma long_file_stored (fileOrder0 : list string) (file : File)
    (res : ParseResult) (b : Batch) (xHeader : string) (yHeaders : list string) :
  producesSeries res = true ->
  manyRows res = true ->
  res_fields res = Some (xHeader :: yHeaders) ->
  exists b' traces,
    complete stringToNumber fileOrder0 file res b = Some b'
    /\ newParsedData b' !! file_name file = Some traces
    /\ length traces = length yHeaders
    /\ file_name file ∈ newDownsampledFiles b'
    /\ forall i yHeader trace,
         yHeaders !! i = Some yHeader -> traces !! i = Some trace ->
         columnTrace stringToNumber (file_name file) xHeader (res_data res)
           ((fun row => rowGet row xHeader) <$> res_data res) yHeader
         = Some (trace, true).
Proof.
  intros Hprod Hlarge Hfields.
  destruct (complete_spec stringToNumber fileOrder0 file res b)
    as (b' & Hrun & _).
  destruct (complete_effects stringToNumber _ _ _ _ _ Hrun) as [_ Hflag].
  rewrite Hprod, Hlarge in Hflag. cbn [andb] in Hflag.
  exists b'. revert Hrun. unfold complete. unfold producesSeries in Hprod.
  destruct (res_errors res); [| discriminate].
  destruct (res_data res) as [| row rows] eqn:Hdata; [discriminate |].
  rewrite Hfields in Hprod |- *.
  destruct yHeaders as [| yHeader rest]; [simpl in Hprod; discriminate |].
  destruct (columnTraces_total stringToNumber (file_name file) xHeader
              (row :: rows) ((fun r => rowGet r xHeader) <$> row :: rows)
              (yHeader :: rest)) as (traces & d & Hcols & Hlen).
  rewrite Hcols.
  destruct traces as [| trace traces]; [simpl in Hlen; lia |].
  intros [= <-]. exists (trace :: traces).
  split; [reflexivity |].
  split; [cbn [newParsedData]; apply lookup_insert_eq |].
  split; [exact Hlen |].
  split; [rewrite Hflag; apply elem_of_union_l, elem_of_singleton; reflexivity |].
  intros i yh t Hi Ht.
  destruct (columnTraces_lookup stringToNumber _ _ _ _ _ _ _ i yh Hcols Hi)
    as (t' & d1 & Ht' & Hc).
  rewrite Ht in Ht'. injection Ht' as <-.
  pose proof (columnTrace_flag stringToNumber _ _ _ _ _ _ _ Hc) as Hd1.
  rewrite length_fmap in Hd1. unfold manyRows in Hlarge. rewrite Hdata in Hlarge.
  rewrite Hlarge in Hd1. subst d1. exact Hc.
Qed.

End LongFiles.

(** X8: a file that produces series and has more than 5000 rows is flagged
    as downsampled and stored with one trace per column after the first;
    each trace is named [<column> (<file>)], holds between 2 and 1000
    points, as many [y] as [x] values, and only numbers (a cell that is
    not numeric has become [NaN]). *)
Theorem long_file_traces (stringToNumber : string -> num)
    (fileOrder0 : list string) (file : File) (res : ParseResult) (b : Batch)
    (xHeader : string) (yHeaders : list string) :
  producesSeries res = true ->
  manyRows res = true ->
  res_fields res = Some (xHeader :: yHeaders) ->
  exists b' traces,
    complete stringToNumber fileOrder0 file res b = Some b'
    /\ newParsedData b' !! file_name file = Some traces
    /\ length traces = length yHeaders
    /\ file_name file ∈ newDownsampledFiles b'
    /\ forall i yHeader trace,
         yHeaders !! i = Some yHeader -> traces !! i = Some trace ->
         tr_name trace = yHeader +:+ " (" +:+ file_name file +:+ ")"
         /\ tr_headers_x trace = xHeader
         /\ tr_headers_y trace = yHeader
         /\ (2 <= length (tr_x trace) <= 1000)%nat
         /\ length (tr_y trace) = length (tr_x trace)
         /\ (forall c, c ∈ tr_x trace ++ tr_y trace -> exists n, c = CNum n).
Proof.
  intros Hprod Hlarge Hfields.
  destruct (long_file_stored stringToNumber fileOrder0 file res b xHeader
              yHeaders Hprod Hlarge Hfields)
    as (b' & traces & Hrun & Hstored & Hlen & Hflag & Hcols).
  exists b', traces. do 4 (split; [assumption |]).
  intros i yHeader trace Hi Ht.
  destruct (long_column stringToNumber (file_name file) xHeader yHeader
              (res_data res) trace true Hlarge (Hcols i yHeader trace Hi Ht))
    as (H1 & H2 & H3 & H4 & H5 & H6 & _).
  auto 10.
Qed.

Lemma long_file_traces_witness :
  exists b' traces,
    complete demoNumber [] fileA (longParse "t,a") (mkBatch ∅ [] ∅ ∅ None)
    = Some b'
    /\ newParsedData b' !! file_name fileA = Some traces
    /\ length traces = length ["a"%string]
    /\ file_name fileA ∈ newDownsampledFiles b'
    /\ forall i yHeader trace,
         ["a"%string] !! i = Some yHeader -> traces !! i = Some trace ->
         tr_name trace = yHeader +:+ " (" +:+ file_name fileA +:+ ")"
         /\ tr_headers_x trace = "t"%string
         /\ tr_headers_y trace = yHeader
         /\ (2 <= length (tr_x trace) <= 1000)%nat
         /\ length (tr_y trace) = length (tr_x trace)
         /\ (forall c, c ∈ tr_x trace ++ tr_y trace -> exists n, c = CNum n).
Proof.
  apply (long_file_traces demoNumber [] fileA (longParse "t,a")
           (mkBatch ∅ [] ∅ ∅ None) "t" ["a"%string]);
    vm_compute; reflexivity.
Defined.




(** ** What every reachable state satisfies *)

Section Tidy.

Variable papaParse : string -> ParseResult.
Variable stringToNumber : string -> num.

Lemma elem_of_snoc_name (names : list string) (name other : string) :
  other ∈ names ++ [name] <-> other ∈ names \/ other = name.
Proof. rewrite elem_of_app, list_elem_of_singleton. tauto. Qed.

Lemma complete_tidy (fileOrder0 : list string) (file : File) (res : ParseResult)
    (b b' : Batch) :
  complete stringToNumber fileOrder0 file res b = Some b' ->
  batchTidy b -> batchTidy b'.
Proof.
  intros Hrun (Hdom & Hflags & Hstyled & Hpalette).
  destruct (complete_spec stringToNumber fileOrder0 file res b)
    as (b1 & Hb1 & Hspec).
  rewrite Hrun in Hb1. injection Hb1 as <-.
  destruct (complete_effects stringToNumber _ _ _ _ _ Hrun) as [_ Hflag].
  destruct (producesSeries res).
  - destruct Hspec as (Hn & (fileTraces & _ & Hp) & (style & Hstyle & Hs) & _).
    repeat split.
    + intros name. rewrite Hn, Hp, elem_of_snoc_name.
      destruct (decide (name = file_name file)) as [-> | Hne]; [auto |].
      rewrite lookup_insert_ne by congruence. auto.
    + intros name. rewrite Hn, Hflag, elem_of_snoc_name.
      destruct (manyRows res); cbn [andb]; [| auto].
      rewrite elem_of_union, elem_of_singleton. intros [-> | Hin]; auto.
    + intros name. rewrite Hn, Hs, elem_of_snoc_name.
      destruct (decide (name = file_name file)) as [-> | Hne].
      * rewrite lookup_insert_eq. eauto.
      * rewrite lookup_insert_ne by congruence. intros [Hin | ->]; [auto | congruence].
    + intros name st0. rewrite Hs.
      destruct (decide (name = file_name file)) as [-> | Hne].
      * rewrite lookup_insert_eq. intros [= <-].
        apply list_elem_of_lookup. eauto.
      * rewrite lookup_insert_ne by congruence. apply Hpalette.
  - destruct Hspec as (Hn & Hp & Hs & _). cbn [andb] in Hflag.
    repeat split.
    + intros name. rewrite Hn, Hp. apply Hdom.
    + intros name. rewrite Hn, Hflag. apply Hflags.
    + intros name. rewrite Hn, Hs. apply Hstyled.
    + intros name st0. rewrite Hs. apply Hpalette.
Qed.

Lemma forEachResult_tidy (fileOrder0 : list string)
    (results : list (File * string)) :
  forall b b' : Batch,
    forEachResult papaParse stringToNumber fileOrder0 results b = Some b' ->
    batchTidy b -> batchTidy b'.
Proof.
  induction results as [| [file content] rest IH]; intros b b' Hrun Hok;
    simpl in Hrun.
  - injection Hrun as <-. exact Hok.
  - destruct (complete stringToNumber fileOrder0 file (papaParse content) b)
      as [b1 |] eqn:Hc; [| discriminate].
    eapply IH; [exact Hrun |]. eapply complete_tidy; eauto.
Qed.

Lemma mergeBatch_tidy (b : Batch) (st : AppState) :
  batchTidy b -> stateTidy st -> stateTidy (mergeBatch b st).
Proof.
  intros (Hdom & Hflags & Hstyled & Hpalette) (Sdom & Sflags & Sstyled & Spalette).
  unfold mergeBatch.
  destruct (newFileNames b) as [| name0 names] eqn:Hb;
    [repeat split; assumption |].
  repeat split; cbn [parsedFileData fileOrder downsampledFiles fileStyles].
  - intros name [ts Hts]. apply elem_of_app.
    apply lookup_union_Some_raw in Hts. destruct Hts as [Hts | [_ Hts]]; eauto.
  - intros name Hin. apply elem_of_app. apply elem_of_union in Hin.
    destruct Hin as [Hin | Hin]; auto.
  - intros name Hin. apply elem_of_app in Hin.
    destruct (newStyles b !! name) as [style |] eqn:Hnew.
    + exists style. apply lookup_union_Some_l. exact Hnew.
    + rewrite lookup_union_r by exact Hnew.
      destruct Hin as [Hin | Hin]; [auto |].
      destruct (Hstyled name Hin) as [style Hstyle]. congruence.
  - intros name style Hl. apply lookup_union_Some_raw in Hl.
    destruct Hl as [Hl | [_ Hl]]; eauto.
Qed.

Lemma emptyBatch_tidy (e : option string) : batchTidy (mkBatch ∅ [] ∅ ∅ e).
Proof.
  repeat split; cbn.
  - intros name [ts Hts]. rewrite lookup_empty in Hts. discriminate.
  - intros name Hin. apply not_elem_of_empty in Hin. destruct Hin.
  - intros name Hin. apply elem_of_nil in Hin. destruct Hin.
  - intros name style Hl. rewrite lookup_empty in Hl. discriminate.
Qed.

Lemma settle_tidy (st : AppState) (p : Pending) (completion : list nat) :
  stateTidy st ->
  stateTidy (processFiles_settle papaParse stringToNumber st p completion).
Proof.
  intros Hok. unfold processFiles_settle.
  destruct (promiseAll (readPromise <$> newFiles p) completion)
    as [slots | results | msg]; [exact Hok | | exact Hok].
  destruct (forEachResult papaParse stringToNumber (capturedFileOrder p) results
              (mkBatch ∅ [] ∅ ∅ (error st))) as [b |] eqn:Hrun; [| exact Hok].
  apply forEachResult_tidy in Hrun; [| apply emptyBatch_tidy].
  exact (mergeBatch_tidy b st Hrun Hok).
Qed.

Lemma emptyState_tidy (loading : bool) :
  stateTidy (mkApp ∅ [] ∅ "" "" None ∅ ∅ loading).
Proof.
  repeat split; cbn.
  - intros name [ts Hts]. rewrite lookup_empty in Hts. discriminate.
  - intros name Hin. apply not_elem_of_empty in Hin. destruct Hin.
  - intros name Hin. apply elem_of_nil in Hin. destruct Hin.
  - intros name style Hl. rewrite lookup_empty in Hl. discriminate.
Qed.

Lemma fire_tidy (w w' : World) (e : Event) :
  fire papaParse stringToNumber w e = Some w' ->
  stateTidy (app w) -> stateTidy (app w').
Proof.
  intros Hfire Hok.
  destruct e as [files | k completion | | name | name style | t | t];
    simpl in Hfire.
  - unfold processFiles_call in Hfire.
    destruct files as [| file files]; [injection Hfire as <-; exact Hok |].
    destruct (filter _ (file :: files)); injection Hfire as <-; exact Hok.
  - destruct (inflight w !! k) as [p |]; [| discriminate].
    pose proof (settle_tidy (app w) p completion Hok) as Hs.
    destruct (promiseAll (readPromise <$> newFiles p) completion);
      [discriminate | |]; injection Hfire as <-; exact Hs.
  - destruct (decide (parsedFileData (app w) = ∅)); [discriminate |].
    injection Hfire as <-. apply emptyState_tidy.
  - destruct (decide (name ∈ fileOrder (app w))); [| discriminate].
    injection Hfire as <-. exact Hok.
  - destruct (decide (name ∈ fileOrder (app w) ∧ style ∈ LINE_STYLES))
      as [[Hreg Hpal] |]; [| discriminate].
    injection Hfire as <-.
    destruct Hok as (Sdom & Sflags & Sstyled & Spalette).
    repeat split; cbn [app handleStyleChange setFileStyles parsedFileData
                         fileOrder downsampledFiles fileStyles];
      try assumption.
    + intros other Hin.
      destruct (decide (other = name)) as [-> | Hne].
      * rewrite lookup_insert_eq. eauto.
      * rewrite lookup_insert_ne by congruence. auto.
    + intros other st0.
      destruct (decide (other = name)) as [-> | Hne].
      * rewrite lookup_insert_eq. intros [= <-]. exact Hpal.
      * rewrite lookup_insert_ne by congruence. apply Spalette.
  - destruct (tracesToPlot (app w)); [discriminate |].
    injection Hfire as <-. exact Hok.
  - destruct (tracesToPlot (app w)); [discriminate |].
    injection Hfire as <-. exact Hok.
Qed.

Lemma reachable_tidy (w : World) :
  reachable papaParse stringToNumber w -> stateTidy (app w).
Proof.
  intros [events Hrun].
  pose proof (emptyState_tidy false) as Hinit.
  change (mkApp ∅ [] ∅ "" "" None ∅ ∅ false) with (app initialWorld) in Hinit.
  revert Hrun Hinit. generalize initialWorld.
  induction events as [| e rest IH]; intros w0 Hrun Hok; simpl in Hrun.
  - injection Hrun as <-. exact Hok.
  - destruct (fire papaParse stringToNumber w0 e) as [w1 |] eqn:Hfire;
      [| discriminate].
    eapply IH; [exact Hrun |]. eapply fire_tidy; eauto.
Qed.

End Tidy.

(** The world after two files were loaded, the second deselected and the
    first restyled. *)
Lemma demo_world_reachable :
  exists w,
    run demoParse demoNumber initialWorld
      [Submit [fileA; fileB]; Settle 0 [1%nat; 0%nat]; Toggle "B.csv";
       SetStyle "A.csv" "dot"] = Some w
    /\ reachable demoParse demoNumber w.
Proof.
  eexists. split; [vm_compute; reflexivity |].
  exists [Submit [fileA; fileB]; Settle 0 [1%nat; 0%nat]; Toggle "B.csv";
          SetStyle "A.csv" "dot"].
  vm_compute. reflexivity.
Qed.

(** X10: in every reachable state the names in [fileOrder] are exactly the
    keys of [parsedFileData], and every registered file has at least one
    trace; so the file list, the clear button and the upload label (which
    look at the keys) agree with the list that is shown. *)
Theorem registry_consistent (papaParse : string -> ParseResult)
    (stringToNumber : string -> num) (w : World) :
  reachable papaParse stringToNumber w ->
  (forall name,
      name ∈ fileOrder (app w) <-> is_Some (parsedFileData (app w) !! name))
  /\ (forall name fileTraces,
        parsedFileData (app w) !! name = Some fileTraces -> fileTraces <> [])
  /\ (parsedFileData (app w) = ∅ <-> fileOrder (app w) = []).
Proof.
  intros Hreach.
  destruct (reachable_ok papaParse stringToNumber w Hreach) as [Hreg Hne].
  destruct (reachable_tidy papaParse stringToNumber w Hreach) as (Hdom & _).
  split; [intros name; split; auto |]. split; [exact Hne |].
  split.
  - intros Hempty. destruct (fileOrder (app w)) as [| name names] eqn:Hord;
      [reflexivity |].
    destruct (Hreg name) as [ts Hts]; [apply list_elem_of_here |].
    rewrite Hempty, lookup_empty in Hts. discriminate.
  - intros Hnil. apply map_empty. intros name.
    destruct (parsedFileData (app w) !! name) as [ts |] eqn:Hts; [| reflexivity].
    assert (Hin : name ∈ fileOrder (app w)) by (apply Hdom; eauto).
    rewrite Hnil in Hin. apply elem_of_nil in Hin. destruct Hin.
Qed.

Lemma registry_consistent_witness :
  exists w,
    run demoParse demoNumber initialWorld
      [Submit [fileA; fileB]; Settle 0 [1%nat; 0%nat]; Toggle "B.csv";
       SetStyle "A.csv" "dot"] = Some w
    /\ (forall name,
          name ∈ fileOrder (app w) <-> is_Some (parsedFileData (app w) !! name))
    /\ (forall name fileTraces,
          parsedFileData (app w) !! name = Some fileTraces -> fileTraces <> [])
    /\ (parsedFileData (app w) = ∅ <-> fileOrder (app w) = []).
Proof.
  destruct demo_world_reachable as (w & Hrun & Hreach).
  exists w. split; [exact Hrun |].
  exact (registry_consistent demoParse demoNumber w Hreach).
Defined.

(** X11: in every reachable state only registered files are selected and
    only registered files are flagged as downsampled. *)
Theorem selection_and_flags_registered (papaParse : string -> ParseResult)
    (stringToNumber : string -> num) (w : World) :
  reachable papaParse stringToNumber w ->
  (forall name, name ∈ selectedFiles (app w) -> name ∈ fileOrder (app w))
  /\ (forall name, name ∈ downsampledFiles (app w) -> name ∈ fileOrder (app w)).
Proof.
  intros Hreach. split.
  - exact (reachable_selection papaParse stringToNumber w Hreach).
  - destruct (reachable_tidy papaParse stringToNumber w Hreach) as (_ & H & _).
    exact H.
Qed.

Lemma selection_and_flags_registered_witness :
  exists w,
    run demoParse demoNumber initialWorld
      [Submit [fileA; fileB]; Settle 0 [1%nat; 0%nat]; Toggle "B.csv";
       SetStyle "A.csv" "dot"] = Some w
    /\ (forall name, name ∈ selectedFiles (app w) -> name ∈ fileOrder (app w))
    /\ (forall name, name ∈ downsampledFiles (app w) -> name ∈ fileOrder (app w)).
Proof.
  destruct demo_world_reachable as (w & Hrun & Hreach).
  exists w. split; [exact Hrun |].
  exact (selection_and_flags_registered demoParse demoNumber w Hreach).
Defined.

Lemma elem_of_concat {A : Type} (x : A) (ls : list (list A)) :
  x ∈ concat ls <-> exists l, x ∈ l /\ l ∈ ls.
Proof.
  induction ls as [| l ls IH]; simpl.
  - split; [intros H; apply elem_of_nil in H; destruct H |].
    intros (l & _ & H). apply elem_of_nil in H. destruct H.
  - rewrite elem_of_app, IH. split.
    + intros [H | (l' & H & Hin)].
      * exists l. split; [exact H | apply list_elem_of_here].
      * exists l'. split; [exact H | apply list_elem_of_further; exact Hin].
    + intros (l' & H & Hin). apply elem_of_cons in Hin.
      destruct Hin as [-> | Hin]; [left; exact H | right; eauto].
Qed.

Lemma palette_not_empty (style : string) :
  style ∈ LINE_STYLES -> orElse style "solid" = style.
Proof.
  intros Hin. unfold orElse.
  destruct (decide (style = ""%string)) as [-> | _]; [| reflexivity].
  unfold LINE_STYLES in Hin.
  repeat (apply elem_of_cons in Hin; destruct Hin as [Hin | Hin];
          [discriminate |]).
  apply elem_of_nil in Hin. destruct Hin.
Qed.

(** X12: in every reachable state every registered file has a style, that
    style is one of the six palette entries, and every trace handed to the
    plot carries the palette entry of its file as dash. *)
Theorem styles_from_palette (papaParse : string -> ParseResult)
    (stringToNumber : string -> num) (w : World) :
  reachable papaParse stringToNumber w ->
  (forall name,
      name ∈ fileOrder (app w) ->
      exists style,
        fileStyles (app w) !! name = Some style
        /\ style ∈ LINE_STYLES
        /\ styleOf (app w) name = style)
  /\ (forall trace,
        trace ∈ tracesToPlot (app w) ->
        exists style, tr_line_dash trace = Some style /\ style ∈ LINE_STYLES).
Proof.
  intros Hreach.
  destruct (reachable_tidy papaParse stringToNumber w Hreach)
    as (_ & _ & Hstyled & Hpalette).
  assert (Hfile : forall name,
             name ∈ fileOrder (app w) ->
             exists style,
               fileStyles (app w) !! name = Some style
               /\ style ∈ LINE_STYLES
               /\ styleOf (app w) name = style).
  { intros name Hin. destruct (Hstyled name Hin) as [style Hstyle].
    exists style. split; [exact Hstyle |].
    pose proof (Hpalette name style Hstyle) as Hpal. split; [exact Hpal |].
    unfold styleOf. rewrite Hstyle. apply palette_not_empty. exact Hpal. }
  split; [exact Hfile |].
  intros trace Hin. unfold tracesToPlot in Hin.
  apply elem_of_concat in Hin. destruct Hin as (traces & Htrace & Htraces).
  apply list_elem_of_fmap in Htraces. destruct Htraces as (name & -> & Hname).
  unfold fileTracesToPlot in Htrace.
  destruct (decide (name ∈ selectedFiles (app w)));
    [| apply elem_of_nil in Htrace; destruct Htrace].
  destruct (parsedFileData (app w) !! name);
    [| apply elem_of_nil in Htrace; destruct Htrace].
  apply list_elem_of_fmap in Htrace. destruct Htrace as (t0 & -> & _).
  destruct (Hfile name Hname) as (style & _ & Hpal & Hof).
  exists style. cbn. rewrite Hof. auto.
Qed.

Lemma styles_from_palette_witness :
  exists w,
    run demoParse demoNumber initialWorld
      [Submit [fileA; fileB]; Settle 0 [1%nat; 0%nat]; Toggle "B.csv";
       SetStyle "A.csv" "dot"] = Some w
    /\ (forall name,
          name ∈ fileOrder (app w) ->
          exists style,
            fileStyles (app w) !! name = Some style
            /\ style ∈ LINE_STYLES
            /\ styleOf (app w) name = style)
    /\ (forall trace,
          trace ∈ tracesToPlot (app w) ->
          exists style, tr_line_dash trace = Some style /\ style ∈ LINE_STYLES).
Proof.
  destruct demo_world_reachable as (w & Hrun & Hreach).
  exists w. split; [exact Hrun |].
  exact (styles_from_palette demoParse demoNumber w Hreach).
Defined.

(** ** Calls that do not overlap *)

(** X13: a call that submits only names that are already registered reads
    no file and changes nothing but the error slot, which it clears, and
    the loading flag, which it leaves off. *)
Theorem resubmitting_registered_names (papaParse : string -> ParseResult)
    (stringToNumber : string -> num) (st : AppState) (files : list File)
    (completion : list nat) :
  files <> [] ->
  (forall file, file ∈ files -> is_Some (parsedFileData st !! file_name file)) ->
  processFiles_call st files = (setIsLoading false (setError None st), None)
  /\ processFiles papaParse stringToNumber st files completion
     = setIsLoading false (setError None st).
Proof.
  intros Hne Hall.
  pose proof (resubmit_noop papaParse stringToNumber st files completion Hne Hall)
    as Hnoop.
  split; [| exact Hnoop].
  unfold processFiles_call.
  destruct files as [| file files]; [contradiction |].
  destruct (filter _ (file :: files)) as [| f fresh] eqn:Hfilter; [reflexivity |].
  assert (Hin : f ∈ filter (fun g => parsedFileData st !! file_name g = None)
                     (file :: files))
    by (rewrite Hfilter; apply list_elem_of_here).
  apply list_elem_of_filter in Hin. destruct Hin as [Hnone Hin].
  destruct (Hall f Hin) as [ts Hts]. congruence.
Qed.

Lemma resubmitting_registered_names_witness :
  let st := handleStyleChange "A.csv" "dot"
              (mkApp {[ "A.csv"%string := [] ]} ["A.csv"%string] ∅ "" ""
                 (Some "old"%string) ∅ ∅ false) in
  processFiles_call st [otherA] = (setIsLoading false (setError None st), None)
  /\ processFiles demoParse demoNumber st [otherA] [0%nat]
     = setIsLoading false (setError None st).
Proof.
  apply (resubmitting_registered_names demoParse demoNumber
           (handleStyleChange "A.csv" "dot"
              (mkApp {[ "A.csv"%string := [] ]} ["A.csv"%string] ∅ "" ""
                 (Some "old"%string) ∅ ∅ false)) [otherA] [0%nat]).
  - discriminate.
  - intros file Hin. apply list_elem_of_singleton in Hin. subst file.
    vm_compute. eauto.
Defined.

(** X14: from a reachable state whose names are distinct, a call that is
    settled before anything else happens and whose files carry distinct
    names leaves the names in [fileOrder] distinct. *)
Theorem sequential_calls_keep_names_unique (papaParse : string -> ParseResult)
    (stringToNumber : string -> num) (w : World) (files : list File)
    (completion : list nat) :
  reachable papaParse stringToNumber w ->
  NoDup (fileOrder (app w)) ->
  NoDup (file_name <$> files) ->
  NoDup (fileOrder (processFiles papaParse stringToNumber (app w) files
                      completion)).
Proof.
  intros Hreach Hnd Hfiles.
  apply processFiles_unique; [| exact Hnd | exact Hfiles].
  exact (reachable_ok papaParse stringToNumber w Hreach).
Qed.

Lemma sequential_calls_keep_names_unique_witness :
  NoDup (fileOrder (processFiles demoParse demoNumber (app initialWorld)
                      [fileA; fileB; brokenFile] [2%nat; 0%nat; 1%nat])).
Proof.
  apply (sequential_calls_keep_names_unique demoParse demoNumber initialWorld
           [fileA; fileB; brokenFile] [2%nat; 0%nat; 1%nat]).
  - exists []. reflexivity.
  - apply NoDup_nil_2.
  - apply (bool_decide_unpack _). vm_compute. exact I.
Defined.

(** X15: when a call is settled before anything else happens and its files
    carry distinct names, each file it registers gets as default style the
    palette entry at its position in [fileOrder], modulo the length of the
    palette. *)
Theorem sequential_default_style (papaParse : string -> ParseResult)
    (stringToNumber : string -> num) (st : AppState) (files : list File)
    (completion : list nat) (i : nat) (name : string) :
  NoDup (file_name <$> files) ->
  (length (fileOrder st) <= i)%nat ->
  fileOrder (processFiles papaParse stringToNumber st files completion) !! i
  = Some name ->
  fileStyles (processFiles papaParse stringToNumber st files completion) !! name
  = LINE_STYLES !! (i mod length LINE_STYLES)%nat.
Proof.
  intros Hfiles Hi Hname.
  exact (default_style_sequential papaParse stringToNumber st files completion
           i name Hfiles Hi Hname).
Qed.

Lemma sequential_default_style_witness :
  fileStyles (processFiles demoParse demoNumber initialState
                [fileA; brokenFile; fileB] [2%nat; 0%nat; 1%nat])
    !! "B.csv"%string
  = LINE_STYLES !! (1 mod length LINE_STYLES)%nat.
Proof.
  apply (sequential_default_style demoParse demoNumber initialState
           [fileA; brokenFile; fileB] [2%nat; 0%nat; 1%nat] 1 "B.csv").
  - apply (bool_decide_unpack _). vm_compute. exact I.
  - simpl. lia.
  - vm_compute. reflexivity.
Defined.

(** ** Clearing while a call is in flight *)

(** X16: the clear button does not cancel a call in flight: the call stays
    in flight, and when its reads are done its files are registered and
    selected in the emptied registry. *)
Theorem clear_all_keeps_calls_in_flight (papaParse : string -> ParseResult)
    (stringToNumber : string -> num) (w w' : World) (k : nat) (p : Pending)
    (completion : list nat) :
  fire papaParse stringToNumber w ClearAll = Some w' ->
  inflight w !! k = Some p ->
  (forall i, (i < length (newFiles p))%nat -> i ∈ completion) ->
  inflight w' = inflight w
  /\ exists w'',
       fire papaParse stringToNumber w' (Settle k completion) = Some w''
       /\ fileOrder (app w'') = registeredNames papaParse p
       /\ forall name,
            name ∈ selectedFiles (app w'') <-> name ∈ registeredNames papaParse p.
Proof.
  intros Hclear Hk Hcover. simpl in Hclear.
  destruct (decide (parsedFileData (app w) = ∅)); [discriminate |].
  injection Hclear as <-. split; [reflexivity |].
  pose proof (all_reads_done_settled p completion Hcover) as Hset.
  eexists. split.
  - simpl. rewrite Hk. unfold settled in Hset.
    destruct (promiseAll (readPromise <$> newFiles p) completion);
      [destruct Hset | reflexivity | reflexivity].
  - cbn [app]. split.
    + rewrite settle_fileOrder by exact Hset. reflexivity.
    + intros name. rewrite settle_selected by exact Hset.
      cbn [selectedFiles handleClearAll].
      rewrite elem_of_union, elem_of_list_to_set. split; [| auto].
      intros [Hin | Hin]; [apply not_elem_of_empty in Hin; destruct Hin | exact Hin].
Qed.

Lemma clear_all_keeps_calls_in_flight_witness :
  exists w w',
    run demoParse demoNumber initialWorld
      [Submit [fileA]; Settle 0 [0%nat]; Submit [fileB]] = Some w
    /\ fire demoParse demoNumber w ClearAll = Some w'
    /\ inflight w' = inflight w
    /\ exists w'',
         fire demoParse demoNumber w' (Settle 0 [0%nat]) = Some w''
         /\ fileOrder (app w'')
            = registeredNames demoParse (mkPending ["A.csv"%string] [fileB])
         /\ forall name,
              name ∈ selectedFiles (app w'')
              <-> name ∈ registeredNames demoParse
                           (mkPending ["A.csv"%string] [fileB]).
Proof.
  eexists _, _. split; [vm_compute; reflexivity |].
  split; [vm_compute; reflexivity |].
  refine (clear_all_keeps_calls_in_flight demoParse demoNumber _ _ 0
            (mkPending ["A.csv"%string] [fileB]) [0%nat] _ _ _).
  - vm_compute. reflexivity.
  - reflexivity.
  - all_completed.
Defined.

(** ** Toggling and what is plotted *)

Lemma toggle_membership (fileName : string) (st : AppState) :
  (fileName ∈ selectedFiles (handleSelectionChange fileName st)
   <-> fileName ∉ selectedFiles st)
  /\ (forall other,
        other <> fileName ->
        (other ∈ selectedFiles (handleSelectionChange fileName st)
         <-> other ∈ selectedFiles st)).
Proof.
  split.
  - unfold handleSelectionChange. cbn [selectedFiles setSelectedFiles].
    destruct (decide (fileName ∈ selectedFiles st)) as [Hin | Hout].
    + rewrite elem_of_difference, elem_of_singleton. tauto.
    + rewrite elem_of_union, elem_of_singleton. tauto.
  - intros other Hne. unfold handleSelectionChange.
    cbn [selectedFiles setSelectedFiles].
    destruct (decide (fileName ∈ selectedFiles st)).
    + rewrite elem_of_difference, elem_of_singleton. tauto.
    + rewrite elem_of_union, elem_of_singleton. tauto.
Qed.

(** X17: a toggle flips the membership of its file in the selection and of
    no other file, and toggling the same file twice gives the selection
    back. *)
Theorem toggle_flips_one (fileName : string) (st : AppState) :
  let st' := handleSelectionChange fileName st in
  (fileName ∈ selectedFiles st' <-> fileName ∉ selectedFiles st)
  /\ (forall other, other <> fileName ->
                    (other ∈ selectedFiles st' <-> other ∈ selectedFiles st))
  /\ selectedFiles (handleSelectionChange fileName st') = selectedFiles st.
Proof.
  cbv zeta. destruct (toggle_membership fileName st) as [Hown Hothers].
  split; [exact Hown |]. split; [exact Hothers | apply toggle_twice].
Qed.

Lemma tracesToPlot_filter (st : AppState) (names : list string) :
  concat (fileTracesToPlot st <$> names)
  = concat ((fun name =>
               stamp (styleOf st name)
                 <$> default [] (parsedFileData st !! name))
              <$> filter (fun name => name ∈ selectedFiles st) names).
Proof.
  induction names as [| name names IH]; [reflexivity |].
  rewrite fmap_cons. cbn [concat]. rewrite IH.
  rewrite filter_cons. unfold fileTracesToPlot at 1.
  destruct (decide (name ∈ selectedFiles st)); [| reflexivity].
  rewrite fmap_cons. cbn [concat]. f_equal.
  destruct (parsedFileData st !! name); reflexivity.
Qed.

(** X18: the traces handed to the plot are those of the plotted files (the
    registered files that are selected, in the order of the registry),
    each file's traces in their stored order, copied and stamped with the
    style of the file. *)
Theorem traces_of_plotted_files (st : AppState) :
  tracesToPlot st
  = concat ((fun name =>
               stamp (styleOf st name)
                 <$> default [] (parsedFileData st !! name))
              <$> plottedFiles st).
Proof. apply tracesToPlot_filter. Qed.

(** X19: a toggle changes what is plotted for its own file only: after a
    deselection the file is no longer among the plotted files and
    contributes no trace; after a selection it contributes its stored
    traces, stamped with its style; the contribution of every other file
    is as before. *)
Theorem toggle_changes_own_traces (fileName : string) (st : AppState) :
  let st' := handleSelectionChange fileName st in
  (forall other, other <> fileName ->
                 fileTracesToPlot st' other = fileTracesToPlot st other)
  /\ (fileName ∈ selectedFiles st ->
      fileTracesToPlot st' fileName = []
      /\ plottedFiles st'
         = filter (fun name => name <> fileName) (plottedFiles st))
  /\ (fileName ∉ selectedFiles st ->
      fileTracesToPlot st' fileName
      = stamp (styleOf st fileName)
          <$> default [] (parsedFileData st !! fileName)).
Proof.
  cbv zeta.
  destruct (toggle_membership fileName st) as [Hown Hothers].
  split; [| split].
  - intros other Hne. unfold fileTracesToPlot.
    change (parsedFileData (handleSelectionChange fileName st))
      with (parsedFileData st).
    change (styleOf (handleSelectionChange fileName st) other)
      with (styleOf st other).
    destruct (decide (other ∈ selectedFiles (handleSelectionChange fileName st)))
      as [Hin | Hout], (decide (other ∈ selectedFiles st)) as [Hin' | Hout'];
      try reflexivity.
    + apply (Hothers other Hne) in Hin. contradiction.
    + apply (Hothers other Hne) in Hin'. contradiction.
  - intros Hsel. split.
    + unfold fileTracesToPlot.
      destruct (decide (fileName ∈ selectedFiles (handleSelectionChange fileName st)))
        as [Hin | _]; [| reflexivity].
      apply Hown in Hin. contradiction.
    + unfold plottedFiles.
      change (fileOrder (handleSelectionChange fileName st)) with (fileOrder st).
      rewrite list_filter_filter. apply list_filter_iff. intros name. split.
      * intros Hin. destruct (decide (name = fileName)) as [-> | Hne].
        -- apply Hown in Hin. contradiction.
        -- split; [exact Hne | apply (Hothers name Hne); exact Hin].
      * intros [Hne Hin]. apply (Hothers name Hne). exact Hin.
  - intros Hout. unfold fileTracesToPlot.
    change (parsedFileData (handleSelectionChange fileName st))
      with (parsedFileData st).
    change (styleOf (handleSelectionChange fileName st) fileName)
      with (styleOf st fileName).
    destruct (decide (fileName ∈ selectedFiles (handleSelectionChange fileName st)))
      as [_ | Hbad]; [| destruct Hbad; apply Hown; exact Hout].
    destruct (parsedFileData st !! fileName); reflexivity.
Qed.

Lemma finite_not_NaN (n : num) : isFinite n = true -> n <> NaN.
Proof. intros Hn ->. vm_compute in Hn. discriminate. Qed.

Lemma jsonCell_clean (c : Cell) :
  jsonCell c <> CNum NaN
  /\ jsonCell c <> CUndefined
  /\ (forall n, jsonCell c = CNum n -> isFinite n = true).
Proof.
  destruct c as [n | s | b | |]; cbn [jsonCell];
    try (repeat split; [discriminate .. | intros n' [=]]).
  destruct (isFinite n) eqn:Hfin;
    [| repeat split; [discriminate .. | intros n' [=]]].
  destruct (isZero n).
  - split; [intros [= H]; vm_compute in H; revert H; apply finite_not_NaN;
            reflexivity |].
    split; [discriminate |]. intros n' [= <-]. reflexivity.
  - split; [intros [= H]; exact (finite_not_NaN n Hfin H) |].
    split; [discriminate |]. intros n' [= <-]. exact Hfin.
Qed.

(** X20: no trace handed to the plot holds a [NaN], an infinity or an
    [undefined] cell (the copy through JSON turns them into [null]), and
    every such trace carries a dash style that is not the empty string. *)
Theorem plotted_traces_clean (st : AppState) (trace : PlotlyTrace) :
  trace ∈ tracesToPlot st ->
  (forall c, c ∈ tr_x trace ++ tr_y trace ->
             c <> CNum NaN /\ c <> CUndefined
             /\ forall n, c = CNum n -> isFinite n = true)
  /\ exists style, tr_line_dash trace = Some style /\ style <> ""%string.
Proof.
  intros Hin. unfold tracesToPlot in Hin.
  apply elem_of_concat in Hin. destruct Hin as (traces & Htrace & Htraces).
  apply list_elem_of_fmap in Htraces. destruct Htraces as (name & -> & _).
  unfold fileTracesToPlot in Htrace.
  destruct (decide (name ∈ selectedFiles st));
    [| apply elem_of_nil in Htrace; destruct Htrace].
  destruct (parsedFileData st !! name);
    [| apply elem_of_nil in Htrace; destruct Htrace].
  apply list_elem_of_fmap in Htrace. destruct Htrace as (t0 & -> & _).
  split.
  - intros c Hc. cbn [stamp withDash jsonCopy tr_x tr_y] in Hc.
    assert (Hcell : exists c0, c = jsonCell c0).
    { apply elem_of_app in Hc.
      destruct Hc as [Hc | Hc]; apply list_elem_of_fmap in Hc;
        destruct Hc as (c0 & -> & _); eauto. }
    destruct Hcell as (c0 & ->).
    apply jsonCell_clean.
  - exists (styleOf st name). split; [reflexivity |].
    unfold styleOf, orElse.
    destruct (fileStyles st !! name) as [style |]; [| discriminate].
    destruct (decide (style = ""%string)); [discriminate | assumption].
Qed.

Lemma plotted_traces_clean_witness :
  let st := mkApp
              {[ "A.csv"%string
                 := [mkTrace [CNum NaN; CUndefined]
                       [CNum infinity; CNum (ofZ 1)]
                       "lines" "a (A.csv)" 2 None "t" "a"] ]}
              ["A.csv"%string] {[ "A.csv"%string ]} "" "" None
              {[ "A.csv"%string := ""%string ]} ∅ false in
  let trace := mkTrace [CNull; CNull] [CNull; CNum (ofZ 1)]
                 "lines" "a (A.csv)" 2 (Some "solid"%string) "t" "a" in
  (forall c, c ∈ tr_x trace ++ tr_y trace ->
             c <> CNum NaN /\ c <> CUndefined
             /\ forall n, c = CNum n -> isFinite n = true)
  /\ exists style, tr_line_dash trace = Some style /\ style <> ""%string.
Proof.
  cbv zeta.
  apply (plotted_traces_clean
           (mkApp
              {[ "A.csv"%string
                 := [mkTrace [CNum NaN; CUndefined]
                       [CNum infinity; CNum (ofZ 1)]
                       "lines" "a (A.csv)" 2 None "t" "a"] ]}
              ["A.csv"%string] {[ "A.csv"%string ]} "" "" None
              {[ "A.csv"%string := ""%string ]} ∅ false)).
  vm_compute. apply list_elem_of_here.
Defined.

(** X21: in every reachable state nothing is handed to the plot, and no
    layout is built, exactly when no file is selected. *)
Theorem nothing_plotted_iff_nothing_selected
    (papaParse : string -> ParseResult) (stringToNumber : string -> num)
    (w : World) :
  reachable papaParse stringToNumber w ->
  (tracesToPlot (app w) = [] <-> selectedFiles (app w) = ∅)
  /\ (plotLayout (app w) = None <-> selectedFiles (app w) = ∅).
Proof.
  intros Hreach.
  assert (Hiff : tracesToPlot (app w) = [] <-> selectedFiles (app w) = ∅).
  { split.
    - intros Hnil. apply set_eq. intros name. split;
        [| intros Hin; apply not_elem_of_empty in Hin; destruct Hin].
      intros Hin. exfalso.
      apply (plotted_has_traces (app w)
               (reachable_ok papaParse stringToNumber w Hreach)); [| exact Hnil].
      intros Hplot.
      assert (Hp : name ∈ plottedFiles (app w)).
      { apply list_elem_of_filter. split; [exact Hin |].
        apply (reachable_selection papaParse stringToNumber w Hreach). exact Hin. }
      rewrite Hplot in Hp. apply elem_of_nil in Hp. exact Hp.
    - intros Hempty. unfold tracesToPlot. rewrite tracesToPlot_filter.
      unfold plottedFiles. rewrite Hempty.
      replace (filter (fun name => name ∈ (∅ : gset string)) (fileOrder (app w)))
        with (@nil string); [reflexivity |].
      symmetry. induction (fileOrder (app w)) as [| name names IH]; [reflexivity |].
      rewrite filter_cons.
      destruct (decide (name ∈ (∅ : gset string))) as [Hin | _]; [| exact IH].
      apply not_elem_of_empty in Hin. destruct Hin. }
  split; [exact Hiff |].
  rewrite <- Hiff. unfold plotLayout.
  destruct (tracesToPlot (app w)); split; intros H; try reflexivity;
    discriminate.
Qed.

Lemma nothing_plotted_iff_nothing_selected_witness :
  exists w,
    run demoParse demoNumber initialWorld
      [Submit [fileA; fileB]; Settle 0 [1%nat; 0%nat]; Toggle "B.csv";
       SetStyle "A.csv" "dot"] = Some w
    /\ (tracesToPlot (app w) = [] <-> selectedFiles (app w) = ∅)
    /\ (plotLayout (app w) = None <-> selectedFiles (app w) = ∅).
Proof.
  destruct demo_world_reachable as (w & Hrun & Hreach).
  exists w. split; [exact Hrun |].
  apply (nothing_plotted_iff_nothing_selected demoParse demoNumber w Hreach).
Defined.

(** ** The legend labels and the titles *)

Lemma append_cons (c : ascii) (s t : string) :
  String c s +:+ t = String c (s +:+ t).
Proof. reflexivity. Qed.

Lemma string_append_assoc (s t u : string) :
  (s +:+ t) +:+ u = s +:+ (t +:+ u).
Proof.
  induction s as [| c s IH]; [reflexivity |].
  rewrite !append_cons, IH. reflexivity.
Qed.

Lemma string_append_nil_r (s : string) : s +:+ "" = s.
Proof.
  induction s as [| c s IH]; [reflexivity |].
  rewrite append_cons, IH. reflexivity.
Qed.

Lemma string_length_append (s t : string) :
  String.length (s +:+ t) = (String.length s + String.length t)%nat.
Proof.
  induction s as [| c s IH]; [reflexivity |].
  rewrite append_cons. cbn [String.length]. rewrite IH. reflexivity.
Qed.

Lemma length_substring_0 (n : nat) (s : string) :
  String.length (substring 0 n s) = Nat.min n (String.length s).
Proof.
  revert s. induction n as [| n IH]; intros [| c s]; try reflexivity.
  cbn [substring String.length]. rewrite IH. reflexivity.
Qed.

Lemma substring_0_prefix (n : nat) (s : string) :
  exists rest, s = substring 0 n s +:+ rest.
Proof.
  revert s. induction n as [| n IH]; intros s.
  - exists s. destruct s; reflexivity.
  - destruct s as [| c s]; [exists ""%string; reflexivity |].
    destruct (IH s) as [rest Hrest]. exists rest.
    cbn [substring]. rewrite append_cons. f_equal. exact Hrest.
Qed.

(** X22: the file name shown in a legend label is never longer than 20
    characters: a name of at most 20 characters is shown as it is, a longer
    one as its first 17 characters followed by three full stops. *)
Theorem legend_name_truncated (fileName : string) :
  (String.length (truncateFileName fileName) <= 20)%nat
  /\ ((String.length fileName <= 20)%nat ->
      truncateFileName fileName = fileName)
  /\ ((20 < String.length fileName)%nat ->
      exists head rest,
        fileName = head +:+ rest
        /\ String.length head = 17%nat
        /\ truncateFileName fileName = head +:+ "...").
Proof.
  unfold truncateFileName.
  destruct (20 <? String.length fileName)%nat eqn:Hlong.
  - apply Nat.ltb_lt in Hlong.
    assert (Hhead : String.length (substring 0 17 fileName) = 17%nat)
      by (rewrite length_substring_0; lia).
    split; [| split].
    + rewrite string_length_append, Hhead. cbn [String.length]. lia.
    + intros Hshort. lia.
    + intros _. destruct (substring_0_prefix 17 fileName) as [rest Hrest].
      exists (substring 0 17 fileName), rest. auto.
  - apply Nat.ltb_ge in Hlong.
    split; [exact Hlong |]. split; [reflexivity |]. intros Hbad. lia.
Qed.

(** X23: whenever a file is plotted, the layout is built; its title lists
    the plotted files in the order of the registry, and the x axis is
    labelled with the title the user typed or, when that is empty, with the
    x header of the first trace of the first plotted file, and with
    [X-Axis] only when that header is empty too. *)
Theorem layout_titles (st : AppState) (name : string) (rest : list string)
    (trace : PlotlyTrace) (fileTraces : list PlotlyTrace) :
  plottedFiles st = name :: rest ->
  parsedFileData st !! name = Some (trace :: fileTraces) ->
  exists layout,
    plotLayout st = Some layout
    /\ title_text layout = "<b>Plot of " +:+ join ", " (name :: rest) +:+ "</b>"
    /\ xaxis_title_text layout
       = "<b>" +:+ (if decide (xAxisTitle st = ""%string)
                    then if decide (tr_headers_x trace = ""%string)
                         then "X-Axis"%string
                         else tr_headers_x trace
                    else xAxisTitle st) +:+ "</b>"
    /\ yaxis_title_text layout
       = "<b>" +:+ (if decide (yAxisTitle st = ""%string)
                    then "Value"%string
                    else yAxisTitle st) +:+ "</b>".
Proof.
  intros Hplotted Hts.
  assert (Hfirst : exists others,
             tracesToPlot st = stamp (styleOf st name) trace :: others).
  { unfold tracesToPlot. rewrite tracesToPlot_filter.
    fold (plottedFiles st). rewrite Hplotted.
    cbn [fmap list_fmap concat]. rewrite Hts.
    cbn [default fmap list_fmap app]. eauto. }
  destruct Hfirst as [others Hfirst].
  unfold plotLayout. rewrite Hfirst, Hplotted.
  eexists. split; [reflexivity |].
  cbn [title_text xaxis_title_text yaxis_title_text].
  split; [reflexivity |]. split.
  - unfold orElse. cbn [stamp withDash jsonCopy tr_headers_x].
    destruct (decide (xAxisTitle st = ""%string)); [| reflexivity].
    destruct (decide (tr_headers_x trace = ""%string)); reflexivity.
  - unfold orElse.
    destruct (decide (yAxisTitle st = ""%string)); reflexivity.
Qed.

Lemma layout_titles_witness :
  let st := mkApp
              {[ "A.csv"%string
                 := [mkTrace [CNum (ofZ 0)] [CNum (ofZ 1)]
                       "lines" "a (A.csv)" 2 None "t" "a"] ]}
              ["A.csv"%string] {[ "A.csv"%string ]} "" "dB" None
              {[ "A.csv"%string := "solid"%string ]} ∅ false in
  exists layout,
    plotLayout st = Some layout
    /\ title_text layout = "<b>Plot of A.csv</b>"%string
    /\ xaxis_title_text layout = "<b>t</b>"%string
    /\ yaxis_title_text layout = "<b>dB</b>"%string.
Proof.
  cbv zeta.
  apply (layout_titles
           (mkApp
              {[ "A.csv"%string
                 := [mkTrace [CNum (ofZ 0)] [CNum (ofZ 1)]
                       "lines" "a (A.csv)" 2 None "t" "a"] ]}
              ["A.csv"%string] {[ "A.csv"%string ]} "" "dB" None
              {[ "A.csv"%string := "solid"%string ]} ∅ false)
           "A.csv" []
           (mkTrace [CNum (ofZ 0)] [CNum (ofZ 1)]
              "lines" "a (A.csv)" 2 None "t" "a") []).
  - vm_compute. reflexivity.
  - vm_compute. reflexivity.
Defined.

(** X24: in every reachable state the legend carries, for the [i]-th
    plotted file, a label made of the truncated file name, the capitalised
    palette entry of the file and the number of its traces, which is never
    zero; after the labels of the files comes the heading. *)
Theorem legend_labels (papaParse : string -> ParseResult)
    (stringToNumber : string -> num) (w : World) (i : nat) (name : string) :
  reachable papaParse stringToNumber w ->
  plottedFiles (app w) !! i = Some name ->
  exists layout fileTraces style note,
    plotLayout (app w) = Some layout
    /\ parsedFileData (app w) !! name = Some fileTraces
    /\ (1 <= length fileTraces)%nat
    /\ styleOf (app w) name = style
    /\ style ∈ LINE_STYLES
    /\ annotations layout !! i = Some note
    /\ an_text note
       = "<b>" +:+ truncateFileName name +:+ "</b> (" +:+ capitalize style
         +:+ (", " +:+ pretty (length fileTraces) +:+ " trace"
              +:+ (if (1 <? length fileTraces)%nat then "s" else ""))
         +:+ ")"
    /\ length (annotations layout) = S (length (plottedFiles (app w)))
    /\ annotations layout !! length (plottedFiles (app w))
       = Some (mkAnnotation 1.02%float 1.08%float "<b>File Styles</b>").
Proof.
  intros Hreach Hi.
  pose proof (reachable_ok papaParse stringToNumber w Hreach) as Hok.
  destruct (reachable_tidy papaParse stringToNumber w Hreach)
    as (_ & _ & Hstyled & Hpalette).
  assert (Hin : name ∈ plottedFiles (app w))
    by (apply list_elem_of_lookup; eauto).
  assert (Hplotted : plottedFiles (app w) <> [])
    by (intros Hnil; rewrite Hnil in Hin; apply elem_of_nil in Hin; exact Hin).
  pose proof (plotted_has_traces (app w) Hok Hplotted) as Htraces.
  apply list_elem_of_filter in Hin. destruct Hin as [_ Hord].
  destruct Hok as [Hreg Hne].
  destruct (Hreg name Hord) as [fileTraces Hts].
  pose proof (Hne name fileTraces Hts) as Hsome.
  destruct (Hstyled name Hord) as [style Hstyle].
  pose proof (Hpalette name style Hstyle) as Hpal.
  assert (Hof : styleOf (app w) name = style)
    by (unfold styleOf; rewrite Hstyle; apply palette_not_empty; exact Hpal).
  assert (Hlen : (1 <= length fileTraces)%nat)
    by (destruct fileTraces; [contradiction | simpl; lia]).
  unfold plotLayout. destruct (tracesToPlot (app w)) as [| first others];
    [contradiction |].
  exists (mkLayout
            ("<b>Plot of " +:+ join ", " (plottedFiles (app w)) +:+ "</b>")
            ("<b>" +:+ orElse (xAxisTitle (app w))
                         (orElse (tr_headers_x first) "X-Axis") +:+ "</b>")
            ("<b>" +:+ orElse (yAxisTitle (app w)) "Value" +:+ "</b>")
            1.02%float
            (defaultLegendTopY (length (plottedFiles (app w))))
            (imap (legendShape (app w)) (plottedFiles (app w)))
            (imap (legendAnnotation (app w)) (plottedFiles (app w))
             ++ match plottedFiles (app w) with
                | [] => []
                | _ :: _ =>
                    [mkAnnotation 1.02%float 1.08%float "<b>File Styles</b>"]
                end)),
    fileTraces, style, (legendAnnotation (app w) i name).
  cbn [annotations].
  split; [reflexivity |]. split; [exact Hts |]. split; [exact Hlen |].
  split; [exact Hof |]. split; [exact Hpal |].
  split; [| split; [| split]].
  - rewrite lookup_app_l by (rewrite length_imap; eapply lookup_lt_Some; eauto).
    rewrite list_lookup_imap, Hi. reflexivity.
  - unfold legendAnnotation. cbn [an_text]. rewrite Hts, Hof.
    replace (0 <? length fileTraces)%nat with true
      by (symmetry; apply Nat.ltb_lt; lia).
    reflexivity.
  - rewrite length_app, length_imap.
    destruct (plottedFiles (app w)); [contradiction | simpl; lia].
  - rewrite lookup_app_r by (rewrite length_imap; lia).
    rewrite length_imap, Nat.sub_diag.
    destruct (plottedFiles (app w)); [contradiction | reflexivity].
Qed.

Lemma legend_labels_witness :
  exists w,
    run demoParse demoNumber initialWorld
      [Submit [fileA; fileB]; Settle 0 [1%nat; 0%nat]; Toggle "B.csv";
       SetStyle "A.csv" "dot"] = Some w
    /\ exists layout fileTraces style note,
         plotLayout (app w) = Some layout
         /\ parsedFileData (app w) !! "A.csv"%string = Some fileTraces
         /\ (1 <= length fileTraces)%nat
         /\ styleOf (app w) "A.csv" = style
         /\ style ∈ LINE_STYLES
         /\ annotations layout !! 0%nat = Some note
         /\ an_text note
            = "<b>" +:+ truncateFileName "A.csv" +:+ "</b> ("
              +:+ capitalize style
              +:+ (", " +:+ pretty (length fileTraces) +:+ " trace"
                   +:+ (if (1 <? length fileTraces)%nat then "s" else ""))
              +:+ ")"
         /\ length (annotations layout) = S (length (plottedFiles (app w)))
         /\ annotations layout !! length (plottedFiles (app w))
            = Some (mkAnnotation 1.02%float 1.08%float "<b>File Styles</b>").
Proof.
  destruct demo_world_reachable as (w & Hrun & Hreach).
  exists w. split; [exact Hrun |].
  apply (legend_labels demoParse demoNumber w 0 "A.csv" Hreach).
  revert Hrun. vm_compute. intros [= <-]. reflexivity.
Defined.

(** ** The download *)

Lemma removeCsv_cons (c : ascii) (s : string) :
  c <> "."%char -> removeCsv (String c s) = String c (removeCsv s).
Proof.
  intros Hc. apply Ascii.eqb_neq in Hc.
  destruct s as [| c2 [| c3 [| c4 rest]]]; try reflexivity.
  cbn [removeCsv]. rewrite Hc. reflexivity.
Qed.

Lemma removeCsv_noDot (a s : string) :
  noDot a = true -> removeCsv (a +:+ s) = a +:+ removeCsv s.
Proof.
  induction a as [| c a IH]; [reflexivity |].
  cbn [noDot]. intros Ha. apply andb_true_iff in Ha. destruct Ha as [Hc Ha].
  apply negb_true_iff, Ascii.eqb_neq in Hc.
  rewrite !append_cons, removeCsv_cons by exact Hc.
  rewrite IH by exact Ha. reflexivity.
Qed.

Lemma removeCsv_extension (s : string) :
  removeCsv (".csv" +:+ s) = removeCsv s.
Proof. reflexivity. Qed.

Lemma removeCsv_join (bases : list string) :
  forallb noDot bases = true ->
  removeCsv (join "_" (csvName <$> bases)) = join "_" bases.
Proof.
  induction bases as [| base [| base' rest] IH]; [reflexivity | |].
  - cbn [forallb]. rewrite andb_true_r. intros Hbase.
    cbn [fmap list_fmap join]. unfold csvName.
    rewrite removeCsv_noDot by exact Hbase.
    change (removeCsv ".csv") with ""%string. apply string_append_nil_r.
  - intros Hall. cbn [forallb] in Hall. apply andb_true_iff in Hall.
    destruct Hall as [Hbase Hrest].
    change (join "_" (csvName <$> base :: base' :: rest))
      with (csvName base +:+ "_" +:+ join "_" (csvName <$> base' :: rest)).
    change (join "_" (base :: base' :: rest))
      with (base +:+ "_" +:+ join "_" (base' :: rest)).
    unfold csvName at 1. rewrite string_append_assoc.
    rewrite removeCsv_noDot by exact Hbase.
    rewrite removeCsv_extension.
    rewrite (removeCsv_noDot "_") by reflexivity.
    rewrite IH by exact Hrest. reflexivity.
Qed.

(** X25: when the plotted files are named [base.csv], with no full stop
    in any base, the image is saved under [plot_] followed by the bases
    joined with underscores, in the order of the registry. *)
Theorem download_name_of_csv_files (st : AppState) (bases : list string) :
  bases <> [] ->
  forallb noDot bases = true ->
  plottedFiles st = csvName <$> bases ->
  downloadFilename st = "plot_" +:+ join "_" bases.
Proof.
  intros Hsome Hdots Hplotted. unfold downloadFilename. rewrite Hplotted.
  destruct bases as [| base rest]; [contradiction |].
  rewrite fmap_cons at 1.
  rewrite (removeCsv_noDot "plot_") by reflexivity.
  rewrite removeCsv_join by exact Hdots. reflexivity.
Qed.

Lemma download_name_of_csv_files_witness :
  exists w,
    run demoParse demoNumber initialWorld
      [Submit [fileA; fileB]; Settle 0 [1%nat; 0%nat]] = Some w
    /\ downloadFilename (app w) = "plot_A_B"%string.
Proof.
  eexists. split; [vm_compute; reflexivity |].
  apply (download_name_of_csv_files _ ["A"; "B"]%string).
  - discriminate.
  - reflexivity.
  - vm_compute. reflexivity.
Defined.

(** X26: a click on the download button saves an image only while the plot
    is shown, that is when nothing is loading and there are traces to plot;
    the request is then a PNG of 1200 by 800 named after the plotted files,
    of which there is at least one, so that the fallback name is never
    used. *)
Theorem download_only_of_shown_plot (st : AppState) :
  (isLoading st = true \/ tracesToPlot st = [] ->
   handleDownloadPlot (plotMounted st) st = None)
  /\ (forall request,
        handleDownloadPlot (plotMounted st) st = Some request ->
        isLoading st = false
        /\ plottedFiles st <> []
        /\ request
           = mkDownload "png" 1200 800
               (removeCsv ("plot_" +:+ join "_" (plottedFiles st)))).
Proof.
  unfold handleDownloadPlot, plotMounted. split.
  - intros [Hloading | Hnil].
    + rewrite Hloading. reflexivity.
    + rewrite bool_decide_eq_true_2 by exact Hnil.
      rewrite andb_false_r. reflexivity.
  - intros request.
    destruct (isLoading st); [discriminate |].
    destruct (bool_decide (tracesToPlot st = [])) eqn:Hnil; [discriminate |].
    apply bool_decide_eq_false in Hnil. cbn [negb andb].
    intros [= <-].
    assert (Hplotted : plottedFiles st <> []).
    { intros Hempty. apply Hnil. unfold tracesToPlot.
      rewrite tracesToPlot_filter. fold (plottedFiles st).
      rewrite Hempty. reflexivity. }
    split; [reflexivity |]. split; [exact Hplotted |].
    unfold downloadFilename.
    destruct (plottedFiles st); [contradiction | reflexivity].
Qed.

(** ** The loading indicator *)

Section Loading.

Variable papaParse : string -> ParseResult.
Variable stringToNumber : string -> num.

Lemma settle_not_loading (st : AppState) (p : Pending) (completion : list nat) :
  settled p completion ->
  isLoading (processFiles_settle papaParse stringToNumber st p completion)
  = false.
Proof.
  unfold settled, processFiles_settle.
  destruct (promiseAll (readPromise <$> newFiles p) completion);
    [intros [] | |]; intros _; [| reflexivity].
  destruct (forEachResult _ _ _ _ _); reflexivity.
Qed.

Lemma fire_loading (w w' : World) (e : Event) :
  fire papaParse stringToNumber w e = Some w' ->
  (isLoading (app w) = true -> inflight w <> []) ->
  isLoading (app w') = true -> inflight w' <> [].
Proof.
  intros Hfire Hok.
  destruct e as [files | k completion | | name | name style | t | t];
    simpl in Hfire.
  - unfold processFiles_call in Hfire.
    destruct files as [| file files]; [injection Hfire as <-; exact Hok |].
    destruct (filter _ (file :: files)); injection Hfire as <-.
    + cbn [app isLoading setIsLoading]. discriminate.
    + intros _. cbn [inflight]. intros Hnil.
      apply app_eq_nil in Hnil. destruct Hnil as [_ Hnil]. discriminate.
  - destruct (inflight w !! k) as [p |]; [| discriminate].
    pose proof (settle_not_loading (app w) p completion) as Hs.
    unfold settled in Hs.
    destruct (promiseAll (readPromise <$> newFiles p) completion);
      [discriminate | |]; injection Hfire as <-; cbn [app];
      rewrite Hs by exact I; discriminate.
  - destruct (decide (parsedFileData (app w) = ∅)); [discriminate |].
    injection Hfire as <-. exact Hok.
  - destruct (decide (name ∈ fileOrder (app w))); [| discriminate].
    injection Hfire as <-. exact Hok.
  - destruct (decide (name ∈ fileOrder (app w) ∧ style ∈ LINE_STYLES));
      [| discriminate].
    injection Hfire as <-. exact Hok.
  - destruct (tracesToPlot (app w)); [discriminate |].
    injection Hfire as <-. exact Hok.
  - destruct (tracesToPlot (app w)); [discriminate |].
    injection Hfire as <-. exact Hok.
Qed.

Lemma reachable_loading (w : World) :
  reachable papaParse stringToNumber w ->
  isLoading (app w) = true -> inflight w <> [].
Proof.
  intros [events Hrun].
  assert (Hinit : isLoading (app initialWorld) = true -> inflight initialWorld <> [])
    by discriminate.
  revert Hrun Hinit. generalize initialWorld.
  induction events as [| e rest IH]; intros w0 Hrun Hok; simpl in Hrun.
  - injection Hrun as <-. exact Hok.
  - destruct (fire papaParse stringToNumber w0 e) as [w1 |] eqn:Hfire;
      [| discriminate].
    eapply IH; [exact Hrun |]. eapply fire_loading; eauto.
Qed.

(** The reads of the oldest call in flight can complete, in the order of
    its files; the call then leaves the list and the indicator is off. *)
Lemma settle_oldest (w : World) (p : Pending) (rest : list Pending) :
  inflight w = p :: rest ->
  exists w',
    fire papaParse stringToNumber w (Settle 0 (seq 0 (length (newFiles p))))
    = Some w'
    /\ inflight w' = rest
    /\ isLoading (app w') = false.
Proof.
  intros Hin.
  assert (Hset : settled p (seq 0 (length (newFiles p)))).
  { apply all_reads_done_settled. intros i Hi. apply elem_of_seq. lia. }
  pose proof (settle_not_loading (app w) p _ Hset) as Hoff.
  cbn [fire]. rewrite Hin. cbn [lookup list_lookup].
  unfold settled in Hset.
  destruct (promiseAll (readPromise <$> newFiles p)
              (seq 0 (length (newFiles p)))) eqn:Hp;
    [destruct Hset | |]; eexists; (split; [reflexivity |]);
    split; try reflexivity; exact Hoff.
Qed.

Lemma settle_all (pending : list Pending) (w : World) :
  inflight w = pending ->
  pending <> [] ->
  exists completions w',
    run papaParse stringToNumber w ((fun c => Settle 0 c) <$> completions)
    = Some w'
    /\ length completions = length pending
    /\ inflight w' = []
    /\ isLoading (app w') = false.
Proof.
  revert w. induction pending as [| p rest IH]; intros w Hin Hsome;
    [contradiction |].
  destruct (settle_oldest w p rest Hin) as (w1 & Hfire & Hrest & Hoff).
  destruct rest as [| p' rest'].
  - exists [seq 0 (length (newFiles p))], w1.
    cbn [fmap list_fmap run]. rewrite Hfire. auto.
  - destruct (IH w1 Hrest) as (completions & w' & Hrun & Hlen & Hnone & Hoff');
      [discriminate |].
    exists (seq 0 (length (newFiles p)) :: completions), w'.
    cbn [fmap list_fmap run]. rewrite Hfire.
    split; [exact Hrun |]. split; [simpl; simpl in Hlen; lia | auto].
Qed.

End Loading.

(** X27: in every reachable state the loading indicator is on only while
    some call is in flight; and the calls in flight can all settle, one
    after the other, after which none is in flight and the indicator is
    off, so that the page never stays on the indicator. *)
Theorem loading_ends (papaParse : string -> ParseResult)
    (stringToNumber : string -> num) (w : World) :
  reachable papaParse stringToNumber w ->
  (isLoading (app w) = true -> inflight w <> [])
  /\ exists completions w',
       run papaParse stringToNumber w ((fun c => Settle 0 c) <$> completions)
       = Some w'
       /\ length completions = length (inflight w)
       /\ inflight w' = []
       /\ isLoading (app w') = false.
Proof.
  intros Hreach.
  pose proof (reachable_loading papaParse stringToNumber w Hreach) as Hon.
  split; [exact Hon |].
  destruct (inflight w) as [| p rest] eqn:Hin.
  - exists [], w. cbn [fmap list_fmap run].
    split; [reflexivity |]. split; [reflexivity |]. split; [exact Hin |].
    destruct (isLoading (app w)); [| reflexivity].
    destruct (Hon eq_refl). reflexivity.
  - apply (settle_all papaParse stringToNumber (p :: rest) w Hin). discriminate.
Qed.

Lemma loading_ends_witness :
  exists w,
    run demoParse demoNumber initialWorld
      [Submit [fileA]; Submit [fileB; unreadableY]] = Some w
    /\ (isLoading (app w) = true -> inflight w <> [])
    /\ exists completions w',
         run demoParse demoNumber w ((fun c => Settle 0 c) <$> completions)
         = Some w'
         /\ length completions = length (inflight w)
         /\ inflight w' = []
         /\ isLoading (app w') = false.
Proof.
  eexists. split; [vm_compute; reflexivity |].
  apply (loading_ends demoParse demoNumber).
  exists [Submit [fileA]; Submit [fileB; unreadableY]].
  vm_compute. reflexivity.
Defined.
